(** * Voice recorder: capture session, persistence gateway, list playback
      and live waveform.

    A shallow embedding of the React components of the application
    (src/App.tsx, src/context/AuthContext.tsx, src/lib/supabase.ts,
    src/components/SaveRecordingModal.tsx, src/components/Dashboard.tsx,
    src/components/WaveformVisualizer.tsx, src/components/LoginForm copy.tsx)
    and of the parts of the browser and of the Supabase service they talk
    to.

    Conventions.
    - React state ([useState]) and refs ([useRef]) of a component are the
      fields of one record; an event handler is a function from the state
      in which the handler was created (the last render) to the next one.
    - An [await] on the outside world is a function argument: the caller
      passes what the world answered (a fault, a time stamp, a blob).
    - JavaScript strings are sequences of UTF-16 code units ([list N]).
    - Numbers that the code only adds, subtracts, multiplies and divides
      are rationals ([Q]); see [WaveformVisualizer] for why this is exact
      there.  Instants are integers. *)

From Stdlib Require Import ZArith QArith List Bool Lia Ascii String.
From Stdlib Require Import DecimalString Sorted Qround Lqa.
From Stdlib Require DecimalZ.
From stdpp Require Import gmap strings list.

(** ** JavaScript strings and blobs *)

Module JS.

Abbreviation jsstring := (list N).

(** A source literal: one code unit per character. *)
Definition lit (s : string) : jsstring :=
  List.map N_of_ascii (list_ascii_of_string s).

(** [ToBoolean] on a string: only the empty string is falsy. *)
Definition truthy (s : jsstring) : bool :=
  match s with
  | [] => false
  | _ :: _ => true
  end.

(** [a || b] on strings. *)
Definition or_else (a b : jsstring) : jsstring :=
  if truthy a then a else b.

(** The code units that [String.prototype.trim] strips: ECMAScript
    WhiteSpace (TAB, VT, FF, SP, NBSP, ZWNBSP and the Unicode category Zs)
    and LineTerminator (LF, CR, LS, PS). *)
Definition is_white_space (c : N) : bool :=
  ((9 <=? c) && (c <=? 13) ||
   (c =? 32) || (c =? 160) || (c =? 5760) ||
   (8192 <=? c) && (c <=? 8202) ||
   (c =? 8232) || (c =? 8233) || (c =? 8239) || (c =? 8287) ||
   (c =? 12288) || (c =? 65279))%N.

Fixpoint trimStart (s : jsstring) : jsstring :=
  match s with
  | [] => []
  | c :: s' => if is_white_space c then trimStart s' else s
  end.

Definition trimEnd (s : jsstring) : jsstring :=
  rev (trimStart (rev s)).

Definition trim (s : jsstring) : jsstring :=
  trimEnd (trimStart s).

(** [s.split(sep)] for a separator of one code unit: never empty. *)
Fixpoint split (sep : N) (s : jsstring) : list jsstring :=
  match s with
  | [] => [[]]
  | c :: s' =>
      if (c =? sep)%N then [] :: split sep s'
      else match split sep s' with
           | seg :: segs => (c :: seg) :: segs
           | [] => [[c]]
           end
  end.

(** [arr.pop()] as a value: the last element. *)
Definition pop (segs : list jsstring) : jsstring :=
  List.last segs [].

Fixpoint startsWith (s p : jsstring) : bool :=
  match p, s with
  | [], _ => true
  | _ :: _, [] => false
  | a :: p', b :: s' => (a =? b)%N && startsWith s' p'
  end.

Fixpoint includes (s p : jsstring) : bool :=
  startsWith s p ||
  match s with
  | [] => false
  | _ :: s' => includes s' p
  end.

(** [Array.prototype.sort(cmp)], which is stable: an element goes before
    the first later one that it does not compare greater than. *)
Fixpoint sort_insert {A : Type} (cmp : A -> A -> Z) (x : A) (l : list A)
  : list A :=
  match l with
  | [] => [x]
  | y :: l' => if (cmp x y <=? 0)%Z then x :: l else y :: sort_insert cmp x l'
  end.

Definition sort {A : Type} (cmp : A -> A -> Z) (l : list A) : list A :=
  List.fold_right (sort_insert cmp) [] l.

(** An integer in a template literal: its decimal digits. *)
Definition of_int (z : Z) : jsstring :=
  lit (NilZero.string_of_int (Z.to_int z)).

Definition slash : N := 47.
Definition at_sign : N := 64.

(** [Blob]: its bytes and its MIME type. *)
Record Blob := {
  Blob_bytes : list Byte.byte;
  Blob_type : jsstring
}.

Definition Blob_size (b : Blob) : nat := length (Blob_bytes b).

(** [new Blob(parts, { type })]: the parts' bytes, in order. *)
Definition new_Blob (parts : list Blob) (ty : jsstring) : Blob :=
  {| Blob_bytes := List.concat (List.map Blob_bytes parts); Blob_type := ty |}.

(** [Math.floor] and [Math.trunc], which rounds towards zero. *)
Definition Math_floor (x : Q) : Z := Qfloor x.
Definition Math_trunc (x : Q) : Z := Z.quot (Qnum x) (Zpos (Qden x)).

(** [x % y] on numbers: the remainder has the sign of the dividend. *)
Definition number_rem (x y : Q) : Q :=
  (x - y * inject_Z (Math_trunc (x / y)))%Q.

(** [s.padStart(n, c)] with a filler of one code unit. *)
Definition padStart (n : nat) (c : N) (s : jsstring) : jsstring :=
  repeat c (n - List.length s) ++ s.

End JS.

Import JS.

(** ** Regular expressions, as far as the forms use them *)

Module RegExp.

(** A pattern without captures, look-around or back-references. *)
Inductive RegExp :=
  | Empty                         (* matches nothing *)
  | Eps                           (* matches the empty string *)
  | Chars (p : N -> bool)         (* one code unit of a class *)
  | Alt (r1 r2 : RegExp)
  | Seq (r1 r2 : RegExp)
  | Star (r : RegExp).

(** [r+] *)
Definition Plus (r : RegExp) : RegExp := Seq r (Star r).

Fixpoint nullable (r : RegExp) : bool :=
  match r with
  | Empty => false
  | Eps => true
  | Chars _ => false
  | Alt r1 r2 => nullable r1 || nullable r2
  | Seq r1 r2 => nullable r1 && nullable r2
  | Star _ => true
  end.

(** What is left to match after the code unit [c]. *)
Fixpoint deriv (c : N) (r : RegExp) : RegExp :=
  match r with
  | Empty | Eps => Empty
  | Chars p => if p c then Eps else Empty
  | Alt r1 r2 => Alt (deriv c r1) (deriv c r2)
  | Seq r1 r2 =>
      Alt (Seq (deriv c r1) r2) (if nullable r1 then deriv c r2 else Empty)
  | Star r1 => Seq (deriv c r1) (Star r1)
  end.

(** [/^r$/.test(s)]: the whole of [s] matches [r]. *)
Definition test (r : RegExp) (s : jsstring) : bool :=
  nullable (List.fold_left (fun r c => deriv c r) s r).

(** [[^\s@]]: [\s] is the white space that [trim] strips. *)
Definition not_space_or_at (c : N) : bool :=
  negb (is_white_space c) && negb (c =? at_sign)%N.

(** A literal character. *)
Definition chr (c0 : N) : RegExp := Chars (N.eqb c0).

End RegExp.

(** ** The Supabase service, as the client sees it

    The SDK ([@supabase/supabase-js]) is a third-party collaborator.  Its
    model keeps what the application relies on: the two tables and the
    storage bucket of [supabase/migrations], their row-level-security
    policies, [.eq], [.order], [.single], and the convention that every
    call answers [{ data, error }].  A call can also fail for reasons the
    model does not know (network, quota): the caller of each operation
    passes a [fault], and the operation fails with it when it is [Some].
    Calls of one handler are not interleaved with calls of another. *)

Module Supabase.

(** The error object of a failed call.  An absent property is the empty
    string: all the application does with one is test it for truthiness. *)
Record SbError := {
  code : jsstring;
  message : jsstring;
  error_description : jsstring;
  error : jsstring
}.

Inductive Result (A : Type) : Type :=
  | Data (a : A)
  | Failure (e : SbError).
Arguments Data {A} a.
Arguments Failure {A} e.

(** Table [users]. *)
Record UserRow := {
  u_id : jsstring;
  u_username : jsstring;
  u_email : jsstring
}.

(** The columns [id] and [user_id] have type [uuid]: the text of an id
    is 8-4-4-4-12 hexadecimal digits.  A filter [.eq('id', text)] with
    other text is refused (22P02) before any row is looked at; the calls
    below are modelled for ids that are UUID text. *)
Definition is_hex_digit (c : N) : bool :=
  ((48 <=? c) && (c <=? 57) || (97 <=? c) && (c <=? 102)
   || (65 <=? c) && (c <=? 70))%N.

Definition uuid_text (s : jsstring) : bool :=
  let groups := split 45 s in
  bool_decide (List.map (@List.length N) groups = [8; 4; 4; 4; 12]%nat)
  && forallb (forallb is_hex_digit) groups.

(** Table [recordings]: [created_at] is the instant, in microseconds. *)
Record RecordingRow := {
  row_id : jsstring;
  row_user_id : jsstring;
  row_title : jsstring;
  row_audio_url : jsstring;
  row_duration : Q;
  row_created_at : Z
}.

(** The calls a client can send. *)
Inductive Request :=
  | SelectUser (id : jsstring)
  | InsertUser (id : jsstring)
  | SelectRecordings (user_id : jsstring)
  | InsertRecording (user_id title audio_url : jsstring)
  | SelectAudioUrl (id : jsstring)
  | DeleteRecording (id : jsstring)
  | Upload (key : jsstring)
  | Remove (keys : list jsstring)
  | SignOut.

Record Backend := {
  auth_uid : option jsstring;             (* auth.uid() of the session *)
  tbl_users : list UserRow;
  tbl_recordings : list RecordingRow;
  bucket : list (jsstring * Blob);        (* bucket 'recordings', by key *)
  requests : list Request                 (* every call received, oldest first *)
}.

Definition sent (q : Request) (sb : Backend) : Backend :=
  {| auth_uid := auth_uid sb; tbl_users := tbl_users sb;
     tbl_recordings := tbl_recordings sb; bucket := bucket sb;
     requests := requests sb ++ [q] |}.

Definition with_recordings (rows : list RecordingRow) (sb : Backend) : Backend :=
  {| auth_uid := auth_uid sb; tbl_users := tbl_users sb;
     tbl_recordings := rows; bucket := bucket sb; requests := requests sb |}.

Definition with_users (rows : list UserRow) (sb : Backend) : Backend :=
  {| auth_uid := auth_uid sb; tbl_users := rows;
     tbl_recordings := tbl_recordings sb; bucket := bucket sb;
     requests := requests sb |}.

Definition with_bucket (objs : list (jsstring * Blob)) (sb : Backend) : Backend :=
  {| auth_uid := auth_uid sb; tbl_users := tbl_users sb;
     tbl_recordings := tbl_recordings sb; bucket := objs;
     requests := requests sb |}.

Definition pg_error (c m : string) : SbError :=
  {| code := lit c; message := lit m; error_description := []; error := [] |}.

Definition no_rows : SbError :=
  pg_error "PGRST116" "JSON object requested, multiple (or no) rows returned".
Definition rls_violation : SbError :=
  pg_error "42501" "new row violates row-level security policy".
Definition unique_violation : SbError :=
  pg_error "23505" "duplicate key value violates unique constraint".
Definition foreign_key_violation : SbError :=
  pg_error "23503" "insert or update on table violates foreign key constraint".
Definition already_exists : SbError :=
  pg_error "" "The resource already exists".

Definition is_uid (sb : Backend) (id : jsstring) : bool :=
  match auth_uid sb with
  | Some uid => bool_decide (uid = id)
  | None => false
  end.

(** Policies "Users can read own data" and "Users can manage own
    recordings": [USING (auth.uid() = id)], [USING (auth.uid() = user_id)]. *)
Definition visible_user (sb : Backend) (u : UserRow) : bool :=
  is_uid sb (u_id u).
Definition visible_recording (sb : Backend) (r : RecordingRow) : bool :=
  is_uid sb (row_user_id r).

(** Storage policy: [(storage.foldername(name))[1] = auth.uid()::text]. *)
Definition visible_object (sb : Backend) (key : jsstring) : bool :=
  match split slash key with
  | folder :: _ :: _ => is_uid sb folder
  | _ => false
  end.

(** [.single()]: exactly one row, or error PGRST116. *)
Definition single {A : Type} (rows : list A) : Result A :=
  match rows with
  | [r] => Data r
  | _ => Failure no_rows
  end.

(** [ORDER BY created_at DESC]: [x] goes before [y] when [y] is not
    newer than [x]. *)
Definition order_desc (rows : list RecordingRow) : list RecordingRow :=
  sort (fun a b => (row_created_at b - row_created_at a)%Z) rows.

Section Calls.

Variable fault : option SbError.

Definition answer {A : Type} (q : Request) (sb : Backend)
    (run : Result A * Backend) : Result A * Backend :=
  match fault with
  | Some e => (Failure e, sent q sb)
  | None => (fst run, sent q (snd run))
  end.

(** [from('users').select('id, username, email').eq('id', id).single()] *)
Definition select_user (id : jsstring) (sb : Backend)
  : Result UserRow * Backend :=
  answer (SelectUser id) sb
    (single (List.filter (fun u => visible_user sb u && bool_decide (u_id u = id))
               (tbl_users sb)), sb).

(** [from('users').insert([row]).select().single()]: the primary key and
    [email] are unique; policy "Users can insert own profile". *)
Definition insert_user (row : UserRow) (sb : Backend)
  : Result UserRow * Backend :=
  answer (InsertUser (u_id row)) sb
    (if negb (visible_user sb row) then (Failure rls_violation, sb)
     else if existsb (fun u => bool_decide (u_id u = u_id row)
                            || bool_decide (u_email u = u_email row))
               (tbl_users sb)
     then (Failure unique_violation, sb)
     else (Data row, with_users (tbl_users sb ++ [row]) sb)).

(** [from('recordings').select('*').eq('user_id', uid)
      .order('created_at', { ascending: false })] *)
Definition select_recordings (uid : jsstring) (sb : Backend)
  : Result (list RecordingRow) * Backend :=
  answer (SelectRecordings uid) sb
    (Data (order_desc
             (List.filter (fun r => visible_recording sb r
                                 && bool_decide (row_user_id r = uid))
                (tbl_recordings sb))), sb).

(** [from('recordings').insert([{ user_id, title, audio_url, duration }])]:
    the service fills [id] ([gen_random_uuid()]) and [created_at]
    ([now()]), which the caller of the model supplies. *)
Definition insert_recording (new_id : jsstring) (db_now : Z)
    (user_id title audio_url : jsstring) (duration : Q) (sb : Backend)
  : Result unit * Backend :=
  let row := {| row_id := new_id; row_user_id := user_id; row_title := title;
                row_audio_url := audio_url; row_duration := duration;
                row_created_at := db_now |} in
  answer (InsertRecording user_id title audio_url) sb
    (if negb (visible_recording sb row) then (Failure rls_violation, sb)
     else if negb (existsb (fun u => bool_decide (u_id u = user_id))
                     (tbl_users sb))
     then (Failure foreign_key_violation, sb)
     else if existsb (fun r => bool_decide (row_id r = new_id))
               (tbl_recordings sb)
     then (Failure unique_violation, sb)
     else (Data tt, with_recordings (tbl_recordings sb ++ [row]) sb)).

(** [from('recordings').select('audio_url').eq('id', id).single()] *)
Definition select_audio_url (id : jsstring) (sb : Backend)
  : Result jsstring * Backend :=
  answer (SelectAudioUrl id) sb
    (single (List.map row_audio_url
               (List.filter (fun r => visible_recording sb r
                                   && bool_decide (row_id r = id))
                  (tbl_recordings sb))), sb).

(** [from('recordings').delete().eq('id', id)]: rows the policy hides are
    left alone, without an error. *)
Definition delete_recording (id : jsstring) (sb : Backend)
  : Result unit * Backend :=
  answer (DeleteRecording id) sb
    (Data tt,
     with_recordings
       (List.filter (fun r => negb (visible_recording sb r
                                 && bool_decide (row_id r = id)))
          (tbl_recordings sb)) sb).

(** [storage.from('recordings').upload(key, blob, { upsert: false })] *)
Definition upload (key : jsstring) (blob : Blob) (sb : Backend)
  : Result unit * Backend :=
  answer (Upload key) sb
    (if negb (visible_object sb key) then (Failure rls_violation, sb)
     else if existsb (fun o => bool_decide (fst o = key)) (bucket sb)
     then (Failure already_exists, sb)
     else (Data tt, with_bucket (bucket sb ++ [(key, blob)]) sb)).

(** [storage.from('recordings').remove(keys)]: objects that are absent or
    hidden by the policy are skipped, without an error. *)
Definition remove (keys : list jsstring) (sb : Backend)
  : Result unit * Backend :=
  answer (Remove keys) sb
    (Data tt,
     with_bucket
       (List.filter (fun o => negb (visible_object sb (fst o)
                                 && bool_decide (fst o ∈ keys)))
          (bucket sb)) sb).

End Calls.

(** [auth.signOut()]: the session is removed when the call succeeds and
    kept when it answers with an error. *)
Definition signOut (fault : option SbError) (sb : Backend)
  : Result unit * Backend :=
  answer fault SignOut sb
    (Data tt,
     {| auth_uid := None; tbl_users := tbl_users sb;
        tbl_recordings := tbl_recordings sb; bucket := bucket sb;
        requests := requests sb |}).

(** src/lib/supabase.ts: [supabaseUrl]. *)
Definition supabaseUrl : jsstring :=
  lit "https://qcywplfvzwxcatofizdx.supabase.co".

(** [storage.from('recordings').getPublicUrl(key)]: computed by the
    client, no request is sent. *)
Definition getPublicUrl (key : jsstring) : jsstring :=
  supabaseUrl ++ lit "/storage/v1/object/public/recordings/" ++ key.

(** src/lib/supabase.ts: the table of [getErrorMessage]. *)
Definition errorMessages : list (jsstring * jsstring) :=
  [ (lit "auth/invalid-email", lit "Invalid email address");
    (lit "auth/user-not-found", lit "No account found with this email");
    (lit "auth/wrong-password", lit "Invalid password");
    (lit "auth/email-already-in-use",
     lit "An account with this email already exists");
    (lit "auth/weak-password", lit "Password should be at least 6 characters");
    (lit "23505", lit "An account with this email already exists");
    (lit "PGRST116", lit "No data found");
    (lit "42P01", lit "Database table not found");
    (lit "42501", lit "Permission denied");
    (lit "refresh_token_not_found",
     lit "Your session has expired. Please sign in again.") ].

Fixpoint lookup_message (key : jsstring) (tbl : list (jsstring * jsstring))
  : jsstring :=
  match tbl with
  | [] => []
  | (k, v) :: tbl' => if bool_decide (k = key) then v else lookup_message key tbl'
  end.

(** The names that the table, an object literal, inherits from
    [Object.prototype]: indexed with one of them it answers a function or
    an object, not a message. *)
Definition Object_prototype_members : list jsstring :=
  [ lit "constructor"; lit "hasOwnProperty"; lit "isPrototypeOf";
    lit "propertyIsEnumerable"; lit "toLocaleString"; lit "toString";
    lit "valueOf"; lit "__proto__"; lit "__defineGetter__";
    lit "__defineSetter__"; lit "__lookupGetter__"; lit "__lookupSetter__" ].

(** src/lib/supabase.ts: [getErrorMessage], on an error object (the
    callers pass what a call answered as [error] or what was thrown,
    never a string and never a falsy value).  The table is looked up by
    its own keys, which is what the source does for every key that is
    not one of [Object_prototype_members]; for those the source answers
    the inherited member, which is not a string, and this definition
    does not say what. *)
Definition getErrorMessage (e : SbError) : jsstring :=
  let message :=
    or_else (message e)
      (or_else (error_description e)
         (or_else (error e) (lit "An error occurred"))) in
  or_else (lookup_message (or_else (code e) message) errorMessages) message.

End Supabase.

(** ** src/context/AuthContext.tsx *)

Module AuthContext.

Import Supabase.

Record User := {
  user_id : jsstring;       (* [id] in the source *)
  username : jsstring;
  email : jsstring
}.

Record Recording := {
  id : jsstring;
  userId : jsstring;
  title : jsstring;
  date : Z;               (* [created_at], the instant its text denotes *)
  audioUrl : jsstring;
  duration : Q
}.

(** [User | null | undefined] *)
Inductive UserState :=
  | Undefined
  | Null
  | Loaded (u : User).

(** The [useState] cells of [AuthProvider]. *)
Record State := {
  user : UserState;
  recordings : list Recording;
  isLoading : bool;
  dbConnected : bool
}.

Definition initial : State :=
  {| user := Undefined; recordings := []; isLoading := true;
     dbConnected := false |}.

Definition setUser (u : UserState) (st : State) : State :=
  {| user := u; recordings := recordings st; isLoading := isLoading st;
     dbConnected := dbConnected st |}.

Definition setRecordings (f : list Recording -> list Recording) (st : State)
  : State :=
  {| user := user st; recordings := f (recordings st);
     isLoading := isLoading st; dbConnected := dbConnected st |}.

(** What an [async] function's promise settles to: [Rejected m] is
    [throw new Error(m)]. *)
Inductive Outcome :=
  | Resolved
  | Rejected (msg : jsstring).

(** The object literal mapped over the rows in [loadUserData] and in
    [saveRecording]. *)
Definition to_recording (r : RecordingRow) : Recording :=
  {| id := row_id r; userId := row_user_id r; title := row_title r;
     date := row_created_at r; audioUrl := row_audio_url r;
     duration := row_duration r |}.

Definition to_user (r : UserRow) : User :=
  {| user_id := u_id r; username := u_username r; email := u_email r |}.

(** The [SupabaseUser] handed over by the identity provider. *)
Record AuthUser := {
  au_id : jsstring;
  au_email : jsstring;              (* [] when absent *)
  au_metadata_username : jsstring   (* [user_metadata?.username], [] when absent *)
}.

(** What the service answers during one [loadUserData]. *)
Record LoadEnv := {
  load_profile_fault : option SbError;
  load_insert_fault : option SbError;
  load_recordings_fault : option SbError;
  load_signOut_fault : option SbError
}.

(** The [catch] block of [loadUserData], which does not look at what
    [signOut] answers. *)
Definition loadUserData_catch (env : LoadEnv) (st : State) (sb : Backend)
  : State * Backend :=
  (setRecordings (fun _ => []) (setUser Null st),
   snd (signOut (load_signOut_fault env) sb)).

(** The branch of [loadUserData] for error PGRST116: the profile does
    not exist, create it. *)
Definition loadUserData_create (env : LoadEnv) (authUser : AuthUser)
    (st : State) (sb : Backend) : State * Backend :=
  let row :=
    {| u_id := au_id authUser;
       u_username :=
         or_else (au_metadata_username authUser)
           (or_else (List.hd [] (split at_sign (au_email authUser)))
              (lit "user"));
       u_email := au_email authUser |} in
  let '(r, sb1) := insert_user (load_insert_fault env) row sb in
  match r with
  | Failure _ => loadUserData_catch env st sb1
  | Data newUser => (setUser (Loaded (to_user newUser)) st, sb1)
  end.

Definition loadUserData (env : LoadEnv) (authUser : AuthUser)
    (st : State) (sb : Backend) : State * Backend :=
  let '(r, sb1) := select_user (load_profile_fault env) (au_id authUser) sb in
  match r with
  | Failure userError =>
      if bool_decide (code userError = lit "PGRST116")
      then loadUserData_create env authUser st sb1
      else loadUserData_catch env st sb1
  | Data userData =>
      let st1 := setUser (Loaded (to_user userData)) st in
      let '(r2, sb2) :=
        select_recordings (load_recordings_fault env) (u_id userData) sb1 in
      match r2 with
      | Failure _ => loadUserData_catch env st1 sb2
      | Data recordingsData =>
          (setRecordings (fun _ => List.map to_recording recordingsData) st1,
           sb2)
      end
  end.

(** What the world answers during one [saveRecording]. *)
Record SaveEnv := {
  save_now : Z;                        (* [Date.now()] *)
  save_upload_fault : option SbError;
  save_insert_fault : option SbError;
  save_reload_fault : option SbError;
  save_new_id : jsstring;              (* [gen_random_uuid()] *)
  save_created_at : Z                  (* [now()] *)
}.

Definition saveRecording (env : SaveEnv) (title : jsstring) (audioBlob : Blob)
    (duration : Q) (st : State) (sb : Backend) : Outcome * State * Backend :=
  match user st with
  | Loaded user =>
      let fileName :=
        user_id user ++ lit "/" ++ of_int (save_now env) ++ lit ".wav" in
      let '(r1, sb1) := upload (save_upload_fault env) fileName audioBlob sb in
      match r1 with
      | Failure uploadError => (Rejected (getErrorMessage uploadError), st, sb1)
      | Data _ =>
          let publicUrl := getPublicUrl fileName in
          let '(r2, sb2) :=
            insert_recording (save_insert_fault env) (save_new_id env)
              (save_created_at env) (user_id user) title publicUrl duration
              sb1 in
          match r2 with
          | Failure dbError => (Rejected (getErrorMessage dbError), st, sb2)
          | Data _ =>
              let '(r3, sb3) :=
                select_recordings (save_reload_fault env) (user_id user) sb2 in
              match r3 with
              | Failure recordingsError =>
                  (Rejected (getErrorMessage recordingsError), st, sb3)
              | Data recordingsData =>
                  (Resolved,
                   setRecordings
                     (fun _ => List.map to_recording recordingsData) st,
                   sb3)
              end
          end
      end
  | Undefined | Null => (Rejected (lit "User not authenticated"), st, sb)
  end.

(** What the service answers during one [deleteRecording]. *)
Record DeleteEnv := {
  delete_fetch_fault : option SbError;
  delete_storage_fault : option SbError;
  delete_db_fault : option SbError
}.

Definition deleteRecording (env : DeleteEnv) (id0 : jsstring)
    (st : State) (sb : Backend) : Outcome * State * Backend :=
  match user st with
  | Loaded user =>
      let '(r1, sb1) := select_audio_url (delete_fetch_fault env) id0 sb in
      match r1 with
      | Failure fetchError => (Rejected (getErrorMessage fetchError), st, sb1)
      | Data audio_url =>
          let fileName := pop (split slash audio_url) in
          let '(r2, sb2) :=
            if truthy fileName
            then remove (delete_storage_fault env)
                   [user_id user ++ lit "/" ++ fileName] sb1
            else (Data tt, sb1) in
          match r2 with
          | Failure storageError =>
              (Rejected (getErrorMessage storageError), st, sb2)
          | Data _ =>
              let '(r3, sb3) := delete_recording (delete_db_fault env) id0 sb2 in
              match r3 with
              | Failure dbError => (Rejected (getErrorMessage dbError), st, sb3)
              | Data _ =>
                  (Resolved,
                   setRecordings
                     (List.filter (fun rec => negb (bool_decide (id rec = id0))))
                     st,
                   sb3)
              end
          end
      end
  | Undefined | Null => (Resolved, st, sb)
  end.

(** What [login] and [register] ask of the identity provider. *)
Inductive AuthCall :=
  | SignInWithPassword (email password : jsstring)
  | SignUp (email password username : jsstring).

(** What it answers: [error], and whether [data.user] is there. *)
Record AuthAnswer := {
  auth_error : option SbError;
  auth_user : bool
}.

(** [new Error(msg)], as [getErrorMessage] sees it. *)
Definition new_Error (msg : jsstring) : SbError :=
  {| code := []; message := msg; error_description := []; error := [] |}.

Definition login (answer : AuthAnswer) (email password : jsstring)
  : Outcome * list AuthCall :=
  (match auth_error answer with
   | Some error => Rejected (getErrorMessage error)
   | None =>
       if auth_user answer then Resolved
       else Rejected (getErrorMessage (new_Error (lit "Login failed")))
   end,
   [SignInWithPassword (trim email) password]).

Definition register (answer : AuthAnswer) (username email password : jsstring)
  : Outcome * list AuthCall :=
  (match auth_error answer with
   | Some error => Rejected (getErrorMessage error)
   | None =>
       if auth_user answer then Resolved
       else Rejected (getErrorMessage (new_Error (lit "Registration failed")))
   end,
   [SignUp (trim email) password (trim username)]).

End AuthContext.

(** ** src/components/SaveRecordingModal.tsx *)

Module SaveRecordingModal.

Import Supabase AuthContext.

(** The [useState] cells of the modal. *)
Record State := {
  title : jsstring;
  isSaving : bool;
  error : option jsstring
}.

(** What one [handleSave] leaves behind when its promise has settled:
    the modal, whether [onSaved] was called, and the provider and the
    service it went through.  While [saveRecording] is awaited the modal
    shows [isSaving = true]; the [finally] block resets it. *)
Record Saved := {
  modal : State;
  onSaved_called : bool;
  auth : AuthContext.State;
  backend : Backend
}.

Definition handleSave (env : SaveEnv) (audioBlob : Blob) (duration : Q)
    (m : State) (st : AuthContext.State) (sb : Backend) : Saved :=
  if negb (truthy (trim (title m))) then
    {| modal := {| title := title m; isSaving := isSaving m;
                   error := Some (lit "Please enter a title for your recording") |};
       onSaved_called := false; auth := st; backend := sb |}
  else
    match saveRecording env (title m) audioBlob duration st sb with
    | (Resolved, st', sb') =>
        {| modal := {| title := title m; isSaving := false; error := None |};
           onSaved_called := true; auth := st'; backend := sb' |}
    | (Rejected msg, st', sb') =>
        {| modal := {| title := title m; isSaving := false; error := Some msg |};
           onSaved_called := false; auth := st'; backend := sb' |}
    end.

End SaveRecordingModal.

(** ** src/components/Dashboard.tsx *)

Module Dashboard.

Import AuthContext.

(** An [HTMLAudioElement], as far as the list uses one: [ended] is true
    from the moment playback reaches the end until it is started again. *)
Record HTMLAudioElement := {
  src : jsstring;
  paused : bool;
  ended : bool
}.

(** [new Audio(url)] *)
Definition new_Audio (url : jsstring) : HTMLAudioElement :=
  {| src := url; paused := true; ended := false |}.

(** [el.pause()] *)
Definition pause (el : HTMLAudioElement) : HTMLAudioElement :=
  {| src := src el; paused := true; ended := ended el |}.

(** [el.play()]: an element that had ended starts over. *)
Definition play (el : HTMLAudioElement) : HTMLAudioElement :=
  {| src := src el; paused := false; ended := false |}.

Definition sounding (el : HTMLAudioElement) : bool :=
  negb (paused el) && negb (ended el).

(** The [useState] cells of [Dashboard]; the audio elements that
    [audioElements] refers to (an element is an object, the state holds
    references, here positions in [elements]); and the elements for which
    the browser has queued the task that fires ['ended']. *)
Record State := {
  searchTerm : jsstring;
  currentlyPlaying : option jsstring;
  audioElements : gmap jsstring nat;
  elements : list HTMLAudioElement;
  ended_tasks : list nat
}.

Definition initial : State :=
  {| searchTerm := []; currentlyPlaying := None; audioElements := ∅;
     elements := []; ended_tasks := [] |}.

(** What a handler asks of the audio elements, in order. *)
Inductive Call :=
  | pause_call (el : nat)
  | play_call (el : nat).

Definition setCurrentlyPlaying (c : option jsstring) (st : State) : State :=
  {| searchTerm := searchTerm st; currentlyPlaying := c;
     audioElements := audioElements st; elements := elements st;
     ended_tasks := ended_tasks st |}.

Definition update_element (f : HTMLAudioElement -> HTMLAudioElement) (el : nat)
    (st : State) : State :=
  {| searchTerm := searchTerm st; currentlyPlaying := currentlyPlaying st;
     audioElements := audioElements st;
     elements := alter f el (elements st);
     ended_tasks := ended_tasks st |}.

(** [currentlyPlaying && audioElements[currentlyPlaying]] *)
Definition playing_element (st : State) : option nat :=
  match currentlyPlaying st with
  | Some cur => if truthy cur then audioElements st !! cur else None
  | None => None
  end.

Definition playRecording (id0 url : jsstring) (st : State) : State * list Call :=
  (* Stop any currently playing audio *)
  let '(st1, calls1) :=
    match playing_element st with
    | Some el => (update_element pause el st, [pause_call el])
    | None => (st, [])
    end in
  (* If we're clicking the same recording that's playing, pause it *)
  if bool_decide (currentlyPlaying st = Some id0) then
    (setCurrentlyPlaying None st1, calls1)
  else
    (* Create or get audio element *)
    let '(el, st2) :=
      match audioElements st !! id0 with
      | Some el => (el, st1)
      | None =>
          let el := length (elements st1) in
          (el,
           {| searchTerm := searchTerm st1;
              currentlyPlaying := currentlyPlaying st1;
              audioElements := <[id0 := el]> (audioElements st1);
              elements := elements st1 ++ [new_Audio url];
              ended_tasks := ended_tasks st1 |})
      end in
    (* Play the audio *)
    (setCurrentlyPlaying (Some id0) (update_element play el st2),
     calls1 ++ [play_call el]).

(** The ['ended'] listener that [playRecording] attaches to every element
    it creates. *)
Definition on_ended (st : State) : State :=
  setCurrentlyPlaying None st.

(** The class/label test of a list item: [currentlyPlaying === recording.id]. *)
Definition marked_playing (st : State) (rec : Recording) : bool :=
  bool_decide (currentlyPlaying st = Some (id rec)).

(** Take the first [el] out of the queued tasks. *)
Fixpoint dequeue (el : nat) (tasks : list nat) : list nat :=
  match tasks with
  | [] => []
  | t :: tasks' => if (t =? el)%nat then tasks' else t :: dequeue el tasks'
  end.

(** What the user and the browser can do to the list.  When playback of
    an element reaches its end the browser only queues a task; the task,
    which may run after other events, pauses the element if it still is
    at its end and then fires ['ended']. *)
Inductive Event :=
  | click_play (rec : Recording)     (* the Play/Pause button of an item *)
  | playback_ends (el : nat)         (* a sounding element reaches its end *)
  | ended_task (el : nat).           (* the task queued for it runs *)

Definition step (ev : Event) (st : State) : State :=
  match ev with
  | click_play rec => fst (playRecording (id rec) (audioUrl rec) st)
  | playback_ends el =>
      match elements st !! el with
      | Some e =>
          if sounding e then
            {| searchTerm := searchTerm st;
               currentlyPlaying := currentlyPlaying st;
               audioElements := audioElements st;
               elements :=
                 alter (fun e => {| src := src e; paused := paused e;
                                    ended := true |}) el (elements st);
               ended_tasks := ended_tasks st ++ [el] |}
          else st
      | None => st
      end
  | ended_task el =>
      if existsb (Nat.eqb el) (ended_tasks st) then
        on_ended
          {| searchTerm := searchTerm st;
             currentlyPlaying := currentlyPlaying st;
             audioElements := audioElements st;
             elements :=
               alter (fun e => if ended e && negb (paused e) then pause e else e)
                 el (elements st);
             ended_tasks := dequeue el (ended_tasks st) |}
      else st
  end.

Definition run (evs : list Event) (st : State) : State :=
  List.fold_left (fun s ev => step ev s) evs st.

(** [new Date(s).getTime()]: the instant of a [timestamptz], which has
    microseconds, in the milliseconds of a [Date]. *)
Definition getTime (d : Z) : Z := (d / 1000)%Z.

Section Lists.

(** [String.prototype.toLowerCase], left to the browser. *)
Variable toLowerCase : jsstring -> jsstring.

Definition filteredRecordings (searchTerm : jsstring)
    (recordings : list Recording) : list Recording :=
  List.filter
    (fun recording =>
       includes (toLowerCase (title recording)) (toLowerCase searchTerm))
    recordings.

Definition sortedRecordings (searchTerm : jsstring)
    (recordings : list Recording) : list Recording :=
  sort (fun a b => (getTime (date b) - getTime (date a))%Z)
    (filteredRecordings searchTerm recordings).

End Lists.

(** [formatTime]: [mins] and [secs] are integers, whose [toString()] is
    their decimal digits; ['0'] is code unit 48.  The arithmetic is that
    of the rationals: a duration the app stores is a number of
    milliseconds divided by 1000, and for these the whole parts that
    [Math.floor] takes are the same in floating point. *)
Definition formatTime (seconds : Q) : jsstring :=
  let mins := Math_floor (seconds / 60) in
  let secs := Math_floor (number_rem seconds 60) in
  padStart 2 48 (of_int mins) ++ lit ":" ++ padStart 2 48 (of_int secs).

End Dashboard.

(** ** src/components/WaveformVisualizer.tsx: the live waveform

    Numbers are rationals.  For the values the browser provides this is
    what the floating-point code computes: [canvas.width] and
    [canvas.height] are integers, a sample is a byte, and
    [frequencyBinCount] is half of [fftSize], a power of two, so every
    quotient and every partial sum of the loop is a dyadic rational far
    below 2^53. *)

Module WaveformVisualizer.

Record Canvas := {
  width : Z;
  height : Z
}.

(** What [draw] asks of the 2D context, in order. *)
Inductive CanvasCall :=
  | clearRect (x y w h : Q)
  | set_lineWidth (w : Q)
  | set_strokeStyle (c : jsstring)
  | set_shadowBlur (b : Q)
  | set_shadowColor (c : jsstring)
  | beginPath
  | moveTo (x y : Q)
  | lineTo (x y : Q)
  | stroke.

(** An element of the [Uint8Array], as a number. *)
Definition sample (b : Byte.byte) : Q := inject_Z (Z.of_N (Byte.to_N b)).

(** The [for] loop of [draw], entered at index [i] with the running [x];
    [dataArray] holds the samples from index [i] on. *)
Fixpoint draw_loop (canvas : Canvas) (sliceWidth : Q) (i : nat) (x : Q)
    (dataArray : list Byte.byte) : list CanvasCall :=
  match dataArray with
  | [] => []
  | d :: rest =>
      let v := (sample d / 128)%Q in
      let y := (v * (inject_Z (height canvas) / 2))%Q in
      (if (i =? 0)%nat then moveTo x y else lineTo x y)
        :: draw_loop canvas sliceWidth (S i) (x + sliceWidth)%Q rest
  end.

(** The body of [draw] after [getByteTimeDomainData]. *)
Definition draw_calls (canvas : Canvas) (dataArray : list Byte.byte)
  : list CanvasCall :=
  let bufferLength := length dataArray in
  let sliceWidth :=
    (inject_Z (width canvas) / inject_Z (Z.of_nat bufferLength))%Q in
  [ clearRect 0 0 (inject_Z (width canvas)) (inject_Z (height canvas));
    set_lineWidth 2;
    set_strokeStyle (lit "rgb(102, 217, 232)");
    set_shadowBlur 10;
    set_shadowColor (lit "rgb(102, 217, 232)");
    beginPath ]
  ++ draw_loop canvas sliceWidth 0 0 dataArray
  ++ [ lineTo (inject_Z (width canvas)) (inject_Z (height canvas) / 2)%Q;
       stroke ].

(** [analyser.getByteTimeDomainData(dataArray)]: the current samples
    overwrite the array, which keeps its length. *)
Definition getByteTimeDomainData (samples dataArray : list Byte.byte)
  : list Byte.byte :=
  firstn (length dataArray) samples ++ skipn (length samples) dataArray.

(** An [AnalyserNode]: which one, and its [frequencyBinCount]. *)
Record AnalyserNode := {
  node : nat;
  frequencyBinCount : nat
}.

Global Instance AnalyserNode_eq_dec : EqDecision AnalyserNode.
Proof. solve_decision. Defined.

(** The props the live effect depends on: [[isRecording, analyser]]. *)
Record Props := {
  isRecording : bool;
  analyser : option AnalyserNode
}.

Global Instance Props_eq_dec : EqDecision Props.
Proof. solve_decision. Defined.

(** What a [draw] closure captured when its effect ran. *)
Record Draw := {
  draw_canvas : nat;                  (* the canvas element *)
  draw_dataArray : list Byte.byte     (* [new Uint8Array(bufferLength)] *)
}.

(** The refs of the component, React's record of the live effect, the
    canvas elements created so far, and the browser's list of animation
    frame callbacks. *)
Record State := {
  deps : option Props;                (* of the effect's last run *)
  cleanup : bool;                     (* did that run return its cleanup? *)
  canvasRef : option nat;
  animationRef : option N;
  canvases : list Canvas;
  callbacks : list (N * Draw);        (* by handle, oldest first *)
  next_handle : N
}.

Definition initial : State :=
  {| deps := None; cleanup := false; canvasRef := None; animationRef := None;
     canvases := []; callbacks := []; next_handle := 1 |}.

(** [draw]: schedule the next frame, read the samples, redraw. *)
Definition draw (samples : list Byte.byte) (d : Draw) (st : State)
  : State * list CanvasCall :=
  let handle := next_handle st in
  let dataArray := getByteTimeDomainData samples (draw_dataArray d) in
  let d' := {| draw_canvas := draw_canvas d; draw_dataArray := dataArray |} in
  ({| deps := deps st; cleanup := cleanup st; canvasRef := canvasRef st;
      animationRef := Some handle;
      canvases := canvases st;
      callbacks := callbacks st ++ [(handle, d')];
      next_handle := N.succ handle |},
   match canvases st !! draw_canvas d with
   | Some canvas => draw_calls canvas dataArray
   | None => []
   end).

(** [cancelAnimationFrame(handle)] *)
Definition cancelAnimationFrame (handle : N) (st : State) : State :=
  {| deps := deps st; cleanup := cleanup st; canvasRef := canvasRef st;
     animationRef := animationRef st; canvases := canvases st;
     callbacks := List.filter (fun c => negb (fst c =? handle)%N) (callbacks st);
     next_handle := next_handle st |}.

(** The cleanup function of the live effect. *)
Definition live_cleanup (st : State) : State :=
  match animationRef st with
  | Some handle => if (handle =? 0)%N then st else cancelAnimationFrame handle st
  | None => st
  end.

(** The body of the live effect, run for props [p].  A canvas that has
    just been created answers [getContext('2d')] with a context, so the
    second early return is not taken. *)
Definition live_effect (p : Props) (samples : list Byte.byte) (st : State)
  : State * list CanvasCall :=
  let early (st : State) :=
    ({| deps := Some p; cleanup := false; canvasRef := canvasRef st;
        animationRef := animationRef st; canvases := canvases st;
        callbacks := callbacks st; next_handle := next_handle st |}, []) in
  match isRecording p, analyser p, canvasRef st with
  | true, Some analyser, Some canvas =>
      let bufferLength := frequencyBinCount analyser in
      let dataArray := repeat Byte.x00 bufferLength in
      draw samples {| draw_canvas := canvas; draw_dataArray := dataArray |}
        {| deps := Some p; cleanup := true; canvasRef := canvasRef st;
           animationRef := animationRef st; canvases := canvases st;
           callbacks := callbacks st; next_handle := next_handle st |}
  | _, _, _ => early st
  end.

(** The [<canvas>] is rendered only while [isRecording]: a new element
    (300 by 150) when it appears, none when it goes. *)
Definition commit_canvas (p : Props) (st : State) : State :=
  if isRecording p then
    match canvasRef st with
    | Some _ => st
    | None =>
        {| deps := deps st; cleanup := cleanup st;
           canvasRef := Some (length (canvases st));
           animationRef := animationRef st;
           canvases := canvases st ++ [{| width := 300; height := 150 |}];
           callbacks := callbacks st; next_handle := next_handle st |}
    end
  else
    {| deps := deps st; cleanup := cleanup st; canvasRef := None;
       animationRef := animationRef st; canvases := canvases st;
       callbacks := callbacks st; next_handle := next_handle st |}.

(** [handleResize] *)
Definition handleResize (offsetWidth offsetHeight : Z) (st : State) : State :=
  match canvasRef st with
  | Some c =>
      {| deps := deps st; cleanup := cleanup st; canvasRef := canvasRef st;
         animationRef := animationRef st;
         canvases :=
           <[c := {| width := offsetWidth; height := offsetHeight |}]>
             (canvases st);
         callbacks := callbacks st; next_handle := next_handle st |}
  | None => st
  end.

(** One render with props [p]: React commits the canvas, and when a
    dependency changed (or on mount) runs the previous cleanup, if the
    effect returned one, and then the effect. *)
Definition render (p : Props) (samples : list Byte.byte) (st : State)
  : State * list CanvasCall :=
  let st1 := commit_canvas p st in
  if bool_decide (deps st1 = Some p) then (st1, [])
  else live_effect p samples (if cleanup st1 then live_cleanup st1 else st1).

(** One display frame: the browser takes the callbacks scheduled so far
    and runs them; what they schedule is for the next frame. *)
Definition frame (samples : list Byte.byte) (st : State)
  : State * list CanvasCall :=
  List.fold_left
    (fun acc c =>
       let '(st', calls) := draw samples (snd c) (fst acc) in
       (st', snd acc ++ calls))
    (callbacks st)
    ({| deps := deps st; cleanup := cleanup st; canvasRef := canvasRef st;
        animationRef := animationRef st; canvases := canvases st;
        callbacks := []; next_handle := next_handle st |}, []).

Inductive Event :=
  | Render (p : Props) (samples : list Byte.byte)
  | Frame (samples : list Byte.byte)
  | Resize (offsetWidth offsetHeight : Z).

Definition step (ev : Event) (st : State) : State * list CanvasCall :=
  match ev with
  | Render p samples => render p samples st
  | Frame samples => frame samples st
  | Resize w h => (handleResize w h st, [])
  end.

(** A run: the final state and every canvas call made on the way. *)
Fixpoint run (evs : list Event) (st : State) : State * list CanvasCall :=
  match evs with
  | [] => (st, [])
  | ev :: evs' =>
      let '(st1, calls1) := step ev st in
      let '(st2, calls2) := run evs' st1 in
      (st2, calls1 ++ calls2)
  end.

End WaveformVisualizer.

(** ** src/App.tsx: the capture session *)

Module App.

Import WaveformVisualizer.

(** The [useState] cells of [App]. *)
Record Hooks := {
  isRecording : bool;
  audioBlob : option Blob;
  audioUrl : option jsstring;
  showRecorder : bool;
  showSaveModal : bool;
  recordingTime : Q;
  isPlaying : bool
}.

(** The [useRef] cells of [App] that the session uses. *)
Record Refs := {
  mediaRecorderRef : option nat;         (* a [MediaRecorder], by position *)
  audioChunksRef : list Blob;
  analyserRef : option AnalyserNode;
  timerRef : option N                    (* a [setInterval] handle *)
}.

(** A [MediaRecorder]: [stopping] is "inactive" with the task that fires
    [dataavailable] and [stop] still queued, [stopped] is "inactive"
    after it. *)
Inductive RecorderState :=
  | recording
  | stopping
  | stopped.

Record MediaRecorder := {
  stream : nat;                          (* its [MediaStream], by position *)
  state : RecorderState
}.

(** The browser objects the session creates. *)
Record Browser := {
  awaiting : nat;                        (* [getUserMedia] promises not yet settled *)
  streams : list bool;                   (* per stream: are its tracks live? *)
  recorders : list MediaRecorder;
  analysers : nat;                       (* [AnalyserNode]s created *)
  intervals : list (N * Z);              (* running timers: handle, [startTime] *)
  next_timer : N;
  objectUrls : list (jsstring * Blob);   (* every [createObjectURL], oldest first *)
  revoked : list jsstring;
  alerts : list jsstring
}.

Record State := {
  hooks : Hooks;
  refs : Refs;
  effect_audioUrl : option jsstring;     (* [audioUrl] when the first effect last ran *)
  browser : Browser
}.

Definition initial : State :=
  {| hooks := {| isRecording := false; audioBlob := None; audioUrl := None;
                 showRecorder := false; showSaveModal := false;
                 recordingTime := 0; isPlaying := false |};
     refs := {| mediaRecorderRef := None; audioChunksRef := [];
                analyserRef := None; timerRef := None |};
     effect_audioUrl := None;
     browser := {| awaiting := 0; streams := []; recorders := [];
                   analysers := 0; intervals := []; next_timer := 1;
                   objectUrls := []; revoked := []; alerts := [] |} |}.

Definition with_hooks (h : Hooks) (st : State) : State :=
  {| hooks := h; refs := refs st; effect_audioUrl := effect_audioUrl st;
     browser := browser st |}.

Definition with_browser (b : Browser) (st : State) : State :=
  {| hooks := hooks st; refs := refs st; effect_audioUrl := effect_audioUrl st;
     browser := b |}.

Definition with_awaiting (n : nat) (b : Browser) : Browser :=
  {| awaiting := n; streams := streams b; recorders := recorders b;
     analysers := analysers b; intervals := intervals b;
     next_timer := next_timer b; objectUrls := objectUrls b;
     revoked := revoked b; alerts := alerts b |}.

(** [clearInterval(handle)] *)
Definition clearInterval (handle : N) (b : Browser) : Browser :=
  {| awaiting := awaiting b; streams := streams b; recorders := recorders b;
     analysers := analysers b;
     intervals := List.filter (fun t => negb (fst t =? handle)%N) (intervals b);
     next_timer := next_timer b; objectUrls := objectUrls b;
     revoked := revoked b; alerts := alerts b |}.

(** [if (timerRef.current) clearInterval(timerRef.current)] *)
Definition clear_timer (r : Refs) (b : Browser) : Browser :=
  match timerRef r with
  | Some handle => if (handle =? 0)%N then b else clearInterval handle b
  | None => b
  end.

(** [recorder.stop()]: nothing on a recorder that is not recording. *)
Definition MediaRecorder_stop (r : nat) (b : Browser) : Browser :=
  {| awaiting := awaiting b; streams := streams b;
     recorders :=
       alter (fun m => match state m with
                       | recording => {| stream := stream m; state := stopping |}
                       | stopping | stopped => m
                       end) r (recorders b);
     analysers := analysers b; intervals := intervals b;
     next_timer := next_timer b; objectUrls := objectUrls b;
     revoked := revoked b; alerts := alerts b |}.

(** [startRecording], up to its [await]: the request for the microphone. *)
Definition startRecording_request (st : State) : State :=
  with_browser (with_awaiting (S (awaiting (browser st))) (browser st)) st.

(** [startRecording], from its [await] on: [Some now] when the stream was
    granted ([now] is what [Date.now()] then answers), [None] when the
    promise was rejected and the [catch] block runs. *)
Definition startRecording_resume (granted : option Z) (st : State) : State :=
  let b := with_awaiting (pred (awaiting (browser st))) (browser st) in
  match granted with
  | Some startTime =>
      let stream := length (streams b) in
      let mediaRecorder := length (recorders b) in
      let analyser := {| node := analysers b; frequencyBinCount := 1024 |} in
      let handle := next_timer b in
      {| hooks := {| isRecording := true; audioBlob := None; audioUrl := None;
                     showRecorder := showRecorder (hooks st);
                     showSaveModal := showSaveModal (hooks st);
                     recordingTime := recordingTime (hooks st);
                     isPlaying := isPlaying (hooks st) |};
         refs := {| mediaRecorderRef := Some mediaRecorder;
                    audioChunksRef := [];
                    analyserRef := Some analyser;
                    timerRef := Some handle |};
         effect_audioUrl := effect_audioUrl st;
         browser := {| awaiting := awaiting b;
                       streams := streams b ++ [true];
                       recorders := recorders b
                                    ++ [{| stream := stream; state := recording |}];
                       analysers := S (analysers b);
                       intervals := intervals b ++ [(handle, startTime)];
                       next_timer := N.succ handle;
                       objectUrls := objectUrls b; revoked := revoked b;
                       alerts := alerts b |} |}
  | None =>
      with_browser
        {| awaiting := awaiting b; streams := streams b;
           recorders := recorders b; analysers := analysers b;
           intervals := intervals b; next_timer := next_timer b;
           objectUrls := objectUrls b; revoked := revoked b;
           alerts := alerts b ++
             [lit "Unable to access microphone. Please ensure you have granted permission."] |}
        st
  end.

Definition stopRecording (st : State) : State :=
  match mediaRecorderRef (refs st), isRecording (hooks st) with
  | Some r, true =>
      {| hooks := {| isRecording := false; audioBlob := audioBlob (hooks st);
                     audioUrl := audioUrl (hooks st);
                     showRecorder := showRecorder (hooks st);
                     showSaveModal := showSaveModal (hooks st);
                     recordingTime := recordingTime (hooks st);
                     isPlaying := isPlaying (hooks st) |};
         refs := refs st;
         effect_audioUrl := effect_audioUrl st;
         browser := clear_timer (refs st) (MediaRecorder_stop r (browser st)) |}
  | _, _ => st
  end.

(** [mediaRecorder.ondataavailable] *)
Definition ondataavailable (data : Blob) (st : State) : State :=
  if (0 <? Blob_size data)%nat then
    {| hooks := hooks st;
       refs := {| mediaRecorderRef := mediaRecorderRef (refs st);
                  audioChunksRef := audioChunksRef (refs st) ++ [data];
                  analyserRef := analyserRef (refs st);
                  timerRef := timerRef (refs st) |};
       effect_audioUrl := effect_audioUrl st; browser := browser st |}
  else st.

(** [URL.createObjectURL(blob)]: a URL no earlier call returned. *)
Definition createObjectURL (b : Browser) : jsstring :=
  lit "blob:" ++ of_int (Z.of_nat (length (objectUrls b))).

(** [mediaRecorder.onstop], of the recorder that was made for [stream]. *)
Definition onstop (stream : nat) (st : State) : State :=
  let b := browser st in
  let audioBlob := new_Blob (audioChunksRef (refs st)) (lit "audio/wav") in
  let audioUrl := createObjectURL b in
  {| hooks := {| isRecording := isRecording (hooks st);
                 audioBlob := Some audioBlob; audioUrl := Some audioUrl;
                 showRecorder := showRecorder (hooks st);
                 showSaveModal := true;
                 recordingTime := recordingTime (hooks st);
                 isPlaying := isPlaying (hooks st) |};
     refs := refs st;
     effect_audioUrl := effect_audioUrl st;
     browser := {| awaiting := awaiting b;
                   streams := <[stream := false]> (streams b);
                   recorders := recorders b; analysers := analysers b;
                   intervals := intervals b; next_timer := next_timer b;
                   objectUrls := objectUrls b ++ [(audioUrl, audioBlob)];
                   revoked := revoked b; alerts := alerts b |} |}.

(** The callback given to [setInterval], which captured [startTime]. *)
Definition tick (startTime now : Z) (st : State) : State :=
  with_hooks
    {| isRecording := isRecording (hooks st); audioBlob := audioBlob (hooks st);
       audioUrl := audioUrl (hooks st); showRecorder := showRecorder (hooks st);
       showSaveModal := showSaveModal (hooks st);
       recordingTime := (inject_Z (now - startTime) / 1000)%Q;
       isPlaying := isPlaying (hooks st) |} st.

(** [onClose] of the save modal. *)
Definition onClose (st : State) : State :=
  with_hooks
    {| isRecording := isRecording (hooks st); audioBlob := audioBlob (hooks st);
       audioUrl := audioUrl (hooks st); showRecorder := showRecorder (hooks st);
       showSaveModal := false; recordingTime := recordingTime (hooks st);
       isPlaying := isPlaying (hooks st) |} st.

(** [onSaved] of the save modal. *)
Definition onSaved (st : State) : State :=
  with_hooks
    {| isRecording := isRecording (hooks st); audioBlob := None;
       audioUrl := None; showRecorder := false; showSaveModal := false;
       recordingTime := 0; isPlaying := isPlaying (hooks st) |} st.

Definition setShowRecorder (v : bool) (st : State) : State :=
  with_hooks
    {| isRecording := isRecording (hooks st); audioBlob := audioBlob (hooks st);
       audioUrl := audioUrl (hooks st); showRecorder := v;
       showSaveModal := showSaveModal (hooks st);
       recordingTime := recordingTime (hooks st);
       isPlaying := isPlaying (hooks st) |} st.

(** [URL.revokeObjectURL(url)] *)
Definition revokeObjectURL (url : jsstring) (b : Browser) : Browser :=
  {| awaiting := awaiting b; streams := streams b; recorders := recorders b;
     analysers := analysers b; intervals := intervals b;
     next_timer := next_timer b; objectUrls := objectUrls b;
     revoked := revoked b ++ [url]; alerts := alerts b |}.

(** The cleanup function that the first effect returned when it ran with
    [audioUrl]: it clears the timer that [timerRef] points to when the
    cleanup is called, and revokes that [audioUrl]. *)
Definition effect_cleanup (audioUrl : option jsstring) (r : Refs) (b : Browser)
  : Browser :=
  let b1 := clear_timer r b in
  match audioUrl with
  | Some url => if truthy url then revokeObjectURL url b1 else b1
  | None => b1
  end.

(** The first effect, [useEffect(..., [audioUrl])]: the state updates of
    one handler are rendered together, and when [audioUrl] has changed
    since the effect last ran, React calls the cleanup of that run and
    runs the effect again. *)
Definition commit (st : State) : State :=
  if bool_decide (effect_audioUrl st = audioUrl (hooks st)) then st
  else
    {| hooks := hooks st; refs := refs st;
       effect_audioUrl := audioUrl (hooks st);
       browser := effect_cleanup (effect_audioUrl st) (refs st) (browser st) |}.

(** [onClick] of the round button:
    [isRecording ? stopRecording : startRecording]. *)
Definition record_onClick (st : State) : State :=
  if isRecording (hooks st) then stopRecording st
  else startRecording_request st.

(** What can happen to the recorder screen.  An event that the browser
    cannot deliver in a state (a click on a button that is not rendered,
    a settled promise nobody awaits, a task of a recorder that is not
    stopping, a timer that is not running) leaves the state alone. *)
Inductive Event :=
  | click_record
  | getUserMedia_settled (granted : option Z)
  | recorder_dataavailable (r : nat) (data : Blob)
  | recorder_stop_task (r : nat) (data : Blob)
  | interval_fired (handle : N) (now : Z)
  | modal_onClose
  | modal_onSaved
  | show_recorder (v : bool).

Definition handle (ev : Event) (st : State) : State :=
  match ev with
  | click_record =>
      if showRecorder (hooks st) then record_onClick st else st
  | getUserMedia_settled granted =>
      match awaiting (browser st) with
      | O => st
      | S _ => startRecording_resume granted st
      end
  | recorder_dataavailable r data =>
      match recorders (browser st) !! r with
      | Some {| stream := _; state := recording |} => ondataavailable data st
      | _ => st
      end
  | recorder_stop_task r data =>
      match recorders (browser st) !! r with
      | Some {| stream := s; state := stopping |} =>
          let st1 := ondataavailable data st in
          let st2 := onstop s st1 in
          with_browser
            (let b := browser st2 in
             {| awaiting := awaiting b; streams := streams b;
                recorders := <[r := {| stream := s; state := stopped |}]>
                               (recorders b);
                analysers := analysers b; intervals := intervals b;
                next_timer := next_timer b; objectUrls := objectUrls b;
                revoked := revoked b; alerts := alerts b |})
            st2
      | _ => st
      end
  | interval_fired handle now =>
      match List.find (fun t => (fst t =? handle)%N) (intervals (browser st)) with
      | Some (_, startTime) => tick startTime now st
      | None => st
      end
  | modal_onClose =>
      match showSaveModal (hooks st), audioBlob (hooks st) with
      | true, Some _ => onClose st
      | _, _ => st
      end
  | modal_onSaved =>
      match showSaveModal (hooks st), audioBlob (hooks st) with
      | true, Some _ => onSaved st
      | _, _ => st
      end
  | show_recorder v => setShowRecorder v st
  end.

(** One turn of the event loop: the handler, then React's commit. *)
Definition step (ev : Event) (st : State) : State :=
  commit (handle ev st).

Definition run (evs : list Event) (st : State) : State :=
  List.fold_left (fun s ev => step ev s) evs st.

End App.

(** ** src/components/LoginForm copy.tsx *)

Module LoginForm.

Import Supabase AuthContext RegExp.

(** The [useState] cells of the form. *)
Record State := {
  isLogin : bool;
  username : jsstring;
  email : jsstring;
  password : jsstring;
  error : option jsstring;
  isLoading : bool
}.

Definition initial : State :=
  {| isLogin := true; username := []; email := []; password := [];
     error := None; isLoading := false |}.

Definition setError (e : option jsstring) (st : State) : State :=
  {| isLogin := isLogin st; username := username st; email := email st;
     password := password st; error := e; isLoading := isLoading st |}.

Definition setIsLoading (v : bool) (st : State) : State :=
  {| isLogin := isLogin st; username := username st; email := email st;
     password := password st; error := error st; isLoading := v |}.

(** [/^[^\s@]+@[^\s@]+\.[^\s@]+$/] *)
Definition emailRegex : RegExp :=
  Seq (Plus (Chars not_space_or_at))
    (Seq (chr 64)
       (Seq (Plus (Chars not_space_or_at))
          (Seq (chr 46) (Plus (Chars not_space_or_at))))).

Definition validateForm (st : State) : bool * State :=
  if negb (truthy (trim (email st))) then
    (false, setError (Some (lit "Email is required")) st)
  else if negb (test emailRegex (trim (email st))) then
    (false, setError (Some (lit "Please enter a valid email address")) st)
  else if negb (truthy (password st)) then
    (false, setError (Some (lit "Password is required")) st)
  else if (List.length (password st) <? 6)%nat then
    (false,
     setError (Some (lit "Password must be at least 6 characters long")) st)
  else if negb (isLogin st) && negb (truthy (trim (username st))) then
    (false, setError (Some (lit "Username is required")) st)
  else (true, st).

(** What one [handleSubmit] leaves behind when it has returned: the
    form, what was asked of the identity provider, and whether
    [onSuccess] was called. *)
Record Submitted := {
  form : State;
  calls : list AuthCall;
  onSuccess_called : bool
}.

(** [handleSubmit]: [login] and [register] only throw [Error]s, so the
    [catch] block shows [err.message]. *)
Definition handleSubmit (dbConnected : bool) (answer : AuthAnswer) (st : State)
  : Submitted :=
  let st0 := setError None st in
  if negb dbConnected then
    {| form :=
         setError
           (Some (lit "Unable to connect to the database. Please try again later."))
           st0;
       calls := []; onSuccess_called := false |}
  else
    let '(valid, st1) := validateForm st0 in
    if negb valid then {| form := st1; calls := []; onSuccess_called := false |}
    else
      let st2 := setIsLoading true st1 in
      let '(out, asked) :=
        if isLogin st then login answer (email st) (password st)
        else register answer (username st) (email st) (password st) in
      match out with
      | Resolved =>
          {| form := setIsLoading false st2; calls := asked;
             onSuccess_called := true |}
      | Rejected msg =>
          {| form := setIsLoading false (setError (Some msg) st2);
             calls := asked; onSuccess_called := false |}
      end.

Definition toggleMode (st : State) : State :=
  {| isLogin := negb (isLogin st); username := []; email := [];
     password := []; error := None; isLoading := isLoading st |}.

End LoginForm.

(** * Properties *)

(** ** What the statements below are about *)

(** Newest first, by creation instant. *)
Definition newest_first (l : list AuthContext.Recording) : Prop :=
  Sorted (fun a b => (AuthContext.date b <= AuthContext.date a)%Z) l.

(** Newest first, by what [new Date(date).getTime()] answers. *)
Definition newest_first_ms (l : list AuthContext.Recording) : Prop :=
  Sorted (fun a b => (Dashboard.getTime (AuthContext.date b)
                      <= Dashboard.getTime (AuthContext.date a))%Z) l.

(** A title that is empty or has white space only. *)
Definition blank (s : jsstring) : Prop :=
  Forall (fun c => is_white_space c = true) s.

(** The storage key and the row that [saveRecording] sends for owner [u]. *)
Definition saved_key (env : AuthContext.SaveEnv) (u : AuthContext.User)
  : jsstring :=
  AuthContext.user_id u ++ lit "/" ++ of_int (AuthContext.save_now env)
  ++ lit ".wav".

Definition saved_row (env : AuthContext.SaveEnv) (u : AuthContext.User)
    (title : jsstring) (duration : Q) : Supabase.RecordingRow :=
  {| Supabase.row_id := AuthContext.save_new_id env;
     Supabase.row_user_id := AuthContext.user_id u;
     Supabase.row_title := title;
     Supabase.row_audio_url := Supabase.getPublicUrl (saved_key env u);
     Supabase.row_duration := duration;
     Supabase.row_created_at := AuthContext.save_created_at env |}.

(** The rows that [select_recordings] answers with for [uid]. *)
Definition owned_by (sb : Supabase.Backend) (uid : jsstring)
    (r : Supabase.RecordingRow) : bool :=
  Supabase.visible_recording sb r
  && bool_decide (Supabase.row_user_id r = uid).

(** How one [loadUserData] can end: in its [catch] block, after creating
    the profile, or after reading the profile and the owner's rows. *)
Inductive load_result (authUser : AuthContext.AuthUser)
    (st : AuthContext.State) (sb : Supabase.Backend)
    (st' : AuthContext.State) : Prop :=
  | load_failed :
      AuthContext.user st' = AuthContext.Null ->
      AuthContext.recordings st' = [] ->
      load_result authUser st sb st'
  | load_created u :
      AuthContext.user st' = AuthContext.Loaded u ->
      existsb (fun x => bool_decide (Supabase.u_id x = AuthContext.au_id authUser))
        (Supabase.tbl_users sb) = false ->
      AuthContext.recordings st' = AuthContext.recordings st ->
      load_result authUser st sb st'
  | load_read u :
      AuthContext.user st' = AuthContext.Loaded u ->
      AuthContext.recordings st' =
        List.map AuthContext.to_recording
          (Supabase.order_desc
             (List.filter (owned_by sb (AuthContext.au_id authUser))
                (Supabase.tbl_recordings sb))) ->
      load_result authUser st sb st'.

(** The list's clicks come from rendered items, whose ids are the
    non-empty primary keys of the rows. *)
Definition has_id (ev : Dashboard.Event) : Prop :=
  match ev with
  | Dashboard.click_play rec => truthy (AuthContext.id rec) = true
  | Dashboard.playback_ends _ | Dashboard.ended_task _ => True
  end.

(** [audioElements] refers to existing elements, one per id. *)
Record well_formed (st : Dashboard.State) : Prop := {
  elements_bound :
    forall i el,
      Dashboard.audioElements st !! i = Some el ->
      (el < length (Dashboard.elements st))%nat;
  elements_inj :
    forall i j el,
      Dashboard.audioElements st !! i = Some el ->
      Dashboard.audioElements st !! j = Some el -> i = j
}.

(** What holds of the dashboard between any two events: the item that
    is marked has an id and an audio element. *)
Record consistent (st : Dashboard.State) : Prop := {
  consistent_wf : well_formed st;
  current_element :
    forall i,
      Dashboard.currentlyPlaying st = Some i ->
      truthy i = true /\ exists el, Dashboard.audioElements st !! i = Some el
}.

(** Element [el] is the only one that can be heard. *)
Definition only_sounding (st : Dashboard.State) (el : nat) : Prop :=
  forall el' e,
    Dashboard.elements st !! el' = Some e -> Dashboard.sounding e = true ->
    el' = el.

(** The live effect's loop: either its last run returned no cleanup and
    no callback is scheduled, or exactly one is, under the handle that
    [animationRef] holds. *)
Definition live_inv (st : WaveformVisualizer.State) : Prop :=
  (1 <= WaveformVisualizer.next_handle st)%N /\
  (forall p,
      WaveformVisualizer.deps st = Some p ->
      WaveformVisualizer.isRecording p = false ->
      WaveformVisualizer.cleanup st = false) /\
  if WaveformVisualizer.cleanup st then
    exists h d,
      WaveformVisualizer.callbacks st = [(h, d)] /\
      WaveformVisualizer.animationRef st = Some h /\
      (1 <= h)%N
  else WaveformVisualizer.callbacks st = [].

(** Nothing is scheduled and no cleanup is owed. *)
Definition live_idle (st : WaveformVisualizer.State) : Prop :=
  WaveformVisualizer.cleanup st = false /\
  WaveformVisualizer.callbacks st = [].

(** An event that does not start a recording. *)
Definition quiet (ev : WaveformVisualizer.Event) : Prop :=
  match ev with
  | WaveformVisualizer.Render p _ => WaveformVisualizer.isRecording p = false
  | WaveformVisualizer.Frame _ | WaveformVisualizer.Resize _ _ => True
  end.

(** The recorder screen at rest: shown, not recording, no microphone
    request pending, no timer running, every recorder made so far
    stopped, and React's effects up to date. *)
Record capture_idle (st : App.State) : Prop := {
  idle_shown : App.showRecorder (App.hooks st) = true;
  idle_not_recording : App.isRecording (App.hooks st) = false;
  idle_awaiting : App.awaiting (App.browser st) = 0%nat;
  idle_intervals : App.intervals (App.browser st) = [];
  idle_next_timer : (1 <= App.next_timer (App.browser st))%N;
  idle_recorders :
    Forall (fun m => App.state m = App.stopped) (App.recorders (App.browser st));
  idle_time : (0 <= App.recordingTime (App.hooks st))%Q;
  idle_effect : App.effect_audioUrl st = App.audioUrl (App.hooks st)
}.

(** What can happen between the start of a session at [startTime] and
    its stop: timers fire, on a clock that does not run backwards,
    recorders hand over data, and the buttons of a save dialog are tried.
    Not among them: a click on the round button, a granted or refused
    microphone request, leaving the recorder screen. *)
Definition during (startTime : Z) (ev : App.Event) : Prop :=
  match ev with
  | App.interval_fired _ now => (startTime <= now)%Z
  | App.recorder_dataavailable _ _ => True
  | App.modal_onClose | App.modal_onSaved => True
  | _ => False
  end.

(** The chunks that recorder [r] hands over in [evs] and that
    [ondataavailable] keeps, in order. *)
Fixpoint buffered (r : nat) (evs : list App.Event) : list Blob :=
  match evs with
  | [] => []
  | App.recorder_dataavailable r' data :: evs'
  | App.recorder_stop_task r' data :: evs' =>
      (if bool_decide (r' = r) && (0 <? Blob_size data)%nat then [data] else [])
      ++ buffered r evs'
  | _ :: evs' => buffered r evs'
  end.

(** The session that was started from state [st0] at [startTime], while
    it records with [chunks] buffered. *)
Record recording_inv (st0 : App.State) (startTime : Z) (chunks : list Blob)
    (st : App.State) : Prop := {
  ri_recording : App.isRecording (App.hooks st) = true;
  ri_shown : App.showRecorder (App.hooks st) = true;
  ri_blob : App.audioBlob (App.hooks st) = None;
  ri_url : App.audioUrl (App.hooks st) = None;
  ri_effect : App.effect_audioUrl st = None;
  ri_time : (0 <= App.recordingTime (App.hooks st))%Q;
  ri_ref :
    App.mediaRecorderRef (App.refs st)
    = Some (length (App.recorders (App.browser st0)));
  ri_chunks : App.audioChunksRef (App.refs st) = chunks;
  ri_awaiting : App.awaiting (App.browser st) = 0%nat;
  ri_recorders :
    App.recorders (App.browser st)
    = App.recorders (App.browser st0)
      ++ [{| App.stream := length (App.streams (App.browser st0));
             App.state := App.recording |}];
  ri_streams :
    App.streams (App.browser st) = App.streams (App.browser st0) ++ [true];
  ri_timer :
    App.intervals (App.browser st) = [] \/
    exists h,
      App.intervals (App.browser st) = [(h, startTime)] /\
      App.timerRef (App.refs st) = Some h /\ (1 <= h)%N;
  ri_next_timer : (1 <= App.next_timer (App.browser st))%N;
  ri_urls :
    App.objectUrls (App.browser st) = App.objectUrls (App.browser st0)
}.

(** Every metadata row refers to an object that is in the bucket. *)
Definition backed (sb : Supabase.Backend) : Prop :=
  forall r,
    In r (Supabase.tbl_recordings sb) ->
    exists key blob,
      Supabase.row_audio_url r = Supabase.getPublicUrl key /\
      In (key, blob) (Supabase.bucket sb).


(** The ids of the items whose Play button was clicked. *)
Definition clicked (evs : list Dashboard.Event) (i : jsstring) : Prop :=
  exists rec, In (Dashboard.click_play rec) evs /\ AuthContext.id rec = i.


(** The code unit of a decimal digit. *)
Definition digit (d : Z) : N := (48 + Z.to_N d)%N.


(** A path call that stays within the canvas. *)
Definition inside_canvas (canvas : WaveformVisualizer.Canvas)
    (call : WaveformVisualizer.CanvasCall) : Prop :=
  match call with
  | WaveformVisualizer.moveTo x y | WaveformVisualizer.lineTo x y =>
      (0 <= x /\ x <= inject_Z (WaveformVisualizer.width canvas))%Q /\
      (0 <= y /\ y <= inject_Z (WaveformVisualizer.height canvas))%Q
  | _ => True
  end.

(** The canvas of the live loop: [canvasRef] refers to an existing
    canvas, and while the effect's cleanup is owed the scheduled [draw]
    is the one of the effect's last run, which captured that canvas. *)
Definition live_canvas (st : WaveformVisualizer.State) : Prop :=
  (forall c, WaveformVisualizer.canvasRef st = Some c ->
             is_Some (WaveformVisualizer.canvases st !! c)) /\
  (WaveformVisualizer.cleanup st = true ->
   exists p h d,
     WaveformVisualizer.deps st = Some p /\
     WaveformVisualizer.isRecording p = true /\
     WaveformVisualizer.callbacks st = [(h, d)] /\
     WaveformVisualizer.canvasRef st = Some (WaveformVisualizer.draw_canvas d)).


(** A recorder whose stop task has not run yet. *)
Definition unfinished (m : App.MediaRecorder) : bool :=
  match App.state m with
  | App.stopped => false
  | App.recording | App.stopping => true
  end.

(** Recorder [i] was made for stream [i], whose tracks are live exactly
    while the recorder is unfinished. *)
Definition microphone_inv (st : App.State) : Prop :=
  length (App.streams (App.browser st))
  = length (App.recorders (App.browser st)) /\
  forall i m,
    App.recorders (App.browser st) !! i = Some m ->
    App.stream m = i /\
    App.streams (App.browser st) !! i = Some (unfinished m).

(** The object URL that the [audioUrl] cell holds, if any. *)
Definition held_url (st : App.State) : list jsstring :=
  match App.audioUrl (App.hooks st) with
  | Some url => [url]
  | None => []
  end.

(** The first effect has run for the [audioUrl] that is held; the object
    URLs are numbered in the order of creation; and every one made so far
    has been revoked, in that order, except the one that is held. *)
Definition object_urls_inv (st : App.State) : Prop :=
  App.effect_audioUrl st = App.audioUrl (App.hooks st) /\
  (forall i url blob,
      App.objectUrls (App.browser st) !! i = Some (url, blob) ->
      url = lit "blob:" ++ of_int (Z.of_nat i)) /\
  List.map fst (App.objectUrls (App.browser st))
  = App.revoked (App.browser st) ++ held_url st.


(** The strings of a pattern. *)
Inductive matches : RegExp.RegExp -> jsstring -> Prop :=
  | matches_eps : matches RegExp.Eps []
  | matches_chars p c : p c = true -> matches (RegExp.Chars p) [c]
  | matches_alt_l r1 r2 s : matches r1 s -> matches (RegExp.Alt r1 r2) s
  | matches_alt_r r1 r2 s : matches r2 s -> matches (RegExp.Alt r1 r2) s
  | matches_seq r1 r2 s1 s2 :
      matches r1 s1 -> matches r2 s2 -> matches (RegExp.Seq r1 r2) (s1 ++ s2)
  | matches_star_nil r : matches (RegExp.Star r) []
  | matches_star_cons r s1 s2 :
      matches r s1 -> matches (RegExp.Star r) s2 ->
      matches (RegExp.Star r) (s1 ++ s2).

(** A part of an address: not empty, no white space, no at sign. *)
Definition address_part (s : jsstring) : Prop :=
  s <> [] /\ Forall (fun c => is_white_space c = false /\ c <> at_sign) s.

(** Something, an at sign, something, a dot, something. *)
Definition address (s : jsstring) : Prop :=
  exists a b c,
    s = a ++ [64%N] ++ b ++ [46%N] ++ c /\
    address_part a /\ address_part b /\ address_part c.

(** What a filled-in form must have to pass [validateForm]. *)
Definition well_filled (st : LoginForm.State) : Prop :=
  address (trim (LoginForm.email st)) /\
  (6 <= length (LoginForm.password st))%nat /\
  (LoginForm.isLogin st = false -> trim (LoginForm.username st) <> []).

(** The key with which [getErrorMessage] indexes its table, and the errors
    for which that key is no member of [Object.prototype]. *)
Definition error_key (e : Supabase.SbError) : jsstring :=
  or_else (Supabase.code e)
    (or_else (Supabase.message e)
       (or_else (Supabase.error_description e)
          (or_else (Supabase.error e) (lit "An error occurred")))).

Definition plain_key (e : Supabase.SbError) : Prop :=
  ~ In (error_key e) Supabase.Object_prototype_members.


(** Concrete values for the examples. *)
Module Sample.

Import Supabase AuthContext.

Definition uid : jsstring := lit "6f1c2a9e-0b7d-4c55-9a3e-2d8f4b1c7e10".

Definition alice : UserRow :=
  {| u_id := uid; u_username := lit "alice"; u_email := lit "alice@example.org" |}.

Definition wav (n : nat) : Blob :=
  {| Blob_bytes := repeat Byte.x52 n; Blob_type := lit "audio/wav" |}.

(** A signed-in owner with nothing stored yet. *)
Definition sb_empty : Backend :=
  {| auth_uid := Some uid; tbl_users := [alice]; tbl_recordings := [];
     bucket := []; requests := [] |}.

Definition st_empty : AuthContext.State :=
  {| user := Loaded (to_user alice); recordings := []; isLoading := false;
     dbConnected := true |}.

Definition save_env (now : Z) (new_id : string) : SaveEnv :=
  {| save_now := now; save_upload_fault := None; save_insert_fault := None;
     save_reload_fault := None; save_new_id := lit new_id;
     save_created_at := (now * 1000)%Z |}.

Definition memo_id : string := "0a4f1c1e-77aa-4e0b-8d1b-5a2f6f3e9c01".

(** The owner after saving one recording of 2.5 s titled "Memo". *)
Definition saved_memo : Outcome * AuthContext.State * Backend :=
  saveRecording (save_env 1741240425000 memo_id) (lit "Memo") (wav 4) (5 # 2)
    st_empty sb_empty.

Definition st_memo : AuthContext.State := snd (fst saved_memo).
Definition sb_memo : Backend := snd saved_memo.

Definition idea_id : string := "c2d6b7a4-1f0e-4b7c-9e57-3b1a8d2f6e02".

(** The owner after then saving a newer recording titled "Idea". *)
Definition saved_idea : Outcome * AuthContext.State * Backend :=
  saveRecording (save_env 1741240500000 idea_id) (lit "Idea") (wav 6) (7 # 4)
    st_memo sb_memo.

Definition st_two : AuthContext.State := snd (fst saved_idea).
Definition sb_two : Backend := snd saved_idea.

(** The two list items of that owner. *)
Definition memo : Recording :=
  to_recording
    (saved_row (save_env 1741240425000 memo_id) (to_user alice) (lit "Memo")
       (5 # 2)).

Definition idea : Recording :=
  to_recording
    (saved_row (save_env 1741240500000 idea_id) (to_user alice) (lit "Idea")
       (7 # 4)).

Definition storage_down : SbError :=
  {| code := []; message := lit "Service unavailable";
     error_description := []; error := [] |}.

Definition delete_env (storage : option SbError) : DeleteEnv :=
  {| delete_fetch_fault := None; delete_storage_fault := storage;
     delete_db_fault := None |}.

Definition load_env : LoadEnv :=
  {| load_profile_fault := None; load_insert_fault := None;
     load_recordings_fault := None; load_signOut_fault := None |}.

Definition alice_auth : AuthUser :=
  {| au_id := uid; au_email := lit "alice@example.org";
     au_metadata_username := lit "alice" |}.

(** A live waveform: the analyser of a recording, four of its samples
    (silence is 128), and the props while and after recording. *)
Definition analyser1 : WaveformVisualizer.AnalyserNode :=
  {| WaveformVisualizer.node := 0; WaveformVisualizer.frequencyBinCount := 4 |}.

Definition samples : list Byte.byte :=
  [Byte.x80; Byte.xff; Byte.x00; Byte.x40].

Definition while_recording : WaveformVisualizer.Props :=
  {| WaveformVisualizer.isRecording := true;
     WaveformVisualizer.analyser := Some analyser1 |}.

Definition after_recording : WaveformVisualizer.Props :=
  {| WaveformVisualizer.isRecording := false;
     WaveformVisualizer.analyser := Some analyser1 |}.

Definition canvas1 : WaveformVisualizer.Canvas :=
  {| WaveformVisualizer.width := 300; WaveformVisualizer.height := 150 |}.

End Sample.

(** ** Strings *)

Section Strings.

Lemma trimStart_blank (s : jsstring) : blank s -> trimStart s = [].
Proof.
  induction 1 as [|c s Hc _ IH]; simpl; [reflexivity|].
  now rewrite Hc.
Qed.

Lemma trim_blank (s : jsstring) : blank s -> trim s = [].
Proof.
  intros H. unfold trim, trimEnd. now rewrite (trimStart_blank s H).
Qed.

Lemma trimStart_not_blank (s : jsstring) : trimStart s = [] -> blank s.
Proof.
  induction s as [|c s IH]; simpl; [constructor|].
  destruct (is_white_space c) eqn:Hc; [|discriminate].
  intros H. constructor; [exact Hc | exact (IH H)].
Qed.

End Strings.

(** ** Sorting *)

Section SortByKey.

Context {A : Type} (key : A -> Z).

Local Abbreviation cmp := (fun a b : A => (key b - key a)%Z).
Local Abbreviation ge := (fun a b : A => (key b <= key a)%Z).

Lemma sort_insert_In (x z : A) (l : list A) :
  In z (sort_insert cmp x l) <-> z = x \/ In z l.
Proof.
  induction l as [|y l IH]; simpl.
  - intuition.
  - destruct (key y - key x <=? 0)%Z; simpl; [intuition|].
    rewrite IH. intuition.
Qed.

Lemma sort_In (z : A) (l : list A) : In z (sort cmp l) <-> In z l.
Proof.
  induction l as [|y l IH]; simpl; [reflexivity|].
  rewrite sort_insert_In, IH. intuition.
Qed.

Lemma sort_insert_HdRel (x y : A) (l : list A) :
  (key x <= key y)%Z -> HdRel ge y l -> HdRel ge y (sort_insert cmp x l).
Proof.
  intros Hyx Hhd. destruct l as [|z l]; simpl; [now constructor|].
  destruct (key z - key x <=? 0)%Z; constructor; [assumption|].
  now inversion Hhd.
Qed.

Lemma sort_insert_Sorted (x : A) (l : list A) :
  Sorted ge l -> Sorted ge (sort_insert cmp x l).
Proof.
  induction 1 as [|y l Hs IH Hhd]; simpl.
  - repeat constructor.
  - destruct (Z.leb_spec (key y - key x) 0) as [Hle|Hgt].
    + constructor; [now constructor|]. constructor. lia.
    + constructor; [exact IH|].
      apply sort_insert_HdRel; [lia|exact Hhd].
Qed.

Lemma sort_Sorted (l : list A) : Sorted ge (sort cmp l).
Proof.
  induction l as [|x l IH]; simpl; [constructor|].
  now apply sort_insert_Sorted.
Qed.

(** Sorting a list that is already in order returns it. *)
Lemma sort_sorted_id (l : list A) : Sorted ge l -> sort cmp l = l.
Proof.
  induction 1 as [|x l Hs IH Hhd]; simpl; [reflexivity|].
  rewrite IH. destruct Hhd as [|y l' Hxy]; simpl; [reflexivity|].
  destruct (Z.leb_spec (key y - key x) 0) as [_|Hgt]; [reflexivity|lia].
Qed.

End SortByKey.

Lemma Sorted_map {A B : Type} (f : A -> B) (R : B -> B -> Prop) (l : list A) :
  Sorted (fun a b => R (f a) (f b)) l -> Sorted R (List.map f l).
Proof.
  induction 1 as [|x l Hs IH Hhd]; simpl; constructor; [exact IH|].
  destruct Hhd; simpl; constructor; assumption.
Qed.

Lemma Sorted_weaken {A : Type} (R R' : A -> A -> Prop) (l : list A) :
  (forall a b, R a b -> R' a b) -> Sorted R l -> Sorted R' l.
Proof.
  intros HR. induction 1 as [|x l Hs IH Hhd]; constructor; [exact IH|].
  destruct Hhd; constructor; auto.
Qed.

(** ** Persistence gateway: save, reload, delete *)

Section Gateway.

Import Supabase AuthContext.

(** What a resolved [saveRecording] has done. *)
Lemma saveRecording_resolved env title audioBlob duration st sb st' sb' :
  saveRecording env title audioBlob duration st sb = (Resolved, st', sb') ->
  exists u,
    user st = Loaded u /\ user st' = Loaded u /\
    visible_recording sb (saved_row env u title duration) = true /\
    existsb (fun x => bool_decide (u_id x = user_id u)) (tbl_users sb) = true /\
    auth_uid sb' = auth_uid sb /\
    tbl_users sb' = tbl_users sb /\
    tbl_recordings sb' =
      tbl_recordings sb ++ [saved_row env u title duration] /\
    bucket sb' = bucket sb ++ [(saved_key env u, audioBlob)] /\
    recordings st' =
      List.map to_recording
        (order_desc (List.filter (owned_by sb (user_id u)) (tbl_recordings sb'))).
Proof.
  unfold saveRecording, upload, insert_recording, select_recordings, answer.
  destruct (user st) as [| |u] eqn:Hu; try discriminate.
  destruct (save_upload_fault env); [discriminate|].
  destruct (visible_object sb _); simpl; [|discriminate].
  destruct (existsb _ (bucket sb)); simpl; [discriminate|].
  destruct (save_insert_fault env); [discriminate|].
  fold (saved_key env u). fold (saved_row env u title duration).
  destruct (visible_recording _ _) eqn:Hvis; simpl; [|discriminate].
  destruct (existsb _ (tbl_users sb)) eqn:Hfk; simpl; [|discriminate].
  destruct (existsb _ (tbl_recordings sb)); simpl; [discriminate|].
  destruct (save_reload_fault env); [discriminate|].
  simpl. intros H. injection H as <- <-. exists u. simpl.
  repeat split; try reflexivity; assumption.
Qed.

(** The row of a resolved save is among the rows a reload selects. *)
Lemma saved_row_selected env u title duration (sb sb' : Backend) :
  visible_recording sb (saved_row env u title duration) = true ->
  In (saved_row env u title duration) (tbl_recordings sb') ->
  In (to_recording (saved_row env u title duration))
    (List.map to_recording
       (order_desc (List.filter (owned_by sb (user_id u)) (tbl_recordings sb')))).
Proof.
  intros Hvis Hin. apply in_map. unfold order_desc.
  apply (sort_In row_created_at). apply filter_In. split; [exact Hin|].
  unfold owned_by. rewrite Hvis. simpl. now apply bool_decide_eq_true.
Qed.

Lemma owned_by_auth (sb sb' : Backend) (uid : jsstring) :
  auth_uid sb' = auth_uid sb -> owned_by sb' uid = owned_by sb uid.
Proof.
  intros H. unfold owned_by, visible_recording, is_uid. now rewrite H.
Qed.

Lemma loadUserData_create_result lenv authUser st sb st' sb' :
  loadUserData_create lenv authUser st sb = (st', sb') ->
  (user st' = Null /\ recordings st' = []) \/
  (exists u, user st' = Loaded u /\
     existsb (fun x => bool_decide (u_id x = au_id authUser)) (tbl_users sb)
       = false /\
     recordings st' = recordings st).
Proof.
  unfold loadUserData_create, loadUserData_catch, insert_user, answer.
  destruct (load_insert_fault lenv); simpl.
  { intros [= <- _]. now left. }
  destruct (visible_user sb _); simpl.
  2: { intros [= <- _]. now left. }
  destruct (existsb _ (tbl_users sb)) eqn:Hex; simpl.
  { intros [= <- _]. now left. }
  intros [= <- _]. right. eexists. split; [reflexivity|]. split; [|reflexivity].
  apply not_true_is_false. intros Hid. apply existsb_exists in Hid.
  destruct Hid as [x [Hx Hid]].
  assert (existsb (fun u => bool_decide (u_id u = au_id authUser)
                         || bool_decide (u_email u = au_email authUser))
            (tbl_users sb) = true) as Hc; [|congruence].
  apply existsb_exists. exists x. split; [exact Hx|]. now rewrite Hid.
Qed.

Lemma select_user_data fault uid sb row sb1 :
  select_user fault uid sb = (Data row, sb1) ->
  u_id row = uid /\ sb1 = sent (SelectUser uid) sb.
Proof.
  unfold select_user, answer. destruct fault; [discriminate|]. simpl.
  destruct (List.filter _ _) as [|x [|y l]] eqn:Hf; simpl; try discriminate.
  intros [= <- <-]. split; [|reflexivity].
  assert (In x [x]) as Hx by now left. rewrite <- Hf in Hx.
  apply filter_In in Hx. destruct Hx as [_ Hx].
  apply andb_true_iff in Hx. destruct Hx as [_ Hx].
  now apply bool_decide_eq_true in Hx.
Qed.

Lemma select_user_tables fault uid sb r sb1 :
  select_user fault uid sb = (r, sb1) ->
  tbl_users sb1 = tbl_users sb /\ tbl_recordings sb1 = tbl_recordings sb.
Proof.
  unfold select_user, answer. destruct fault; now intros [= _ <-].
Qed.

Lemma loadUserData_result lenv authUser st sb st' sb' :
  loadUserData lenv authUser st sb = (st', sb') ->
  load_result authUser st sb st'.
Proof.
  unfold loadUserData. intros H.
  destruct (select_user _ _ sb) as [r sb1] eqn:Hsel.
  destruct r as [userData|userError].
  - destruct (select_user_data _ _ _ _ _ Hsel) as [Hid ->].
    revert H. unfold select_recordings, answer, loadUserData_catch.
    destruct (load_recordings_fault lenv); simpl.
    { intros [= <- _]. now apply load_failed. }
    intros [= <- _]. eapply load_read; [reflexivity|]. simpl. now rewrite Hid.
  - destruct (select_user_tables _ _ _ _ _ Hsel) as [Husers _].
    destruct (bool_decide _).
    + destruct (loadUserData_create_result _ _ _ _ _ _ H)
        as [[Hn He]|(u & Hu & Hex & Hr)].
      * now apply load_failed.
      * apply (load_created _ _ _ _ u); [assumption| |assumption].
        now rewrite <- Husers.
    + revert H. unfold loadUserData_catch. intros [= <- _]. now apply load_failed.
Qed.

(** C4. Round trip: after a save that resolved, the owner's list holds an
    entry with the title and the duration that were passed and with the
    public URL of the object that was uploaded; the uploaded bytes are in
    the bucket under that key; and every later reload of the owner's data
    that does not fail ([loadUserData] from any provider state, as on a
    page load) lists that entry again. *)
Theorem saveRecording_round_trip env title audioBlob duration st sb st' sb' :
  saveRecording env title audioBlob duration st sb = (Resolved, st', sb') ->
  exists u rec,
    user st = Loaded u /\
    In rec (recordings st') /\
    AuthContext.title rec = title /\
    AuthContext.duration rec = duration /\
    audioUrl rec = getPublicUrl (saved_key env u) /\
    In (saved_key env u, audioBlob) (bucket sb') /\
    forall lenv authUser st0 st'' sb'',
      au_id authUser = user_id u ->
      loadUserData lenv authUser st0 sb' = (st'', sb'') ->
      user st'' <> Null ->
      In rec (recordings st'').
Proof.
  intros Hsave.
  destruct (saveRecording_resolved _ _ _ _ _ _ _ _ Hsave)
    as (u & Hu & _ & Hvis & Hfk & Hauth & Husers & Hrows & Hbucket & Hlist).
  assert (In (saved_row env u title duration) (tbl_recordings sb')) as Hin.
  { rewrite Hrows. apply in_or_app. right. now left. }
  exists u, (to_recording (saved_row env u title duration)).
  repeat split; try reflexivity; try assumption.
  - rewrite Hlist. now apply saved_row_selected.
  - rewrite Hbucket. apply in_or_app. right. now left.
  - intros lenv authUser st0 st'' sb'' Hid Hload Hn.
    destruct (loadUserData_result _ _ _ _ _ _ Hload)
      as [Hnull _|u' _ Hnone _|u' _ Hread].
    + contradiction.
    + rewrite Hid, Husers in Hnone. congruence.
    + rewrite Hread, Hid, (owned_by_auth sb sb' _ Hauth).
      now apply saved_row_selected.
Qed.

Lemma saveRecording_round_trip_witness :
  exists rec,
    In rec (recordings Sample.st_memo) /\
    AuthContext.title rec = lit "Memo" /\
    (AuthContext.duration rec == 2.5)%Q.
Proof.
  destruct (saveRecording_round_trip
              (Sample.save_env 1741240425000 Sample.memo_id) (lit "Memo")
              (Sample.wav 4) (5 # 2) Sample.st_empty Sample.sb_empty
              Sample.st_memo Sample.sb_memo)
    as (u & rec & _ & Hin & Ht & Hd & _).
  - vm_compute. reflexivity.
  - exists rec. rewrite Hd. repeat split; try assumption. 
Defined.

(** C8. The list handed to the caller is newest first: after every save
    that resolved, after the load of the owner's data on start-up (and
    after any later load, when the list was newest first before), and in
    what the dashboard shows ([sortedRecordings], by the milliseconds of
    [Date]). *)
Theorem recordings_newest_first :
  (forall env title audioBlob duration st sb st' sb',
      saveRecording env title audioBlob duration st sb = (Resolved, st', sb') ->
      newest_first (recordings st')) /\
  (forall lenv authUser sb,
      newest_first
        (recordings (fst (loadUserData lenv authUser AuthContext.initial sb)))) /\
  (forall lenv authUser st sb,
      newest_first (recordings st) ->
      newest_first (recordings (fst (loadUserData lenv authUser st sb)))) /\
  (forall toLowerCase searchTerm (l : list Recording),
      newest_first_ms (Dashboard.sortedRecordings toLowerCase searchTerm l)).
Proof.
  assert (forall rows, newest_first (List.map to_recording (order_desc rows)))
    as Hrows.
  { intros rows. unfold newest_first. apply Sorted_map. simpl.
    apply (sort_Sorted row_created_at). }
  assert (forall lenv authUser st sb,
             newest_first (recordings st) ->
             newest_first (recordings (fst (loadUserData lenv authUser st sb))))
    as Hload.
  { intros lenv authUser st sb Hst.
    destruct (loadUserData lenv authUser st sb) as [st' sb'] eqn:Hload. simpl.
    destruct (loadUserData_result _ _ _ _ _ _ Hload)
      as [_ ->|u _ _ ->|u _ ->]; [constructor|exact Hst|apply Hrows]. }
  repeat split.
  - intros env title audioBlob duration st sb st' sb' Hsave.
    destruct (saveRecording_resolved _ _ _ _ _ _ _ _ Hsave)
      as (u & _ & _ & _ & _ & _ & _ & _ & _ & ->).
    apply Hrows.
  - intros lenv authUser sb. apply Hload. constructor.
  - exact Hload.
  - intros toLowerCase searchTerm l.
    unfold newest_first_ms, Dashboard.sortedRecordings.
    apply (sort_Sorted (fun r => Dashboard.getTime (date r))).
Qed.

Lemma recordings_newest_first_witness :
  List.map AuthContext.title (recordings Sample.st_two)
    = [lit "Idea"; lit "Memo"] /\
  newest_first (recordings Sample.st_two).
Proof.
  split; [vm_compute; reflexivity|].
  apply (proj1 recordings_newest_first
           (Sample.save_env 1741240500000 Sample.idea_id) (lit "Idea")
           (Sample.wav 6) (7 # 4) Sample.st_memo Sample.sb_memo
           Sample.st_two Sample.sb_two).
  vm_compute. reflexivity.
Defined.

(** C1, as the code has it.  For a signed-in owner, [deleteRecording]
    removes the recording from the visible list when it resolves, that is
    when the lookup of the row, the removal of the storage object and the
    deletion of the row all succeeded.  When the removal of the storage
    object fails, [deleteRecording] stops there: it rejects with the
    message of that failure, the provider state (the visible list
    included) is unchanged, and the service has only seen the lookup and
    the removal, so the metadata row is still there. *)
Theorem deleteRecording_removes_unless_aborted env id0 st sb u :
  user st = Loaded u ->
  (fst (fst (deleteRecording env id0 st sb)) = Resolved ->
   recordings (snd (fst (deleteRecording env id0 st sb)))
     = List.filter (fun rec => negb (bool_decide (id rec = id0))) (recordings st)
   /\ forall rec,
        In rec (recordings (snd (fst (deleteRecording env id0 st sb)))) ->
        id rec <> id0) /\
  (forall url e,
      fst (select_audio_url (delete_fetch_fault env) id0 sb) = Data url ->
      truthy (pop (split slash url)) = true ->
      delete_storage_fault env = Some e ->
      deleteRecording env id0 st sb
      = (Rejected (getErrorMessage e), st,
         sent (Remove [user_id u ++ lit "/" ++ pop (split slash url)])
           (sent (SelectAudioUrl id0) sb))).
Proof.
  intros Hu. unfold deleteRecording. rewrite Hu. split.
  - destruct (select_audio_url _ id0 sb) as [[url|e] sb1]; [|discriminate].
    destruct (if truthy _ then _ else _) as [[[]|e] sb2]; [|discriminate].
    destruct (delete_recording _ id0 sb2) as [[[]|e] sb3]; [|discriminate].
    simpl. intros _. split; [reflexivity|].
    intros rec Hin. apply filter_In in Hin. destruct Hin as [_ Hne].
    apply negb_true_iff, bool_decide_eq_false in Hne. exact Hne.
  - intros url e Hfetch Hname Hfault.
    destruct (select_audio_url _ id0 sb) as [r sb1] eqn:Hsel.
    simpl in Hfetch. subst r.
    assert (sb1 = sent (SelectAudioUrl id0) sb) as ->.
    { revert Hsel. unfold select_audio_url, answer.
      destruct (delete_fetch_fault env); [discriminate|]. now intros [= _ <-]. }
    rewrite Hname, Hfault. reflexivity.
Qed.

Lemma deleteRecording_removes_unless_aborted_witness :
  recordings
    (snd (fst (deleteRecording (Sample.delete_env None) (lit Sample.memo_id)
                 Sample.st_two Sample.sb_two)))
  = List.filter (fun rec => negb (bool_decide (id rec = lit Sample.memo_id)))
      (recordings Sample.st_two)
  /\ List.map AuthContext.title
       (recordings
          (snd (fst (deleteRecording (Sample.delete_env None)
                       (lit Sample.memo_id) Sample.st_two Sample.sb_two))))
     = [lit "Idea"]
  /\ fst (deleteRecording (Sample.delete_env (Some Sample.storage_down))
            (lit Sample.memo_id) Sample.st_two Sample.sb_two)
     = (Rejected (lit "Service unavailable"), Sample.st_two).
Proof.
  destruct (deleteRecording_removes_unless_aborted
              (Sample.delete_env None) (lit Sample.memo_id)
              Sample.st_two Sample.sb_two (to_user Sample.alice))
    as [Hok _]; [reflexivity|].
  destruct (deleteRecording_removes_unless_aborted
              (Sample.delete_env (Some Sample.storage_down)) (lit Sample.memo_id)
              Sample.st_two Sample.sb_two (to_user Sample.alice))
    as [_ Hfail]; [reflexivity|].
  split; [apply Hok; vm_compute; reflexivity|].
  split; [vm_compute; reflexivity|].
  rewrite (Hfail (getPublicUrl
                    (saved_key (Sample.save_env 1741240425000 Sample.memo_id)
                       (to_user Sample.alice)))
             Sample.storage_down);
    [reflexivity | vm_compute; reflexivity | vm_compute; reflexivity
     | reflexivity].
Defined.

(** C1, as the claim has it, fails: the owner has the recording "Memo"
    in the list, the service answers the lookup, the removal of the
    storage object fails, and after [deleteRecording] the recording is
    still in the visible list and its row is still in the table. *)
Lemma deleteRecording_storage_failure_counterexample :
  exists rec,
    In rec (recordings Sample.st_memo) /\
    id rec = lit Sample.memo_id /\
    let '(out, st', sb') :=
      deleteRecording (Sample.delete_env (Some Sample.storage_down))
        (lit Sample.memo_id) Sample.st_memo Sample.sb_memo in
    out = Rejected (lit "Service unavailable") /\
    In rec (recordings st') /\
    List.map row_id (tbl_recordings sb') = [lit Sample.memo_id] /\
    List.length (bucket sb') = 1%nat.
Proof.
  exists (to_recording
            (saved_row (Sample.save_env 1741240425000 Sample.memo_id)
               (to_user Sample.alice) (lit "Memo") (5 # 2))).
  vm_compute. intuition.
Qed.

End Gateway.

(** ** The save dialog *)

Section SaveDialog.

Import Supabase AuthContext SaveRecordingModal.

(** C3. A title that is empty or all white space is refused by
    [handleSave] with its validation message before anything is sent:
    the service (its tables, its bucket and its log of requests) and the
    provider state are exactly what they were, [onSaved] is not called,
    and the dialog's [isSaving] flag is unchanged. *)
Theorem handleSave_blank_title_rejected
    (env : SaveEnv) (audioBlob : Blob) (duration : Q)
    (m : SaveRecordingModal.State) (st : AuthContext.State) (sb : Backend) :
  blank (SaveRecordingModal.title m) ->
  let r := handleSave env audioBlob duration m st sb in
  SaveRecordingModal.error (modal r)
    = Some (lit "Please enter a title for your recording") /\
  isSaving (modal r) = isSaving m /\
  onSaved_called r = false /\
  auth r = st /\
  backend r = sb /\
  requests (backend r) = requests sb.
Proof.
  intros Hblank. unfold handleSave. rewrite (trim_blank _ Hblank). simpl.
  repeat split.
Qed.

Lemma handleSave_blank_title_rejected_witness :
  let m := {| SaveRecordingModal.title := [32; 9; 160; 10; 12288]%N;
              isSaving := false; SaveRecordingModal.error := None |} in
  let r := handleSave (Sample.save_env 1741240425000 Sample.memo_id)
             (Sample.wav 4) (5 # 2) m Sample.st_empty Sample.sb_empty in
  SaveRecordingModal.error (modal r)
    = Some (lit "Please enter a title for your recording") /\
  backend r = Sample.sb_empty /\ auth r = Sample.st_empty.
Proof.
  intros m r.
  destruct (handleSave_blank_title_rejected
              (Sample.save_env 1741240425000 Sample.memo_id)
              (Sample.wav 4) (5 # 2) m Sample.st_empty Sample.sb_empty)
    as (He & _ & _ & Ha & Hb & _).
  - unfold m, blank. simpl. repeat constructor.
  - repeat split; assumption.
Defined.

Lemma trimStart_head (s t : jsstring) (c : N) :
  trimStart s = c :: t -> is_white_space c = false.
Proof.
  induction s as [|d s IH]; simpl; [discriminate|].
  destruct (is_white_space d) eqn:Hd; [exact IH|].
  now intros [= <- _].
Qed.

Lemma trim_nil_blank (s : jsstring) : trim s = [] -> blank s.
Proof.
  unfold trim, trimEnd. intros Ht. apply trimStart_not_blank.
  destruct (trimStart s) as [|c t] eqn:Hs; [reflexivity|].
  apply (f_equal (@rev N)) in Ht. rewrite rev_involutive in Ht.
  apply trimStart_not_blank in Ht. unfold blank in Ht.
  rewrite Stdlib.Lists.List.Forall_forall in Ht.
  pose proof (trimStart_head _ _ _ Hs) as Hc.
  rewrite (Ht c) in Hc; [discriminate|].
  simpl. apply in_or_app. right. now left.
Qed.

(** A title with anything else in it passes the check: the dialog goes
    on to [saveRecording]. *)
Lemma handleSave_titled_saves env audioBlob duration m st sb :
  ~ blank (SaveRecordingModal.title m) ->
  let r := handleSave env audioBlob duration m st sb in
  (auth r, backend r)
  = (snd (fst (saveRecording env (SaveRecordingModal.title m) audioBlob
                 duration st sb)),
     snd (saveRecording env (SaveRecordingModal.title m) audioBlob duration
            st sb)).
Proof.
  intros Hnb. unfold handleSave.
  destruct (trim (SaveRecordingModal.title m)) as [|c s] eqn:Ht.
  - contradiction Hnb. now apply trim_nil_blank.
  - simpl. destruct (saveRecording _ _ _ _ _ _) as [[[|msg] st'] sb']; reflexivity.
Qed.

End SaveDialog.


(** ** The dashboard's list *)

Section DashboardList.

Import AuthContext Dashboard.

Lemma newest_first_filter (f : Recording -> bool) (l : list Recording) :
  newest_first l -> newest_first (List.filter f l).
Proof.
  unfold newest_first. intros Hs.
  apply Sorted_StronglySorted in Hs; [|intros a b c; simpl; lia].
  apply StronglySorted_Sorted.
  induction Hs as [|x l Hs IH Hx]; simpl; [constructor|].
  destruct (f x); [|exact IH]. constructor; [exact IH|].
  rewrite Stdlib.Lists.List.Forall_forall in *. intros y Hy.
  apply filter_In in Hy. now apply Hx.
Qed.

(** On a list that is newest first, as the provider hands it over, the
    dashboard's sort changes nothing: the items are shown in the
    provider's order, filtered. *)
Lemma sortedRecordings_keeps_order toLowerCase searchTerm (l : list Recording) :
  newest_first l ->
  sortedRecordings toLowerCase searchTerm l
  = filteredRecordings toLowerCase searchTerm l.
Proof.
  intros Hs. unfold sortedRecordings.
  apply (sort_sorted_id (fun r => getTime (date r))).
  apply (Sorted_weaken (fun a b => (date b <= date a)%Z)).
  - intros a b Hab. unfold getTime. apply Z.div_le_mono; lia.
  - now apply newest_first_filter.
Qed.

End DashboardList.

(** ** The dashboard's playback *)

Section Playback.

Import AuthContext Dashboard.

Lemma initial_consistent : consistent Dashboard.initial.
Proof.
  split; [split|]; simpl; intros *.
  - now rewrite lookup_empty.
  - now rewrite lookup_empty.
  - discriminate.
Qed.

Lemma update_element_wf f el (st : Dashboard.State) :
  well_formed st -> well_formed (update_element f el st).
Proof.
  intros [Hb Hi]. split; simpl; [|exact Hi].
  intros i el'. rewrite length_alter. apply Hb.
Qed.

Lemma setCurrentlyPlaying_wf c (st : Dashboard.State) :
  well_formed st -> well_formed (setCurrentlyPlaying c st).
Proof. intros [Hb Hi]. split; simpl; assumption. Qed.

(** Starting [id0]: the second half of [playRecording].  The element is
    the one [audioElements] has for [id0], or a new one; it is played;
    every other element and every other entry is left alone. *)
Lemma start_element (st1 : Dashboard.State) (id0 url : jsstring) :
  well_formed st1 ->
  forall el st2,
    match audioElements st1 !! id0 with
    | Some el => (el, st1)
    | None =>
        (length (elements st1),
         {| searchTerm := searchTerm st1;
            currentlyPlaying := currentlyPlaying st1;
            audioElements := <[id0 := length (elements st1)]> (audioElements st1);
            elements := elements st1 ++ [new_Audio url];
            ended_tasks := ended_tasks st1 |})
    end = (el, st2) ->
    let st' := setCurrentlyPlaying (Some id0) (update_element play el st2) in
    well_formed st' /\
    audioElements st' !! id0 = Some el /\
    (exists e, elements st' !! el = Some (play e)) /\
    (forall i el', audioElements st1 !! i = Some el' ->
                   audioElements st' !! i = Some el') /\
    (forall el', el' <> el -> elements st' !! el' = elements st1 !! el').
Proof.
  intros [Hb Hi] el st2 Hget.
  assert (well_formed st2 /\ audioElements st2 !! id0 = Some el /\
          (forall i el', audioElements st1 !! i = Some el' ->
                         audioElements st2 !! i = Some el') /\
          (forall el', el' <> el -> elements st2 !! el' = elements st1 !! el'))
    as ([Hb2 Hi2] & Hel & Hkeep & Hkeep').
  { destruct (audioElements st1 !! id0) as [el0|] eqn:Hlook.
    - injection Hget as <- <-. repeat split; auto.
    - injection Hget as <- <-. simpl. repeat split; simpl.
      + intros i el'. rewrite length_app. simpl.
        destruct (decide (id0 = i)) as [<-|Hne].
        * rewrite lookup_insert_eq. intros [= <-]. lia.
        * rewrite lookup_insert_ne by exact Hne. intros H. apply Hb in H. lia.
      + intros i j el'.
        destruct (decide (id0 = i)) as [<-|Hne];
          destruct (decide (id0 = j)) as [<-|Hne'];
          rewrite ?lookup_insert_eq, ?lookup_insert_ne by assumption;
          try reflexivity.
        * intros [= <-] H. apply Hb in H. lia.
        * intros H [= <-]. apply Hb in H. lia.
        * apply Hi.
      + apply lookup_insert_eq.
      + intros i el' H. rewrite lookup_insert_ne; [exact H|congruence].
      + intros el' Hne.
        destruct (lt_dec el' (length (elements st1))) as [Hlt|Hge].
        * now rewrite lookup_app_l.
        * rewrite !lookup_ge_None_2; [reflexivity|lia|].
          rewrite length_app. simpl. lia. }
  pose proof (Hb2 _ _ Hel) as Hlt.
  destruct (lookup_lt_is_Some_2 _ _ Hlt) as [e0 He0].
  simpl. repeat split; simpl.
  - intros i el'. rewrite length_alter. apply Hb2.
  - apply Hi2.
  - exact Hel.
  - exists e0. now rewrite list_lookup_alter_eq, He0.
  - exact Hkeep.
  - intros el' Hne. rewrite list_lookup_alter_ne by congruence.
    now apply Hkeep'.
Qed.

(** [playRecording], for an item with an id, keeps the dashboard
    consistent. *)
Lemma playRecording_consistent (st : Dashboard.State) (id0 url : jsstring) :
  consistent st -> truthy id0 = true ->
  consistent (fst (playRecording id0 url st)).
Proof.
  intros [Hwf Hcur] Hid. unfold playRecording.
  assert (forall st1,
             well_formed st1 -> audioElements st1 = audioElements st ->
             forall calls1,
             consistent
               (fst (if bool_decide (currentlyPlaying st = Some id0)
                     then (setCurrentlyPlaying None st1, calls1)
                     else let '(el, st2) :=
                            match audioElements st !! id0 with
                            | Some el => (el, st1)
                            | None =>
                                (length (elements st1),
                                 {| searchTerm := searchTerm st1;
                                    currentlyPlaying := currentlyPlaying st1;
                                    audioElements :=
                                      <[id0 := length (elements st1)]>
                                        (audioElements st1);
                                    elements := elements st1 ++ [new_Audio url];
                                    ended_tasks := ended_tasks st1 |})
                            end in
                          (setCurrentlyPlaying (Some id0)
                             (update_element play el st2),
                           calls1 ++ [play_call el])))) as Hrest.
  { intros st1 Hwf1 Hmap calls1. destruct (bool_decide _).
    - split; [now apply setCurrentlyPlaying_wf|]. simpl. discriminate.
    - rewrite <- Hmap.
      destruct (match audioElements st1 !! id0 with
                | Some el => _ | None => _ end) as [el st2] eqn:Hget.
      destruct (start_element st1 id0 url Hwf1 el st2 Hget)
        as (Hwf' & Hel & _).
      simpl. split; [exact Hwf'|].
      intros i [= <-]. split; [exact Hid|]. exists el. exact Hel. }
  destruct (playing_element st) as [ea|].
  - apply Hrest; [now apply update_element_wf|reflexivity].
  - apply Hrest; [exact Hwf|reflexivity].
Qed.

Lemma step_consistent (ev : Dashboard.Event) (st : Dashboard.State) :
  has_id ev -> consistent st -> consistent (Dashboard.step ev st).
Proof.
  destruct ev as [rec|el|el]; simpl; intros Hid Hc.
  - now apply playRecording_consistent.
  - destruct (elements st !! el) as [e|]; [|exact Hc].
    destruct (sounding e); [|exact Hc].
    destruct Hc as [[Hb Hi] Hcur]. split; [split|]; simpl; try assumption.
    intros i el'. rewrite length_alter. apply Hb.
  - destruct (existsb _ _); [|exact Hc].
    destruct Hc as [[Hb Hi] Hcur]. split; [split|]; simpl; try assumption.
    + intros i el'. rewrite length_alter. apply Hb.
    + discriminate.
Qed.

Lemma run_consistent (evs : list Dashboard.Event) (st : Dashboard.State) :
  Forall has_id evs -> consistent st -> consistent (Dashboard.run evs st).
Proof.
  intros Hids. revert st. induction Hids as [|ev evs Hev _ IH]; intros st Hc.
  - exact Hc.
  - apply IH. now apply step_consistent.
Qed.

(** C6. Whatever was clicked, whichever playback reached its end and
    whichever ['ended'] was delivered before: at most one item is marked
    playing; and when A is marked playing and the Play button of another
    item B is clicked, [playRecording] pauses A's element first and only
    then plays B's, after which A's element is paused, B's sounds, B is
    the one item marked playing, and if A's element was the only one that
    could be heard then B's is the only one now. *)
Theorem playRecording_switches (evs : list Dashboard.Event) (A B : Recording) :
  Forall has_id evs ->
  let st := Dashboard.run evs Dashboard.initial in
  (forall r1 r2,
      marked_playing st r1 = true -> marked_playing st r2 = true ->
      id r1 = id r2) /\
  (currentlyPlaying st = Some (id A) -> id A <> id B -> truthy (id B) = true ->
   exists ea eb,
     audioElements st !! id A = Some ea /\
     snd (playRecording (id B) (audioUrl B) st) = [pause_call ea; play_call eb] /\
     ea <> eb /\
     let st' := fst (playRecording (id B) (audioUrl B) st) in
     audioElements st' !! id A = Some ea /\
     audioElements st' !! id B = Some eb /\
     paused <$> elements st' !! ea = Some true /\
     sounding <$> elements st' !! eb = Some true /\
     currentlyPlaying st' = Some (id B) /\
     marked_playing st' A = false /\
     (forall rec, marked_playing st' rec = true <-> id rec = id B) /\
     (only_sounding st ea -> only_sounding st' eb)).
Proof.
  intros Hids st.
  pose proof (run_consistent evs _ Hids initial_consistent) as Hc.
  fold st in Hc. split.
  - intros r1 r2 H1 H2. unfold marked_playing in *.
    apply bool_decide_eq_true in H1, H2. congruence.
  - intros HA Hne HB.
    destruct (current_element st Hc _ HA) as (HtA & ea & Hea).
    pose proof (update_element_wf pause ea st (consistent_wf st Hc)) as Hwf.
    pose proof (elements_bound st (consistent_wf st Hc) _ _ Hea) as Hlt.
    destruct (lookup_lt_is_Some_2 _ _ Hlt) as [e He].
    unfold playRecording, playing_element. rewrite HA, HtA, Hea.
    rewrite bool_decide_eq_false_2 by congruence.
    destruct (match audioElements st !! id B with
              | Some el => (el, update_element pause ea st)
              | None => _ end) as [eb st2] eqn:Hget.
    destruct (start_element (update_element pause ea st) (id B) (audioUrl B)
                Hwf eb st2 Hget)
      as (Hwf' & HebB & (e' & He') & Hkeep & Hkeep').
    assert (ea <> eb) as Hab.
    { intros <-. apply Hne.
      apply (elements_inj _ Hwf' (id A) (id B) ea);
        [apply Hkeep; exact Hea|exact HebB]. }
    exists ea, eb. cbn [fst snd]. cbv zeta.
    split; [reflexivity|].
    split; [reflexivity|].
    split; [exact Hab|].
    split; [apply Hkeep; exact Hea|].
    split; [exact HebB|].
    split.
    { rewrite (Hkeep' ea Hab). cbn [elements update_element].
      now rewrite list_lookup_alter_eq, He. }
    split; [now rewrite He'|].
    split; [reflexivity|].
    split.
    { unfold marked_playing. simpl. apply bool_decide_eq_false_2. congruence. }
    split.
    { intros rec. unfold marked_playing. simpl. rewrite bool_decide_eq_true.
      split; congruence. }
    intros Honly el' x Hx Hs.
    destruct (decide (el' = eb)) as [->|Hneb]; [reflexivity|exfalso].
    rewrite (Hkeep' el' Hneb) in Hx. cbn [elements update_element] in Hx.
    destruct (decide (ea = el')) as [<-|Hnea].
    + rewrite list_lookup_alter_eq, He in Hx. injection Hx as <-. discriminate.
    + rewrite list_lookup_alter_ne in Hx by exact Hnea.
      apply Hnea. symmetry. exact (Honly _ _ Hx Hs).
Qed.

Lemma playRecording_switches_witness :
  let st := Dashboard.run
              [click_play Sample.idea; click_play Sample.memo;
               playback_ends 1; ended_task 1; click_play Sample.memo]
              Dashboard.initial in
  recordings Sample.st_two = [Sample.idea; Sample.memo] /\
  currentlyPlaying st = Some (id Sample.memo) /\
  exists ea eb,
    snd (playRecording (id Sample.idea) (audioUrl Sample.idea) st)
      = [pause_call ea; play_call eb] /\
    ea <> eb /\
    currentlyPlaying
      (fst (playRecording (id Sample.idea) (audioUrl Sample.idea) st))
      = Some (id Sample.idea).
Proof.
  intros st.
  split; [vm_compute; reflexivity|].
  split; [vm_compute; reflexivity|].
  destruct (playRecording_switches
              [click_play Sample.idea; click_play Sample.memo;
               playback_ends 1; ended_task 1; click_play Sample.memo]
              Sample.memo Sample.idea) as (_ & H).
  - repeat constructor.
  - destruct H as (ea & eb & _ & Hcalls & Hne & _ & _ & _ & _ & Hcur & _).
    + vm_compute. reflexivity.
    + vm_compute. discriminate.
    + reflexivity.
    + exists ea, eb. repeat split; assumption.
Defined.

(** Why the last part of C6's theorem is conditional: an ['ended'] that
    is delivered late clears the mark of an item that was started after
    the playback ended, and the next click then has nothing to pause. *)
Example late_ended_event :
  let st := Dashboard.run
              [click_play Sample.memo; playback_ends 0;
               click_play Sample.idea; ended_task 0;
               click_play Sample.memo]
              Dashboard.initial in
  currentlyPlaying st = Some (id Sample.memo) /\
  List.map sounding (elements st) = [true; true].
Proof. vm_compute. split; reflexivity. Qed.

End Playback.

(** ** The live waveform *)

Section LiveWaveform.

Import WaveformVisualizer.

Lemma commit_canvas_fields (p : Props) (st : WaveformVisualizer.State) :
  deps (commit_canvas p st) = deps st /\
  cleanup (commit_canvas p st) = cleanup st /\
  animationRef (commit_canvas p st) = animationRef st /\
  callbacks (commit_canvas p st) = callbacks st /\
  next_handle (commit_canvas p st) = next_handle st.
Proof.
  unfold commit_canvas.
  destruct (isRecording p); [destruct (canvasRef st)|]; repeat split.
Qed.

Lemma commit_canvas_inv (p : Props) (st : WaveformVisualizer.State) :
  live_inv st -> live_inv (commit_canvas p st).
Proof.
  unfold live_inv.
  destruct (commit_canvas_fields p st) as (-> & -> & -> & -> & ->). auto.
Qed.

(** After the cleanup that React owes, nothing is scheduled. *)
Lemma owed_cleanup_clears (st : WaveformVisualizer.State) :
  live_inv st ->
  callbacks (if cleanup st then live_cleanup st else st) = [].
Proof.
  intros (_ & _ & H). destruct (cleanup st); [|exact H].
  destruct H as (h & d & Hcb & Href & Hh). unfold live_cleanup. rewrite Href.
  destruct (N.eqb_spec h 0) as [->|_]; [lia|].
  simpl. rewrite Hcb. simpl. now rewrite N.eqb_refl.
Qed.

Lemma owed_cleanup_next (st : WaveformVisualizer.State) :
  next_handle (if cleanup st then live_cleanup st else st) = next_handle st.
Proof.
  destruct (cleanup st); [|reflexivity]. unfold live_cleanup.
  destruct (animationRef st) as [h|]; [|reflexivity].
  now destruct (h =? 0)%N.
Qed.

Lemma live_effect_inv (p : Props) samples (st : WaveformVisualizer.State) :
  (1 <= next_handle st)%N -> callbacks st = [] ->
  live_inv (fst (live_effect p samples st)).
Proof.
  intros Hn Hcb. unfold live_effect, live_inv.
  destruct (isRecording p) eqn:Hrec; [destruct (analyser p)|];
    [destruct (canvasRef st)| |]; simpl.
  - split; [lia|]. split; [intros q [= <-]; congruence|].
    eexists _, _. rewrite Hcb. repeat split. exact Hn.
  - repeat split; auto.
  - repeat split; auto.
  - repeat split; auto.
Qed.

Lemma render_inv (p : Props) samples (st : WaveformVisualizer.State) :
  live_inv st -> live_inv (fst (render p samples st)).
Proof.
  intros Hinv. apply (commit_canvas_inv p) in Hinv. unfold render.
  destruct (bool_decide _); [exact Hinv|].
  apply live_effect_inv.
  - rewrite owed_cleanup_next. apply Hinv.
  - now apply owed_cleanup_clears.
Qed.

Lemma frame_inv samples (st : WaveformVisualizer.State) :
  live_inv st -> live_inv (fst (frame samples st)).
Proof.
  intros (Hn & Hdeps & H). unfold frame, live_inv.
  destruct (cleanup st) eqn:Hcl.
  - destruct H as (h & d & -> & Href & Hh). simpl.
    split; [lia|]. split; [exact Hdeps|].
    eexists _, _. repeat split. exact Hn.
  - rewrite H. simpl. repeat split; auto.
Qed.

Lemma step_inv (ev : Event) (st : WaveformVisualizer.State) :
  live_inv st -> live_inv (fst (step ev st)).
Proof.
  destruct ev as [p samples|samples|w h]; simpl.
  - apply render_inv.
  - apply frame_inv.
  - unfold handleResize, live_inv. now destruct (canvasRef st).
Qed.

Lemma run_fst (evs : list Event) (ev : Event) (st : WaveformVisualizer.State) :
  fst (run (ev :: evs) st) = fst (run evs (fst (step ev st))).
Proof.
  simpl. destruct (step ev st) as [st1 c1]. simpl.
  now destruct (run evs st1).
Qed.

Lemma run_inv (evs : list Event) (st : WaveformVisualizer.State) :
  live_inv st -> live_inv (fst (run evs st)).
Proof.
  revert st. induction evs as [|ev evs IH]; intros st Hinv; [exact Hinv|].
  rewrite run_fst. apply IH. now apply step_inv.
Qed.

Lemma initial_inv : live_inv WaveformVisualizer.initial.
Proof.
  unfold live_inv. simpl. split; [lia|]. split; [discriminate|reflexivity].
Qed.

(** A render that is not recording ends the loop, without drawing. *)
Lemma render_not_recording (p : Props) samples (st : WaveformVisualizer.State) :
  live_inv st -> isRecording p = false ->
  live_idle (fst (render p samples st)) /\ snd (render p samples st) = [].
Proof.
  intros Hinv Hrec. apply (commit_canvas_inv p) in Hinv. unfold render, live_idle.
  destruct (bool_decide _) eqn:Hdeps.
  - apply bool_decide_eq_true in Hdeps. destruct Hinv as (_ & Hd & H).
    pose proof (Hd p Hdeps Hrec) as Hc. rewrite Hc in H.
    repeat split; assumption.
  - unfold live_effect. rewrite Hrec. simpl.
    split; [|reflexivity]. split; [reflexivity|].
    now apply owed_cleanup_clears.
Qed.

Lemma quiet_step_idle (ev : Event) (st : WaveformVisualizer.State) :
  quiet ev -> live_idle st ->
  live_idle (fst (step ev st)) /\ snd (step ev st) = [].
Proof.
  intros Hq [Hcl Hcb]. destruct ev as [p samples|samples|w h]; simpl in *.
  - unfold render, live_idle.
    destruct (commit_canvas_fields p st) as (Hd & Hc & _ & Hk & _).
    destruct (bool_decide _); [simpl; rewrite Hc, Hk; auto|].
    rewrite Hc, Hcl. unfold live_effect. rewrite Hq. simpl. rewrite Hk. auto.
  - unfold frame, live_idle. rewrite Hcb. simpl. auto.
  - unfold handleResize, live_idle. destruct (canvasRef st); simpl; auto.
Qed.

Lemma quiet_run_idle (evs : list Event) (st : WaveformVisualizer.State) :
  Forall quiet evs -> live_idle st ->
  live_idle (fst (run evs st)) /\ snd (run evs st) = [].
Proof.
  intros Hq. revert st. induction Hq as [|ev evs Hev _ IH]; intros st Hidle.
  - now split.
  - destruct (quiet_step_idle ev st Hev Hidle) as [Hidle1 Hc1].
    simpl. destruct (step ev st) as [st1 c1]. simpl in *.
    destruct (IH st1 Hidle1) as [Hidle2 Hc2].
    destruct (run evs st1) as [st2 c2]. simpl in *. subst. auto.
Qed.

(** C7. Whatever the component went through, the render in which
    [isRecording] is false (the one a stop causes) leaves no animation
    frame callback scheduled and draws nothing; and from then on, until a
    render starts a recording again, no frame of the display finds a
    callback to run: nothing is scheduled and nothing is drawn. *)
Theorem live_redraw_stops (evs later : list Event) (p : Props)
    (samples : list Byte.byte) :
  isRecording p = false -> Forall quiet later ->
  let st := fst (run evs WaveformVisualizer.initial) in
  let st' := fst (render p samples st) in
  callbacks st' = [] /\
  snd (render p samples st) = [] /\
  callbacks (fst (run later st')) = [] /\
  snd (run later st') = [].
Proof.
  intros Hrec Hq st st'.
  pose proof (run_inv evs _ initial_inv) as Hinv. fold st in Hinv.
  destruct (render_not_recording p samples st Hinv Hrec) as [Hidle Hnone].
  fold st' in Hidle.
  destruct (quiet_run_idle later st' Hq Hidle) as [[_ Hcb] Hcalls].
  destruct Hidle as [_ Hcb0]. auto.
Qed.

Lemma live_redraw_stops_witness :
  let st :=
    fst (run [ Render Sample.after_recording [];
               Render Sample.while_recording Sample.samples;
               Resize 600 192; Frame Sample.samples; Frame Sample.samples ]
           WaveformVisualizer.initial) in
  List.map fst (callbacks st) = [3%N] /\
  callbacks (fst (render Sample.after_recording [] st)) = [] /\
  snd (run [Frame Sample.samples; Resize 640 200; Frame Sample.samples]
         (fst (render Sample.after_recording [] st))) = [].
Proof.
  intros st. split; [vm_compute; reflexivity|].
  destruct (live_redraw_stops
              [ Render Sample.after_recording [];
                Render Sample.while_recording Sample.samples;
                Resize 600 192; Frame Sample.samples; Frame Sample.samples ]
              [Frame Sample.samples; Resize 640 200; Frame Sample.samples]
              Sample.after_recording [])
    as (Hcb & _ & _ & Hcalls).
  - reflexivity.
  - repeat constructor.
  - split; [exact Hcb|exact Hcalls].
Defined.

Lemma sample_range (d : Byte.byte) :
  (0 <= sample d / 128 /\ sample d / 128 <= 2)%Q.
Proof.
  unfold sample. pose proof (Byte.to_N_bounded d) as Hd.
  assert (0 <= Z.of_N (Byte.to_N d) <= 255)%Z as Hz by lia.
  generalize dependent (Z.of_N (Byte.to_N d)). intros z Hz.
  unfold Qle, Qdiv, Qmult, Qinv, inject_Z. simpl. lia.
Qed.

Lemma draw_loop_length canvas sliceWidth i x (dataArray : list Byte.byte) :
  length (draw_loop canvas sliceWidth i x dataArray) = length dataArray.
Proof.
  revert i x. induction dataArray as [|d rest IH]; intros i x; simpl;
    [reflexivity|]. now rewrite IH.
Qed.

(** The loop's [j]-th step, entered at index [i] with [x]: the running
    [x] has grown by [j] slices, and only the step of index 0 moves. *)
Lemma draw_loop_lookup canvas sliceWidth (dataArray : list Byte.byte) :
  forall i x0 j d,
    dataArray !! j = Some d ->
    exists x,
      draw_loop canvas sliceWidth i x0 dataArray !! j
      = Some ((if (i + j =? 0)%nat then moveTo else lineTo) x
                (sample d / 128 * (inject_Z (height canvas) / 2))%Q) /\
      (x == x0 + inject_Z (Z.of_nat j) * sliceWidth)%Q.
Proof.
  induction dataArray as [|d0 rest IH]; intros i x0 j d Hj.
  - now rewrite lookup_nil in Hj.
  - destruct j as [|j].
    + simpl in *. injection Hj as <-. exists x0. rewrite Nat.add_0_r. split.
      * now destruct (i =? 0)%nat.
      * unfold inject_Z. ring.
    + rewrite Nat2Z.inj_succ, <- Z.add_1_r, inject_Z_plus.
      simpl in Hj.
      destruct (IH (S i) (x0 + sliceWidth)%Q j d Hj) as (x & Hx & Hxe).
      exists x. replace (i + S j)%nat with (S i + j)%nat by lia.
      split; [exact Hx|]. rewrite Hxe. ring.
Qed.

(** The body of [draw] after the samples were read, for a canvas and a
    buffer of N samples: after clearing and styling there is one
    [beginPath], then N path calls, then the closing [lineTo] and one
    [stroke]; the call for sample [i] carries x = i * (width / N) and
    y = v * (height / 2) where v = sample / 128 lies in [0, 2]; it is the
    [moveTo] for i = 0 and a [lineTo] for every other i. *)
Lemma draw_calls_polyline (canvas : Canvas)
    (dataArray : list Byte.byte) :
  let N := length dataArray in
  let w := inject_Z (width canvas) in
  let h := inject_Z (height canvas) in
  exists path,
    draw_calls canvas dataArray
    = [ clearRect 0 0 w h; set_lineWidth 2;
        set_strokeStyle (lit "rgb(102, 217, 232)"); set_shadowBlur 10;
        set_shadowColor (lit "rgb(102, 217, 232)"); beginPath ]
      ++ path ++ [ lineTo w (h / 2)%Q; stroke ] /\
    length path = N /\
    forall i d,
      dataArray !! i = Some d ->
      let v := (sample d / 128)%Q in
      (0 <= v /\ v <= 2)%Q /\
      exists x,
        path !! i
        = Some ((if (i =? 0)%nat then moveTo else lineTo) x (v * (h / 2))%Q) /\
        (x == inject_Z (Z.of_nat i) * (w / inject_Z (Z.of_nat N)))%Q.
Proof.
  intros N w h. eexists. split; [reflexivity|].
  split; [apply draw_loop_length|].
  intros i d Hi v. split; [apply sample_range|].
  destruct (draw_loop_lookup canvas (w / inject_Z (Z.of_nat N))%Q dataArray
              0%nat 0%Q i d Hi) as (x & Hx & Hxe).
  exists x. split; [exact Hx|]. rewrite Hxe. ring.
Qed.

End LiveWaveform.

(** ** The capture session *)

Section Capture.

Import App.

(** C10. [stopRecording] with nothing in progress (the recording flag is
    false, or there is no recorder) returns the state it was given: no
    cell, ref, recorder, stream, timer or blob URL changes, so no timer
    is cancelled and no artifact appears; and React's commit after it does
    what it would have done without it. *)
Theorem stopRecording_idle_is_noop (st : App.State) :
  isRecording (hooks st) = false \/ mediaRecorderRef (refs st) = None ->
  stopRecording st = st /\ commit (stopRecording st) = commit st.
Proof.
  intros H. assert (stopRecording st = st) as Hst.
  { unfold stopRecording. destruct H as [-> | ->].
    - now destruct (mediaRecorderRef (refs st)).
    - reflexivity. }
  now rewrite Hst.
Qed.

Lemma stopRecording_idle_is_noop_witness :
  stopRecording (App.run [show_recorder true] App.initial)
  = App.run [show_recorder true] App.initial.
Proof.
  apply (stopRecording_idle_is_noop (App.run [show_recorder true] App.initial)).
  left. reflexivity.
Defined.

Lemma commit_committed (st : App.State) :
  effect_audioUrl st = audioUrl (hooks st) -> commit st = st.
Proof.
  intros H. unfold commit. now rewrite bool_decide_eq_true_2.
Qed.

Lemma clear_timer_fields (rf : Refs) (b : Browser) :
  awaiting (clear_timer rf b) = awaiting b /\
  streams (clear_timer rf b) = streams b /\
  recorders (clear_timer rf b) = recorders b /\
  next_timer (clear_timer rf b) = next_timer b /\
  objectUrls (clear_timer rf b) = objectUrls b.
Proof.
  unfold clear_timer. destruct (timerRef rf) as [h|]; [|repeat split].
  destruct (h =? 0)%N; repeat split.
Qed.

(** The cleanup touches the timers and the revoked URLs, nothing else. *)
Lemma effect_cleanup_fields (url : option jsstring) (rf : Refs) (b : Browser) :
  awaiting (effect_cleanup url rf b) = awaiting b /\
  streams (effect_cleanup url rf b) = streams b /\
  recorders (effect_cleanup url rf b) = recorders b /\
  next_timer (effect_cleanup url rf b) = next_timer b /\
  objectUrls (effect_cleanup url rf b) = objectUrls b /\
  intervals (effect_cleanup url rf b) = intervals (clear_timer rf b).
Proof.
  destruct (clear_timer_fields rf b) as (Ha & Hs & Hr & Hn & Hu).
  unfold effect_cleanup. destruct url as [u|]; [destruct (truthy u)|];
    simpl; repeat split; assumption.
Qed.

(** [clear_timer] stops the one timer that [timerRef] points to. *)
Lemma clear_timer_own (rf : Refs) (b : Browser) (h : N) (t : Z) :
  timerRef rf = Some h -> (1 <= h)%N -> intervals b = [(h, t)] ->
  intervals (clear_timer rf b) = [].
Proof.
  intros Href Hh Hb. unfold clear_timer. rewrite Href.
  destruct (N.eqb_spec h 0) as [->|_]; [lia|].
  simpl. rewrite Hb. simpl. now rewrite N.eqb_refl.
Qed.

(** The start of a session from the screen at rest.  When the previous
    artifact is still around ([audioUrl] was not null), the effect's
    cleanup runs after the start and stops the timer just made. *)
Lemma start_recording_inv (st0 : App.State) (startTime : Z) :
  capture_idle st0 ->
  recording_inv st0 startTime []
    (App.run [click_record; getUserMedia_settled (Some startTime)] st0).
Proof.
  intros [Hshown Hrec Haw Hint Hnext Hrecs Htime Heff].
  unfold App.run. simpl. unfold step at 2. simpl. rewrite Hshown.
  unfold record_onClick. rewrite Hrec.
  rewrite (commit_committed (startRecording_request st0)) by exact Heff.
  unfold step, handle. simpl. rewrite Haw. simpl.
  unfold commit. simpl. rewrite Hint.
  destruct (bool_decide (effect_audioUrl st0 = None)) eqn:Hdep.
  - split; simpl; try reflexivity; try assumption.
    + now apply bool_decide_eq_true in Hdep.
    + right. eexists. simpl. repeat split. exact Hnext.
    + lia.
  - match goal with
    | |- context [effect_cleanup ?u ?rf ?b] =>
        destruct (effect_cleanup_fields u rf b) as (Ha & Hs & Hr & Hn & Hu & Hi);
        pose proof (clear_timer_own rf b (next_timer (browser st0)) startTime
                      eq_refl Hnext eq_refl) as Hown
    end.
    split; cbn [hooks refs browser effect_audioUrl];
      rewrite ?Ha, ?Hs, ?Hr, ?Hn, ?Hu, ?Hi, ?Hown; simpl;
      try reflexivity; try assumption.
    + now left.
    + lia.
Qed.

Lemma tick_nonneg (startTime now : Z) :
  (startTime <= now)%Z -> (0 <= inject_Z (now - startTime) / 1000)%Q.
Proof.
  intros H. unfold Qle, Qdiv, Qmult, Qinv, inject_Z. simpl. lia.
Qed.

(** While recording, a timer's tick only moves the elapsed time and a
    recorder's data only grows the buffer. *)
Lemma during_step_inv (st0 st : App.State) (startTime : Z) (chunks : list Blob)
    (ev : Event) :
  capture_idle st0 -> during startTime ev ->
  recording_inv st0 startTime chunks st ->
  recording_inv st0 startTime
    (chunks ++ buffered (length (recorders (browser st0))) [ev]) (step ev st).
Proof.
  intros Hidle Hev Hinv.
  assert (effect_audioUrl st = audioUrl (hooks st)) as Hcommitted.
  { now rewrite (ri_effect _ _ _ _ Hinv), (ri_url _ _ _ _ Hinv). }
  destruct ev as [ |g|r data|r data|h now| | |v]; simpl in Hev; try contradiction.
  - (* recorder_dataavailable *)
    unfold step, handle. rewrite (ri_recorders _ _ _ _ Hinv).
    simpl buffered. rewrite app_nil_r.
    destruct (lt_eq_lt_dec r (length (recorders (browser st0)))) as [[Hlt|Heq]|Hgt].
    + rewrite lookup_app_l by exact Hlt.
      destruct (lookup_lt_is_Some_2 _ _ Hlt) as [m Hm]. rewrite Hm.
      pose proof (idle_recorders _ Hidle) as Hall.
      rewrite Stdlib.Lists.List.Forall_forall in Hall.
      assert (state m = stopped) as Hs.
      { apply Hall. apply list_elem_of_In. eapply list_elem_of_lookup_2. exact Hm. }
      destruct m as [s0 s1]. simpl in Hs. subst s1.
      rewrite bool_decide_eq_false_2 by lia. simpl. rewrite app_nil_r.
      now rewrite commit_committed.
    + subst r. rewrite list_lookup_middle by reflexivity.
      rewrite bool_decide_eq_true_2 by reflexivity. simpl.
      unfold ondataavailable. destruct (0 <? Blob_size data)%nat.
      * rewrite commit_committed by exact Hcommitted.
        destruct Hinv. split; simpl; try assumption. now f_equal.
      * rewrite app_nil_r. now rewrite commit_committed.
    + rewrite lookup_ge_None_2 by (rewrite length_app; simpl; lia).
      rewrite bool_decide_eq_false_2 by lia. simpl. rewrite app_nil_r.
      now rewrite commit_committed.
  - (* interval_fired *)
    unfold step, handle. simpl buffered. rewrite app_nil_r.
    destruct (List.find _ _) as [[h' s]|] eqn:Hfind.
    + assert (s = startTime) as ->.
      { apply find_some in Hfind. destruct Hfind as [Hin _].
        destruct (ri_timer _ _ _ _ Hinv) as [E|(h0 & E & _)]; rewrite E in Hin.
        - destruct Hin.
        - destruct Hin as [[= _ <-]|[]]. reflexivity. }
      rewrite commit_committed by exact Hcommitted.
      destruct Hinv. split; simpl; try assumption.
      now apply tick_nonneg.
    + now rewrite commit_committed.
  - (* modal_onClose: no dialog is rendered while [audioBlob] is null *)
    unfold step, handle. simpl buffered. rewrite app_nil_r.
    rewrite (ri_blob _ _ _ _ Hinv).
    destruct (showSaveModal (hooks st)); now rewrite commit_committed.
  - (* modal_onSaved *)
    unfold step, handle. simpl buffered. rewrite app_nil_r.
    rewrite (ri_blob _ _ _ _ Hinv).
    destruct (showSaveModal (hooks st)); now rewrite commit_committed.
Qed.

Lemma buffered_app (r : nat) (evs evs' : list Event) :
  buffered r (evs ++ evs') = buffered r evs ++ buffered r evs'.
Proof.
  induction evs as [|ev evs IH]; simpl; [reflexivity|].
  destruct ev; try exact IH; now rewrite IH, app_assoc.
Qed.

Lemma during_run_inv (st0 : App.State) (startTime : Z) (mid : list Event) :
  capture_idle st0 -> Forall (during startTime) mid ->
  forall st chunks,
    recording_inv st0 startTime chunks st ->
    recording_inv st0 startTime
      (chunks ++ buffered (length (recorders (browser st0))) mid)
      (App.run mid st).
Proof.
  intros Hidle Hmid. induction Hmid as [|ev mid Hev _ IH]; intros st chunks Hinv.
  - simpl. now rewrite app_nil_r.
  - change (ev :: mid) with ([ev] ++ mid). rewrite buffered_app, app_assoc.
    apply IH. now apply during_step_inv.
Qed.

(** [clear_timer] on the timers of a recording session leaves none. *)
Lemma clear_timer_session (st0 st : App.State) (startTime : Z) chunks :
  recording_inv st0 startTime chunks st ->
  forall b, intervals b = intervals (browser st) ->
  intervals (clear_timer (refs st) b) = [].
Proof.
  intros Hinv b Hb. unfold clear_timer.
  destruct (ri_timer _ _ _ _ Hinv) as [E|(h & E & Href & Hh)].
  - destruct (timerRef (refs st)) as [h|]; [|congruence].
    destruct (h =? 0)%N; [congruence|]. simpl. now rewrite Hb, E.
  - rewrite Href. destruct (N.eqb_spec h 0) as [->|_]; [lia|].
    simpl. rewrite Hb, E. simpl. now rewrite N.eqb_refl.
Qed.

Lemma stop_click (st0 st : App.State) (startTime : Z) chunks :
  recording_inv st0 startTime chunks st ->
  step click_record st
  = {| hooks := {| isRecording := false; audioBlob := None; audioUrl := None;
                   showRecorder := true;
                   showSaveModal := showSaveModal (hooks st);
                   recordingTime := recordingTime (hooks st);
                   isPlaying := isPlaying (hooks st) |};
       refs := refs st;
       effect_audioUrl := None;
       browser :=
         clear_timer (refs st)
           (MediaRecorder_stop (length (recorders (browser st0))) (browser st)) |}.
Proof.
  intros Hinv. unfold step, handle.
  rewrite (ri_shown _ _ _ _ Hinv). unfold record_onClick.
  rewrite (ri_recording _ _ _ _ Hinv). unfold stopRecording.
  rewrite (ri_ref _ _ _ _ Hinv), (ri_recording _ _ _ _ Hinv).
  rewrite commit_committed.
  - rewrite (ri_blob _ _ _ _ Hinv), (ri_url _ _ _ _ Hinv), (ri_shown _ _ _ _ Hinv),
      (ri_effect _ _ _ _ Hinv). reflexivity.
  - simpl. now rewrite (ri_effect _ _ _ _ Hinv), (ri_url _ _ _ _ Hinv).
Qed.

(** The state in which the session's recorder has been told to stop. *)
Lemma stop_click_browser (st0 st : App.State) (startTime : Z) chunks :
  recording_inv st0 startTime chunks st ->
  let b := browser (step click_record st) in
  awaiting b = 0%nat /\
  streams b = streams (browser st0) ++ [true] /\
  recorders b
  = recorders (browser st0)
    ++ [{| stream := length (streams (browser st0)); state := stopping |}] /\
  intervals b = [] /\
  (1 <= next_timer b)%N /\
  objectUrls b = objectUrls (browser st0).
Proof.
  intros Hinv. rewrite (stop_click _ _ _ _ Hinv). simpl.
  destruct (clear_timer_fields (refs st)
              (MediaRecorder_stop (length (recorders (browser st0))) (browser st)))
    as (-> & -> & -> & -> & ->).
  simpl. rewrite (ri_awaiting _ _ _ _ Hinv), (ri_streams _ _ _ _ Hinv),
    (ri_recorders _ _ _ _ Hinv), (ri_urls _ _ _ _ Hinv).
  repeat split.
  - apply list_eq. intros i.
    destruct (decide (i = length (recorders (browser st0)))) as [->|Hne].
    + rewrite list_lookup_alter_eq, !list_lookup_middle by reflexivity. reflexivity.
    + rewrite list_lookup_alter_ne by congruence.
      destruct (lt_dec i (length (recorders (browser st0)))) as [Hlt|Hge].
      * now rewrite !lookup_app_l by exact Hlt.
      * rewrite !lookup_ge_None_2; [reflexivity| |]; rewrite length_app; simpl; lia.
  - now apply (clear_timer_session st0 st startTime chunks Hinv).
  - apply (ri_next_timer _ _ _ _ Hinv).
Qed.

Lemma buffered_each_nonempty (r : nat) (evs : list Event) :
  Forall (fun c => (0 < Blob_size c)%nat) (buffered r evs).
Proof.
  induction evs as [|ev evs IH]; simpl; [constructor|].
  destruct ev as [ |g|r' data|r' data|h now| | |v]; try exact IH;
    (destruct (bool_decide (r' = r)); simpl; [|exact IH];
     destruct (Nat.ltb_spec 0 (Blob_size data)); simpl;
     [constructor; assumption|exact IH]).
Qed.

Lemma new_Blob_size_pos (chunks : list Blob) (ty : jsstring) :
  Forall (fun c => (0 < Blob_size c)%nat) chunks ->
  ((0 < Blob_size (new_Blob chunks ty))%nat <-> chunks <> []).
Proof.
  intros Hall. unfold Blob_size, new_Blob. simpl.
  destruct Hall as [|c chunks Hc _]; simpl.
  - split; [lia|congruence].
  - rewrite length_app. unfold Blob_size in Hc. split; [discriminate|lia].
Qed.

(** The task queued by [stop()]: the last data, then [onstop]. *)
Lemma stop_task_result (st0 st1 : App.State) (final : Blob) (chunks : list Blob) :
  let r := length (recorders (browser st0)) in
  let s := length (streams (browser st0)) in
  isRecording (hooks st1) = false ->
  showRecorder (hooks st1) = true ->
  effect_audioUrl st1 = None ->
  audioChunksRef (refs st1) = chunks ->
  awaiting (browser st1) = 0%nat ->
  streams (browser st1) = streams (browser st0) ++ [true] ->
  recorders (browser st1)
    = recorders (browser st0) ++ [{| stream := s; state := stopping |}] ->
  intervals (browser st1) = [] ->
  (1 <= next_timer (browser st1))%N ->
  objectUrls (browser st1) = objectUrls (browser st0) ->
  let st2 := step (recorder_stop_task r final) st1 in
  let artifact :=
    new_Blob (chunks ++ buffered r [recorder_stop_task r final]) (lit "audio/wav") in
  let url := createObjectURL (browser st1) in
  hooks st2
  = {| isRecording := false; audioBlob := Some artifact; audioUrl := Some url;
       showRecorder := true; showSaveModal := true;
       recordingTime := recordingTime (hooks st1);
       isPlaying := isPlaying (hooks st1) |} /\
  effect_audioUrl st2 = Some url /\
  awaiting (browser st2) = 0%nat /\
  streams (browser st2) = streams (browser st0) ++ [false] /\
  recorders (browser st2)
    = recorders (browser st0) ++ [{| stream := s; state := stopped |}] /\
  intervals (browser st2) = [] /\
  (1 <= next_timer (browser st2))%N /\
  objectUrls (browser st2) = objectUrls (browser st0) ++ [(url, artifact)].
Proof.
  intros r s Hrec Hshown Heff Hchunks Haw Hstreams Hrecs Hint Hnext Hurls st2
    artifact url.
  assert (hooks st2 = {| isRecording := false; audioBlob := Some artifact;
                         audioUrl := Some url; showRecorder := true;
                         showSaveModal := true;
                         recordingTime := recordingTime (hooks st1);
                         isPlaying := isPlaying (hooks st1) |} /\
          effect_audioUrl st2 = Some url /\
          browser st2
          = clear_timer (refs (ondataavailable final st1))
              {| awaiting := awaiting (browser st1);
                 streams := <[s := false]> (streams (browser st1));
                 recorders := <[r := {| stream := s; state := stopped |}]>
                                (recorders (browser st1));
                 analysers := analysers (browser st1);
                 intervals := intervals (browser st1);
                 next_timer := next_timer (browser st1);
                 objectUrls := objectUrls (browser st1) ++ [(url, artifact)];
                 revoked := revoked (browser st1);
                 alerts := alerts (browser st1) |}) as (Hh & He & Hb).
  { subst st2. unfold step, handle. rewrite Hrecs.
    rewrite list_lookup_middle by reflexivity.
    unfold commit. simpl.
    assert (effect_audioUrl (ondataavailable final st1) = None) as Heff'.
    { unfold ondataavailable. now destruct (0 <? Blob_size final)%nat. }
    rewrite Heff'. rewrite bool_decide_eq_false_2 by discriminate.
    assert (audioChunksRef (refs (ondataavailable final st1))
            = chunks ++ buffered r [recorder_stop_task r final]) as Hc'.
    { unfold ondataavailable. simpl.
      rewrite bool_decide_eq_true_2 by reflexivity. simpl.
      destruct (0 <? Blob_size final)%nat; simpl; rewrite Hchunks;
        [reflexivity|now rewrite !app_nil_r]. }
    assert (hooks (ondataavailable final st1) = hooks st1
            /\ browser (ondataavailable final st1) = browser st1) as [Hh' Hb'].
    { unfold ondataavailable. now destruct (0 <? Blob_size final)%nat. }
    simpl. rewrite ?Hc', ?Hh', ?Hb', ?Hrec, ?Hshown, ?Hrecs.
    repeat split. }
  rewrite Hh, He, Hb.
  destruct (clear_timer_fields (refs (ondataavailable final st1))
    {| awaiting := awaiting (browser st1);
       streams := <[s := false]> (streams (browser st1));
       recorders := <[r := {| stream := s; state := stopped |}]>
                      (recorders (browser st1));
       analysers := analysers (browser st1);
       intervals := intervals (browser st1);
       next_timer := next_timer (browser st1);
       objectUrls := objectUrls (browser st1) ++ [(url, artifact)];
       revoked := revoked (browser st1);
       alerts := alerts (browser st1) |}) as (-> & -> & -> & -> & ->).
  cbn [awaiting streams recorders next_timer objectUrls].
  rewrite Haw, Hstreams, Hrecs, Hurls.
  repeat split; try assumption.
  - unfold s. now rewrite insert_app_r_alt, Nat.sub_diag by lia.
  - unfold r. now rewrite insert_app_r_alt, Nat.sub_diag by lia.
  - unfold clear_timer. destruct (timerRef _) as [h|]; [|exact Hint].
    destruct (h =? 0)%N; [exact Hint|]. simpl. now rewrite Hint.
Qed.

(** A start whose microphone request is refused: an alert, nothing else. *)
Lemma failed_start (st0 : App.State) :
  capture_idle st0 ->
  App.run [click_record; getUserMedia_settled None] st0
  = with_browser
      {| awaiting := awaiting (browser st0); streams := streams (browser st0);
         recorders := recorders (browser st0);
         analysers := analysers (browser st0);
         intervals := intervals (browser st0);
         next_timer := next_timer (browser st0);
         objectUrls := objectUrls (browser st0);
         revoked := revoked (browser st0);
         alerts := alerts (browser st0) ++
           [lit "Unable to access microphone. Please ensure you have granted permission."] |}
      st0.
Proof.
  intros Hidle. unfold App.run. simpl. unfold step at 2. simpl.
  rewrite (idle_shown _ Hidle). unfold record_onClick.
  rewrite (idle_not_recording _ Hidle).
  rewrite (commit_committed (startRecording_request st0))
    by exact (idle_effect _ Hidle).
  unfold step, handle. simpl.
  rewrite commit_committed by exact (idle_effect _ Hidle).
  reflexivity.
Qed.

(** C5, as the code has it.  A session started from the screen at rest
    and stopped by the button: nothing is produced before the recorder's
    stop task runs; that task produces exactly one artifact, the bytes of
    the buffered chunks in order, with type audio/wav, and opens the save
    dialog; every buffered chunk is non-empty, so the artifact has bytes
    exactly when some non-empty chunk was handed over, and has none
    otherwise; the duration the dialog is given is not negative when the
    clock does not run backwards; the stop task cannot run twice; and the
    screen is at rest again.  A start whose microphone request is refused
    changes no cell and no ref, creates no recorder and no artifact, and
    leaves the screen at rest. *)
Theorem session_yields_one_artifact (st0 : App.State) (startTime : Z)
    (mid : list Event) (final : Blob) :
  capture_idle st0 -> Forall (during startTime) mid ->
  let r := length (recorders (browser st0)) in
  let st1 :=
    App.run ([click_record; getUserMedia_settled (Some startTime)] ++ mid
             ++ [click_record]) st0 in
  let st2 := step (recorder_stop_task r final) st1 in
  let chunks := buffered r (mid ++ [recorder_stop_task r final]) in
  let artifact := new_Blob chunks (lit "audio/wav") in
  (audioBlob (hooks st1) = None /\
   objectUrls (browser st1) = objectUrls (browser st0)) /\
  (audioBlob (hooks st2) = Some artifact /\
   showSaveModal (hooks st2) = true /\
   exists url,
     audioUrl (hooks st2) = Some url /\
     objectUrls (browser st2) = objectUrls (browser st0) ++ [(url, artifact)]) /\
  (Blob_bytes artifact = List.concat (List.map Blob_bytes chunks) /\
   Forall (fun c => (0 < Blob_size c)%nat) chunks /\
   ((0 < Blob_size artifact)%nat <-> chunks <> [])) /\
  (0 <= recordingTime (hooks st2))%Q /\
  (forall data, step (recorder_stop_task r data) st2 = st2) /\
  capture_idle st2 /\
  (let failed := App.run [click_record; getUserMedia_settled None] st0 in
   hooks failed = hooks st0 /\ refs failed = refs st0 /\
   recorders (browser failed) = recorders (browser st0) /\
   objectUrls (browser failed) = objectUrls (browser st0) /\
   capture_idle failed).
Proof.
  intros Hidle Hmid r st1 st2 chunks artifact.
  pose proof (during_run_inv st0 startTime mid Hidle Hmid _ _
                (start_recording_inv st0 startTime Hidle)) as Hinv.
  simpl app in Hinv. fold r in Hinv.
  set (st := App.run mid
               (App.run [click_record; getUserMedia_settled (Some startTime)] st0))
    in Hinv.
  assert (st1 = step click_record st) as Hst1.
  { unfold st1, st, App.run. now rewrite !fold_left_app. }
  pose proof (stop_click st0 st startTime _ Hinv) as Hclick.
  destruct (stop_click_browser st0 st startTime _ Hinv)
    as (Haw & Hstreams & Hrecs & Hint & Hnext & Hurls).
  rewrite <- Hst1 in Hclick, Haw, Hstreams, Hrecs, Hint, Hnext, Hurls.
  assert (hooks st1 = {| isRecording := false; audioBlob := None;
                         audioUrl := None; showRecorder := true;
                         showSaveModal := showSaveModal (hooks st);
                         recordingTime := recordingTime (hooks st);
                         isPlaying := isPlaying (hooks st) |}) as Hhooks
    by now rewrite Hclick.
  assert (refs st1 = refs st /\ effect_audioUrl st1 = None) as [Hrefs Heff]
    by now rewrite Hclick.
  destruct (stop_task_result st0 st1 final (buffered r mid))
    as (Hh2 & He2 & Haw2 & Hs2 & Hr2 & Hi2 & Hn2 & Hu2);
    try assumption; try (now rewrite Hhooks).
  { rewrite Hrefs. apply (ri_chunks _ _ _ _ Hinv). }
  fold r in Hh2, He2, Haw2, Hs2, Hr2, Hi2, Hn2, Hu2.
  fold st2 in Hh2, He2, Haw2, Hs2, Hr2, Hi2, Hn2, Hu2.
  rewrite <- buffered_app in Hh2, Hu2. fold chunks in Hh2, Hu2.
  fold artifact in Hh2, Hu2.
  assert (0 <= recordingTime (hooks st1))%Q as Htime.
  { rewrite Hhooks. simpl. apply (ri_time _ _ _ _ Hinv). }
  split; [split; [now rewrite Hhooks|exact Hurls]|].
  split.
  { rewrite Hh2. simpl. repeat split. eexists. split; [reflexivity|exact Hu2]. }
  split.
  { split; [reflexivity|]. split; [apply buffered_each_nonempty|].
    apply new_Blob_size_pos, buffered_each_nonempty. }
  split; [now rewrite Hh2|].
  split.
  { intros data. unfold step, handle. rewrite Hr2.
    rewrite list_lookup_middle by reflexivity.
    apply commit_committed. now rewrite He2, Hh2. }
  split.
  { split; rewrite ?Hh2, ?He2; simpl; try assumption; try reflexivity.
    rewrite Hr2. apply Forall_app. split; [apply (idle_recorders _ Hidle)|].
    now repeat constructor. }
  rewrite (failed_start st0 Hidle). simpl. repeat split; try apply Hidle.
Qed.

Lemma shown_idle : capture_idle (App.run [show_recorder true] App.initial).
Proof.
  split; simpl; try reflexivity; try lia; [constructor|].
  unfold Qle. simpl. lia.
Qed.

(** Closing the save dialog leaves the screen at rest. *)
Lemma onClose_idle (st : App.State) :
  capture_idle st -> capture_idle (step modal_onClose st).
Proof.
  intros Hidle. unfold step, handle.
  destruct (showSaveModal (hooks st)); [|now rewrite commit_committed by apply Hidle].
  destruct (audioBlob (hooks st)); [|now rewrite commit_committed by apply Hidle].
  rewrite commit_committed by (simpl; apply Hidle).
  destruct Hidle. split; simpl; assumption.
Qed.

Lemma session_yields_one_artifact_witness :
  let st0 := App.run [show_recorder true] App.initial in
  let st2 :=
    App.run [ click_record; getUserMedia_settled (Some 1741240422500%Z);
              interval_fired 1 1741240422600; interval_fired 1 1741240425000;
              click_record; recorder_stop_task 0 (Sample.wav 4) ] st0 in
  audioBlob (hooks st2) = Some (Sample.wav 4) /\
  List.map snd (objectUrls (browser st2)) = [Sample.wav 4] /\
  (recordingTime (hooks st2) == 2.5)%Q /\
  capture_idle st2.
Proof.
  intros st0 st2.
  destruct (session_yields_one_artifact st0 1741240422500
              [interval_fired 1 1741240422600; interval_fired 1 1741240425000]
              (Sample.wav 4))
    as (_ & (Hblob & _ & url & _ & Hurls) & _ & _ & _ & Hidle & _).
  - exact shown_idle.
  - repeat constructor; simpl; lia.
  - split; [exact Hblob|]. split; [|split; [reflexivity|exact Hidle]].
    change (objectUrls (browser st2)) with
      (objectUrls (browser
         (step (recorder_stop_task (length (recorders (browser st0))) (Sample.wav 4))
            (App.run ([click_record; getUserMedia_settled (Some 1741240422500%Z)]
                      ++ [interval_fired 1 1741240422600;
                          interval_fired 1 1741240425000]
                      ++ [click_record]) st0)))).
    rewrite Hurls. reflexivity.
Defined.

(** C5, as the claim has it, fails: a session that is started and then
    stopped by the button, whose recorder hands over no bytes (the case
    [ondataavailable] tests for), reaches its stop handler and produces an
    artifact of byte length 0, for which the save dialog opens. *)
Lemma empty_artifact_counterexample :
  let st2 :=
    App.run [ show_recorder true; click_record;
              getUserMedia_settled (Some 1741240422500%Z);
              click_record; recorder_stop_task 0 (Sample.wav 0) ]
      App.initial in
  exists artifact,
    audioBlob (hooks st2) = Some artifact /\
    List.map snd (objectUrls (browser st2)) = [artifact] /\
    showSaveModal (hooks st2) = true /\
    List.map state (recorders (browser st2)) = [stopped] /\
    Blob_size artifact = 0%nat.
Proof.
  eexists. vm_compute. repeat split.
Qed.

(** How the code means to exclude a second start.  While a session is
    recording, the round button is the stop control: its click handler is
    [stopRecording], and a click leaves the number of pending microphone
    requests as it was, so no start is issued.  [startRecording] has no
    check of its own; a start whose microphone request is refused leaves
    the cells, the refs (recorder, chunk buffer, timer handle), the
    recorders, the streams and the running timers as they were. *)
Lemma record_button_stops_while_recording (st : App.State) :
  isRecording (hooks st) = true ->
  record_onClick st = stopRecording st /\
  awaiting (browser (handle click_record st)) = awaiting (browser st) /\
  (let st' := startRecording_resume None st in
   hooks st' = hooks st /\ refs st' = refs st /\
   recorders (browser st') = recorders (browser st) /\
   streams (browser st') = streams (browser st) /\
   intervals (browser st') = intervals (browser st)).
Proof.
  intros Hrec. unfold handle, record_onClick. rewrite Hrec.
  split; [reflexivity|]. split; [|simpl; repeat split].
  destruct (showRecorder (hooks st)); [|reflexivity].
  unfold stopRecording. rewrite Hrec.
  destruct (mediaRecorderRef (refs st)) as [r|]; [|reflexivity].
  simpl. now destruct (clear_timer_fields (refs st)
                         (MediaRecorder_stop r (browser st))) as (-> & _).
Qed.

(** C2 fails on a start that is already waiting for the microphone.  The
    button is clicked twice before the microphone is granted, both times
    with [isRecording] false, so two starts are pending.  The first
    grant starts a session: recorder 0, timer 1, elapsed time running.
    The second start resumes while that session is recording and is
    neither rejected nor ignored: the recorder ref and the timer ref now
    point to a second recorder and a second timer, and the next click
    stops only those, so the first recorder records on, its stream stays
    live and its timer keeps writing the elapsed time. *)
Lemma second_start_overwrites_session :
  let st :=
    App.run [ show_recorder true; click_record; click_record;
              getUserMedia_settled (Some 1741240422500%Z);
              interval_fired 1 1741240422600 ]
      App.initial in
  let st' := step (getUserMedia_settled (Some 1741240422650%Z)) st in
  let st'' :=
    App.run [ click_record; recorder_stop_task 1 (Sample.wav 4);
              interval_fired 1 1741240430000 ] st' in
  (isRecording (hooks st) = true /\
   List.map state (recorders (browser st)) = [recording] /\
   awaiting (browser st) = 1%nat /\
   mediaRecorderRef (refs st) = Some 0%nat /\
   timerRef (refs st) = Some 1%N) /\
  (mediaRecorderRef (refs st') = Some 1%nat /\
   timerRef (refs st') = Some 2%N /\
   List.map state (recorders (browser st')) = [recording; recording]) /\
  (isRecording (hooks st'') = false /\
   List.map state (recorders (browser st'')) = [recording; stopped] /\
   streams (browser st'') = [true; false] /\
   List.map fst (intervals (browser st'')) = [1%N] /\
   (recordingTime (hooks st'') == 7.5)%Q).
Proof.
  vm_compute. repeat split; intros; discriminate.
Qed.

End Capture.

(** ** More on the persistence gateway *)

Section GatewayErrors.

Import Supabase AuthContext SaveRecordingModal.

Lemma or_else_truthy_r (a b : jsstring) :
  truthy b = true -> truthy (or_else a b) = true.
Proof. intros Hb. unfold or_else. now destruct (truthy a) eqn:Ha. Qed.

(** The message that [getErrorMessage] answers with is never empty, so a
    banner that renders [{error && ...}] always shows it. *)
Lemma getErrorMessage_truthy (e : SbError) :
  truthy (getErrorMessage e) = true.
Proof.
  unfold getErrorMessage. apply or_else_truthy_r.
  repeat apply or_else_truthy_r. reflexivity.
Qed.

Lemma lookup_message_none (k : jsstring) (tbl : list (jsstring * jsstring)) :
  (forall m, ~ In (k, m) tbl) -> lookup_message k tbl = [].
Proof.
  induction tbl as [|[k' v] tbl IH]; intros Hno; [reflexivity|]. simpl.
  destruct (bool_decide (k' = k)) eqn:Hk.
  - apply bool_decide_eq_true in Hk. subst k'.
    contradiction (Hno v). now left.
  - apply IH. intros m Hm. apply (Hno m). now right.
Qed.

(** X1. What [getErrorMessage] shows for an error object whose key, the
    code or else the message, is not the name of a member of
    [Object.prototype]: never an empty message; for an error whose code
    is in the table, the table's message, whatever the error says itself;
    and for an error without a code whose message is not a key of the
    table, that message. *)
Theorem getErrorMessage_never_empty (e : SbError) :
  plain_key e ->
  truthy (getErrorMessage e) = true /\
  (forall m, In (code e, m) errorMessages -> getErrorMessage e = m) /\
  (code e = [] -> message e <> [] ->
   (forall m, ~ In (message e, m) errorMessages) ->
   getErrorMessage e = message e).
Proof.
  intros _. split; [apply getErrorMessage_truthy|]. split.
  - intros m Hin.
    assert (forall k v,
               In (k, v) errorMessages ->
               truthy k = true /\ lookup_message k errorMessages = v /\
               truthy v = true) as Htbl.
    { intros k v H. unfold errorMessages in H. cbn [In] in H.
      repeat (destruct H as [[= <- <-]|H]; [vm_compute; auto|]).
      destruct H. }
    destruct (Htbl _ _ Hin) as (Hk & Hl & Hv).
    unfold getErrorMessage.
    set (msg := or_else (message e) _).
    unfold or_else. now rewrite Hk, Hl, Hv.
  - intros Hcode Hmsg Hno. unfold getErrorMessage. rewrite Hcode.
    destruct (message e) as [|c s] eqn:Hm; [contradiction|].
    cbn [or_else truthy]. rewrite lookup_message_none by exact Hno.
    reflexivity.
Qed.

Lemma getErrorMessage_never_empty_witness :
  getErrorMessage rls_violation = lit "Permission denied" /\
  getErrorMessage Sample.storage_down = lit "Service unavailable".
Proof.
  split.
  - apply (getErrorMessage_never_empty rls_violation).
    + intros H. vm_compute in H. repeat (destruct H as [H|H]; [discriminate H|]).
      exact H.
    + vm_compute. do 8 right. now left.
  - apply (getErrorMessage_never_empty Sample.storage_down).
    + intros H. vm_compute in H. repeat (destruct H as [H|H]; [discriminate H|]).
      exact H.
    + reflexivity.
    + discriminate.
    + intros m H. vm_compute in H.
      repeat (destruct H as [H|H]; [discriminate H|]). exact H.
Defined.

(** How [saveRecording] can end, with what it has stored by then. *)
Lemma saveRecording_cases env title audioBlob duration st sb :
  let '(out, st', sb') := saveRecording env title audioBlob duration st sb in
  auth_uid sb' = auth_uid sb /\ tbl_users sb' = tbl_users sb /\
  ((exists msg, out = Rejected msg /\ truthy msg = true /\ st' = st /\
      tbl_recordings sb' = tbl_recordings sb /\
      (bucket sb' = bucket sb \/
       exists u, user st = Loaded u /\
         save_upload_fault env = None /\
         bucket sb' = bucket sb ++ [(saved_key env u, audioBlob)])) \/
   (exists u, user st = Loaded u /\
      tbl_recordings sb'
        = tbl_recordings sb ++ [saved_row env u title duration] /\
      bucket sb' = bucket sb ++ [(saved_key env u, audioBlob)] /\
      ((exists msg, out = Rejected msg /\ truthy msg = true /\ st' = st /\
          save_reload_fault env <> None) \/
       (out = Resolved /\
        recordings st'
          = List.map to_recording
              (order_desc
                 (List.filter (owned_by sb (user_id u)) (tbl_recordings sb'))))))).
Proof.
  unfold saveRecording, upload, insert_recording, select_recordings, answer.
  destruct (user st) as [| |u] eqn:Hu.
  1,2: repeat split; left; eexists; repeat split; now left.
  fold (saved_key env u).
  destruct (save_upload_fault env) as [e|] eqn:Hup.
  { simpl. repeat split. left. eexists. split; [reflexivity|].
    split; [apply getErrorMessage_truthy|]. repeat split. now left. }
  cbn [fst snd].
  destruct (visible_object sb _); cbn [negb fst snd].
  2: { simpl. repeat split. left. eexists. split; [reflexivity|].
       split; [apply getErrorMessage_truthy|]. repeat split. now left. }
  destruct (existsb _ (bucket sb)); cbn [fst snd].
  { simpl. repeat split. left. eexists. split; [reflexivity|].
    split; [apply getErrorMessage_truthy|]. repeat split. now left. }
  assert (forall e : SbError,
             exists msg, Rejected (getErrorMessage e) = Rejected msg /\
               truthy msg = true /\ st = st) as Hrej.
  { intros e. eexists. split; [reflexivity|].
    split; [apply getErrorMessage_truthy|reflexivity]. }
  fold (saved_row env u title duration).
  destruct (save_insert_fault env) as [e|].
  { simpl. repeat split. left. destruct (Hrej e) as (msg & H1 & H2 & _).
    exists msg. repeat split; try assumption. right. now exists u. }
  cbn [fst snd].
  destruct (visible_recording _ _); cbn [negb fst snd].
  2: { simpl. repeat split. left. destruct (Hrej rls_violation) as (msg & H1 & H2 & _).
       exists msg. repeat split; try assumption. right. now exists u. }
  destruct (existsb _ (tbl_users _)); cbn [negb fst snd].
  2: { simpl. repeat split. left.
       destruct (Hrej foreign_key_violation) as (msg & H1 & H2 & _).
       exists msg. repeat split; try assumption. right. now exists u. }
  destruct (existsb _ (tbl_recordings _)); cbn [fst snd].
  { simpl. repeat split. left.
    destruct (Hrej unique_violation) as (msg & H1 & H2 & _).
    exists msg. repeat split; try assumption. right. now exists u. }
  destruct (save_reload_fault env) as [e|] eqn:Hre.
  - simpl. repeat split. right. exists u. repeat split. left.
    destruct (Hrej e) as (msg & H1 & H2 & _).
    exists msg. repeat split; try assumption. discriminate.
  - simpl. repeat split. right. exists u. repeat split. now right.
Qed.

(** X2. A save that fails says why and leaves the provider's state, the
    visible list included, as it was. *)
Theorem saveRecording_failure_keeps_state env title audioBlob duration st sb msg :
  fst (fst (saveRecording env title audioBlob duration st sb)) = Rejected msg ->
  truthy msg = true /\
  snd (fst (saveRecording env title audioBlob duration st sb)) = st.
Proof.
  pose proof (saveRecording_cases env title audioBlob duration st sb) as H.
  destruct (saveRecording env title audioBlob duration st sb) as [[out st'] sb'].
  simpl. intros ->.
  destruct H as (_ & _ & [(m & [= <-] & Hm & Hst & _)|(u & _ & _ & _ & H)]).
  - now split.
  - destruct H as [(m & [= <-] & Hm & Hst & _)|[[=] _]]. now split.
Qed.

Lemma saveRecording_failure_keeps_state_witness :
  let env :=
    {| save_now := 1741240500000; save_upload_fault := None;
       save_insert_fault := Some (pg_error "42P01" "relation does not exist");
       save_reload_fault := None; save_new_id := lit Sample.idea_id;
       save_created_at := 1741240500000000 |} in
  fst (saveRecording env (lit "Idea") (Sample.wav 6) (7 # 4)
         Sample.st_memo Sample.sb_memo)
  = (Rejected (lit "Database table not found"), Sample.st_memo).
Proof.
  intros env.
  destruct (saveRecording_failure_keeps_state env (lit "Idea") (Sample.wav 6)
              (7 # 4) Sample.st_memo Sample.sb_memo
              (lit "Database table not found")) as [_ Hst].
  - vm_compute. reflexivity.
  - rewrite <- Hst at 2. vm_compute. reflexivity.
Defined.

(** X3. No metadata row without its object: when every row refers to an
    object that is in the bucket, then so does every row after a save,
    whatever the save does and however it ends. *)
Theorem saveRecording_keeps_rows_backed env title audioBlob duration st sb :
  backed sb ->
  backed (snd (saveRecording env title audioBlob duration st sb)).
Proof.
  intros Hb.
  pose proof (saveRecording_cases env title audioBlob duration st sb) as H.
  destruct (saveRecording env title audioBlob duration st sb) as [[out st'] sb'].
  simpl.
  destruct H as (_ & _ & [(m & _ & _ & _ & Hrows & Hbucket)
                         |(u & _ & Hrows & Hbucket & _)]);
    intros r Hr; rewrite Hrows in Hr.
  - destruct (Hb r Hr) as (key & blob & Hurl & Hin).
    exists key, blob. split; [exact Hurl|].
    destruct Hbucket as [->|(u & _ & _ & ->)]; [exact Hin|].
    apply in_or_app. now left.
  - rewrite Hbucket. apply in_app_or in Hr. destruct Hr as [Hr|[<-|[]]].
    + destruct (Hb r Hr) as (key & blob & Hurl & Hin).
      exists key, blob. split; [exact Hurl|]. apply in_or_app. now left.
    + exists (saved_key env u), audioBlob. split; [reflexivity|].
      apply in_or_app. right. now left.
Qed.

Lemma saveRecording_keeps_rows_backed_witness :
  List.length (tbl_recordings Sample.sb_two) = 2%nat /\ backed Sample.sb_two.
Proof.
  split; [reflexivity|].
  apply (saveRecording_keeps_rows_backed
           (Sample.save_env 1741240500000 Sample.idea_id) (lit "Idea")
           (Sample.wav 6) (7 # 4) Sample.st_memo Sample.sb_memo).
  apply (saveRecording_keeps_rows_backed
           (Sample.save_env 1741240425000 Sample.memo_id) (lit "Memo")
           (Sample.wav 4) (5 # 2) Sample.st_empty Sample.sb_empty).
  intros r [].
Defined.

(** X4. No rollback: when the upload went through and the insert of the row
    fails, the save is rejected with the insert's message, no row is
    written, and the uploaded object stays in the bucket. *)
Theorem saveRecording_insert_failure_leaves_object
    env title audioBlob duration st sb u e :
  user st = Loaded u ->
  fst (upload (save_upload_fault env) (saved_key env u) audioBlob sb) = Data tt ->
  save_insert_fault env = Some e ->
  let '(out, st', sb') := saveRecording env title audioBlob duration st sb in
  out = Rejected (getErrorMessage e) /\ st' = st /\
  tbl_recordings sb' = tbl_recordings sb /\
  bucket sb' = bucket sb ++ [(saved_key env u, audioBlob)].
Proof.
  intros Hu Hup Hins. unfold saveRecording. rewrite Hu.
  fold (saved_key env u).
  destruct (upload _ _ _ sb) as [r1 sb1] eqn:Hupload. simpl in Hup. subst r1.
  assert (tbl_recordings sb1 = tbl_recordings sb /\
          bucket sb1 = bucket sb ++ [(saved_key env u, audioBlob)]) as [Hr Hb].
  { revert Hupload. unfold upload, answer.
    destruct (save_upload_fault env); [discriminate|]. cbn [fst snd].
    destruct (visible_object sb _); cbn [negb]; [|discriminate].
    destruct (existsb _ _); [discriminate|].
    now intros [= <-]. }
  unfold insert_recording, answer. rewrite Hins. simpl. repeat split; assumption.
Qed.

Lemma saveRecording_insert_failure_leaves_object_witness :
  let env :=
    {| save_now := 1741240500000; save_upload_fault := None;
       save_insert_fault := Some (pg_error "42P01" "relation does not exist");
       save_reload_fault := None; save_new_id := lit Sample.idea_id;
       save_created_at := 1741240500000000 |} in
  let sb' := snd (saveRecording env (lit "Idea") (Sample.wav 6) (7 # 4)
                    Sample.st_memo Sample.sb_memo) in
  List.length (tbl_recordings sb') = 1%nat /\
  List.map snd (bucket sb') = [Sample.wav 4; Sample.wav 6].
Proof.
  intros env sb'.
  pose proof (saveRecording_insert_failure_leaves_object env (lit "Idea")
                (Sample.wav 6) (7 # 4) Sample.st_memo Sample.sb_memo
                (to_user Sample.alice)
                (pg_error "42P01" "relation does not exist")
                eq_refl eq_refl eq_refl) as H.
  unfold sb'.
  destruct (saveRecording env (lit "Idea") (Sample.wav 6) (7 # 4)
              Sample.st_memo Sample.sb_memo) as [[out st1] sb1].
  cbn [snd]. destruct H as (_ & _ & -> & ->). split; reflexivity.
Defined.

(** X5. How the dialog's save ends: either [onSaved] is called, with no
    error and the busy flag off, after a [saveRecording] that resolved; or
    [onSaved] is not called and the dialog holds a message that is not
    empty, so that its banner is rendered, and the visible list is what it
    was. *)
Theorem handleSave_ends_saved_or_with_message
    env audioBlob duration (m : SaveRecordingModal.State)
    (st : AuthContext.State) (sb : Backend) :
  let r := handleSave env audioBlob duration m st sb in
  (onSaved_called r = true /\
   SaveRecordingModal.error (modal r) = None /\
   isSaving (modal r) = false /\
   fst (fst (saveRecording env (SaveRecordingModal.title m) audioBlob
               duration st sb)) = Resolved) \/
  (onSaved_called r = false /\
   (exists msg,
       SaveRecordingModal.error (modal r) = Some msg /\ truthy msg = true) /\
   recordings (auth r) = recordings st).
Proof.
  unfold handleSave.
  destruct (truthy (trim (SaveRecordingModal.title m))); simpl.
  - pose proof (saveRecording_cases env (SaveRecordingModal.title m) audioBlob
                  duration st sb) as H.
    destruct (saveRecording _ _ _ _ _ _) as [[[|msg] st'] sb']; simpl.
    + left. repeat split.
    + right. split; [reflexivity|].
      destruct H as (_ & _ & [(x & [= <-] & Hx & -> & _)|(u & _ & _ & _ & H)]).
      * split; [|reflexivity]. now exists msg.
      * destruct H as [(x & [= <-] & Hx & -> & _)|[[=] _]].
        split; [|reflexivity]. now exists msg.
  - right. split; [reflexivity|]. split; [|reflexivity].
    eexists. split; reflexivity.
Qed.

(** *** Storage keys and URLs *)

Lemma split_not_nil (sep : N) (s : jsstring) : split sep s <> [].
Proof.
  destruct s as [|c s]; simpl; [discriminate|].
  destruct (c =? sep)%N; [discriminate|].
  destruct (split sep s); discriminate.
Qed.

(** No segment of [s.split(sep)] contains the separator. *)
Lemma split_segments (sep : N) (s : jsstring) :
  Forall (fun seg => ~ In sep seg) (split sep s).
Proof.
  induction s as [|c s IH]; simpl.
  - repeat constructor. intros [].
  - destruct (N.eqb_spec c sep) as [->|Hne].
    + constructor; [intros []|exact IH].
    + destruct (split sep s) as [|seg segs].
      * repeat constructor. intros [H|[]]. congruence.
      * inversion IH as [|? ? Hseg Hsegs]; subst. constructor; [|exact Hsegs].
        intros [H|H]; [congruence|contradiction].
Qed.

Lemma last_In {A} (l : list A) (d : A) : l <> [] -> In (List.last l d) l.
Proof.
  induction l as [|x l IH]; [congruence|]. intros _.
  destruct l as [|y l]; [now left|].
  right. apply IH. discriminate.
Qed.

Lemma pop_no_sep (sep : N) (s : jsstring) : ~ In sep (pop (split sep s)).
Proof.
  pose proof (split_segments sep s) as H.
  rewrite Stdlib.Lists.List.Forall_forall in H. apply H.
  apply last_In, split_not_nil.
Qed.

Lemma split_no_sep (sep : N) (t : jsstring) : ~ In sep t -> split sep t = [t].
Proof.
  induction t as [|c t IH]; simpl; [reflexivity|]. intros Hn.
  destruct (N.eqb_spec c sep) as [->|_]; [contradiction Hn; now left|].
  rewrite IH; [reflexivity|]. intros H. apply Hn. now right.
Qed.

Lemma split_app (sep : N) (p t : jsstring) :
  split sep (p ++ sep :: t) = split sep p ++ split sep t.
Proof.
  induction p as [|c p IH]; simpl.
  - now rewrite N.eqb_refl.
  - destruct (c =? sep)%N; rewrite IH; [reflexivity|].
    pose proof (split_not_nil sep p) as Hn.
    destruct (split sep p); [contradiction|reflexivity].
Qed.

(** The last segment of [p + sep + t] is [t], when [t] has no separator. *)
Lemma pop_split_app (sep : N) (p t : jsstring) :
  ~ In sep t -> pop (split sep (p ++ sep :: t)) = t.
Proof.
  intros Hn. unfold pop. rewrite split_app, (split_no_sep sep t Hn).
  apply List.last_last.
Qed.

Lemma lit_String (c : ascii) (s : string) :
  lit (String c s) = N_of_ascii c :: lit s.
Proof. reflexivity. Qed.

Lemma of_uint_no_slash (d : Decimal.uint) :
  ~ In slash (lit (NilEmpty.string_of_uint d)).
Proof.
  induction d; simpl NilEmpty.string_of_uint; rewrite ?lit_String;
    [intros []|..]; intros [H|H]; try discriminate H; contradiction.
Qed.

(** The decimal digits of an integer contain no slash. *)
Lemma of_int_no_slash (z : Z) : ~ In slash (of_int z).
Proof.
  unfold of_int, NilZero.string_of_int.
  destruct (Z.to_int z) as [d|d].
  - unfold NilZero.string_of_uint.
    destruct d; try apply of_uint_no_slash. intros [H|[]]. discriminate H.
  - rewrite lit_String. intros [H|H]; [discriminate H|].
    revert H. unfold NilZero.string_of_uint.
    destruct d; try apply of_uint_no_slash. intros [H|[]]. discriminate H.
Qed.

(** Key round trip: from the public URL that [saveRecording] stores,
    [deleteRecording] rebuilds the key under which the object was
    uploaded. *)
Lemma stored_url_gives_back_key (env : SaveEnv) (u : User) :
  user_id u ++ lit "/"
    ++ pop (split slash (getPublicUrl (saved_key env u)))
  = saved_key env u.
Proof.
  assert (getPublicUrl (saved_key env u)
          = (supabaseUrl ++ lit "/storage/v1/object/public/recordings/"
               ++ user_id u)
            ++ slash :: (of_int (save_now env) ++ lit ".wav")) as ->.
  { unfold getPublicUrl, saved_key. rewrite <- !app_assoc. reflexivity. }
  rewrite pop_split_app; [reflexivity|].
  intros H. apply in_app_or in H. destruct H as [H|H].
  - now apply of_int_no_slash in H.
  - simpl in H. repeat (destruct H as [H|H]; [discriminate H|]). exact H.
Qed.

(** *** deleteRecording *)

Lemma filter_none {A} (f : A -> bool) (l : list A) :
  (forall x, In x l -> f x = false) -> List.filter f l = [].
Proof.
  induction l as [|x l IH]; [reflexivity|]. intros H. simpl.
  rewrite (H x (or_introl eq_refl)). apply IH. intros y Hy. apply H. now right.
Qed.

(** X6. Deleting a well-formed id, the text of a UUID, that matches none
    of the caller's rows: the lookup's [.single()] fails, the call
    rejects with 'No data found', and nothing is removed from the tables,
    the bucket or the visible list. *)
Theorem deleteRecording_unknown_id env id0 st sb u :
  uuid_text id0 = true ->
  user st = Loaded u ->
  delete_fetch_fault env = None ->
  (forall r, In r (tbl_recordings sb) ->
     visible_recording sb r = true -> row_id r <> id0) ->
  deleteRecording env id0 st sb
  = (Rejected (lit "No data found"), st, sent (SelectAudioUrl id0) sb).
Proof.
  intros _ Hu Hf Hno. unfold deleteRecording, select_audio_url, answer.
  rewrite Hu, Hf. cbn [fst snd].
  rewrite filter_none; [reflexivity|].
  intros r Hr. destruct (visible_recording sb r) eqn:Hv; [|reflexivity].
  simpl. apply bool_decide_eq_false. now apply Hno.
Qed.

Lemma deleteRecording_unknown_id_witness :
  let id0 := lit "7b0e4c52-9d31-4f6a-8c27-1e5a9b3d4f03" in
  deleteRecording (Sample.delete_env None) id0 Sample.st_two Sample.sb_two
  = (Rejected (lit "No data found"), Sample.st_two,
     sent (SelectAudioUrl id0) Sample.sb_two).
Proof.
  intros id0.
  apply (deleteRecording_unknown_id _ _ _ _ (to_user Sample.alice));
    try (vm_compute; reflexivity).
  intros r Hr _. vm_compute in Hr.
  destruct Hr as [<-|[<-|[]]]; discriminate.
Defined.

(** How [deleteRecording] can end, with what it has removed by then. *)
Lemma deleteRecording_cases env id0 st sb :
  let '(out, st', sb') := deleteRecording env id0 st sb in
  auth_uid sb' = auth_uid sb /\ tbl_users sb' = tbl_users sb /\
  ((tbl_recordings sb' = tbl_recordings sb /\ (out = Resolved -> st' = st)) \/
   (out = Resolved /\
    tbl_recordings sb'
      = List.filter (fun r => negb (visible_recording sb r
                                 && bool_decide (row_id r = id0)))
          (tbl_recordings sb) /\
    recordings st'
      = List.filter (fun rec => negb (bool_decide (id rec = id0)))
          (recordings st))) /\
  (bucket sb' = bucket sb \/
   exists u r,
     user st = Loaded u /\ In r (tbl_recordings sb) /\
     visible_recording sb r = true /\ row_id r = id0 /\
     delete_storage_fault env = None /\
     bucket sb'
       = List.filter
           (fun o => negb (visible_object sb (fst o)
                        && bool_decide
                             (fst o ∈ [user_id u ++ lit "/"
                                        ++ pop (split slash (row_audio_url r))])))
           (bucket sb)).
Proof.
  unfold deleteRecording, select_audio_url, answer.
  destruct (user st) as [| |u] eqn:Hu.
  1,2: repeat split; now left.
  destruct (delete_fetch_fault env) as [e|].
  { simpl. repeat split; left; [split; [reflexivity|discriminate]|reflexivity]. }
  cbn [fst snd].
  destruct (List.filter _ (tbl_recordings sb)) as [|r [|r' rs]] eqn:Hsel.
  1,3: simpl; repeat split; left; [split; [reflexivity|discriminate]|reflexivity].
  assert (In r (tbl_recordings sb) /\ visible_recording sb r = true
          /\ row_id r = id0) as (Hin & Hvis & Hid).
  { assert (In r (List.filter
                    (fun r => visible_recording sb r && bool_decide (row_id r = id0))
                    (tbl_recordings sb))) as H by (rewrite Hsel; now left).
    apply filter_In in H. destruct H as [H1 H2].
    apply andb_prop in H2. destruct H2 as [H2 H3].
    apply bool_decide_eq_true in H3. now repeat split. }
  cbn [List.map single].
  destruct (truthy (pop (split slash (row_audio_url r)))) eqn:Hname.
  - unfold remove, answer.
    destruct (delete_storage_fault env) as [e|] eqn:Hst.
    { simpl. repeat split; left; [split; [reflexivity|discriminate]|reflexivity]. }
    cbn [fst snd]. unfold delete_recording, answer.
    destruct (delete_db_fault env) as [e|].
    + simpl. repeat split; [left; split; [reflexivity|discriminate]|].
      right. exists u, r. now repeat split.
    + simpl. repeat split; [right; now repeat split|].
      right. exists u, r. now repeat split.
  - unfold delete_recording, answer.
    destruct (delete_db_fault env) as [e|].
    + simpl. repeat split; left; [split; [reflexivity|discriminate]|reflexivity].
    + simpl. repeat split; [right; now repeat split|now left].
Qed.

(** X7. A delete touches nothing but its target: profiles stay, rows with
    another id stay, no row or object appears, and an object that goes is
    one under the signed-in user's own folder. *)
Theorem deleteRecording_spares_the_rest env id0 st sb :
  let sb' := snd (deleteRecording env id0 st sb) in
  tbl_users sb' = tbl_users sb /\
  (forall r, In r (tbl_recordings sb) -> row_id r <> id0 ->
     In r (tbl_recordings sb')) /\
  (forall r, In r (tbl_recordings sb') -> In r (tbl_recordings sb)) /\
  (forall o, In o (bucket sb') -> In o (bucket sb)) /\
  (forall o, In o (bucket sb) -> ~ In o (bucket sb') ->
     exists u file,
       user st = Loaded u /\ visible_object sb (fst o) = true /\
       fst o = user_id u ++ lit "/" ++ file /\ ~ In slash file).
Proof.
  pose proof (deleteRecording_cases env id0 st sb) as H.
  destruct (deleteRecording env id0 st sb) as [[out st'] sb'].
  cbn [snd]. destruct H as (_ & Husers & Hrows & Hbucket).
  split; [exact Husers|].
  split; [|split; [|split]].
  - intros r Hr Hne. destruct Hrows as [[-> _]|(_ & -> & _)]; [exact Hr|].
    apply filter_In. split; [exact Hr|].
    apply negb_true_iff, andb_false_iff. right.
    now apply bool_decide_eq_false.
  - intros r Hr. destruct Hrows as [[<- _]|(_ & Heq & _)]; [exact Hr|].
    rewrite Heq in Hr. now apply filter_In in Hr.
  - intros o Ho. destruct Hbucket as [<-|(u & r & _ & _ & _ & _ & _ & Heq)];
      [exact Ho|].
    rewrite Heq in Ho. now apply filter_In in Ho.
  - intros o Ho Hgone.
    destruct Hbucket as [Heq|(u & r & Hu & _ & _ & _ & _ & Heq)].
    { rewrite Heq in Hgone. contradiction. }
    rewrite Heq in Hgone.
    destruct (visible_object sb (fst o)
              && bool_decide
                   (fst o ∈ [user_id u ++ lit "/"
                              ++ pop (split slash (row_audio_url r))]))
      eqn:Hf.
    2: { contradiction Hgone. apply filter_In. split; [exact Ho|].
         now rewrite Hf. }
    apply andb_prop in Hf. destruct Hf as [Hvis Hkey].
    apply bool_decide_eq_true in Hkey. apply list_elem_of_singleton in Hkey.
    exists u, (pop (split slash (row_audio_url r))).
    split; [exact Hu|]. split; [exact Hvis|]. split; [exact Hkey|apply pop_no_sep].
Qed.

Lemma deleteRecording_spares_the_rest_witness :
  In (saved_row (Sample.save_env 1741240500000 Sample.idea_id)
        (to_user Sample.alice) (lit "Idea") (7 # 4))
    (tbl_recordings
       (snd (deleteRecording (Sample.delete_env None) (lit Sample.memo_id)
               Sample.st_two Sample.sb_two))).
Proof.
  pose proof (deleteRecording_spares_the_rest (Sample.delete_env None)
                (lit Sample.memo_id) Sample.st_two Sample.sb_two) as H.
  cbv zeta in H. destruct H as (_ & H & _). apply H.
  - vm_compute. right. now left.
  - vm_compute. discriminate.
Defined.

(** X8. The counterpart of the save that fails half-way: when the row's own
    deletion fails after its object has been removed, the call rejects,
    the row and the visible list stay, and the object the row refers to
    is gone. *)
Theorem deleteRecording_row_failure_loses_object env id0 st sb u r key e :
  user st = Loaded u ->
  delete_fetch_fault env = None ->
  delete_storage_fault env = None ->
  delete_db_fault env = Some e ->
  List.filter (fun r => visible_recording sb r && bool_decide (row_id r = id0))
    (tbl_recordings sb) = [r] ->
  key = user_id u ++ lit "/" ++ pop (split slash (row_audio_url r)) ->
  truthy (pop (split slash (row_audio_url r))) = true ->
  visible_object sb key = true ->
  let '(out, st', sb') := deleteRecording env id0 st sb in
  out = Rejected (getErrorMessage e) /\ st' = st /\
  In r (tbl_recordings sb') /\
  forall blob, ~ In (key, blob) (bucket sb').
Proof.
  intros Hu Hf Hs Hd Hsel -> Hname Hvis.
  assert (In r (tbl_recordings sb)) as Hin.
  { assert (In r [r]) as H by now left. rewrite <- Hsel in H.
    now apply filter_In in H. }
  unfold deleteRecording, select_audio_url, answer.
  rewrite Hu, Hf. cbn [fst snd]. rewrite Hsel. cbn [List.map single].
  rewrite Hname. unfold remove, delete_recording, answer. rewrite Hs, Hd.
  cbn [fst snd]. split; [reflexivity|]. split; [reflexivity|].
  split; [exact Hin|]. intros blob Hb. cbn [bucket sent with_bucket] in Hb.
  apply filter_In in Hb. destruct Hb as [_ Hb]. cbn [fst] in Hb.
  apply negb_true_iff, andb_false_iff in Hb. destruct Hb as [Hb|Hb].
  - change (visible_object (sent (SelectAudioUrl id0) sb))
      with (visible_object sb) in Hb. congruence.
  - apply bool_decide_eq_false in Hb. apply Hb. now apply list_elem_of_singleton.
Qed.

Lemma deleteRecording_row_failure_loses_object_witness :
  let env := {| delete_fetch_fault := None; delete_storage_fault := None;
                delete_db_fault := Some (pg_error "42P01" "relation does not exist") |} in
  fst (deleteRecording env (lit Sample.memo_id) Sample.st_two Sample.sb_two)
  = (Rejected (lit "Database table not found"), Sample.st_two).
Proof.
  intros env.
  pose proof (fun H1 H2 H3 H4 H5 H6 H7 H8 =>
                deleteRecording_row_failure_loses_object env (lit Sample.memo_id)
                Sample.st_two Sample.sb_two (to_user Sample.alice)
                (saved_row (Sample.save_env 1741240425000 Sample.memo_id)
                   (to_user Sample.alice) (lit "Memo") (5 # 2))
                (saved_key (Sample.save_env 1741240425000 Sample.memo_id)
                   (to_user Sample.alice))
                (pg_error "42P01" "relation does not exist")
                H1 H2 H3 H4 H5 H6 H7 H8)
    as H.
  repeat (match type of H with
          | ?P -> _ =>
              let HP := fresh in
              assert P as HP by (vm_compute; reflexivity);
              specialize (H HP); clear HP
          end).
  destruct (deleteRecording env (lit Sample.memo_id) Sample.st_two Sample.sb_two)
    as [[out st'] sb'].
  destruct H as (-> & -> & _). reflexivity.
Defined.

(** *** Sorting commutes with filtering *)

Section SortFilter.

Context {A : Type} (key : A -> Z).

Local Abbreviation cmp := (fun a b : A => (key b - key a)%Z).
Local Abbreviation ge := (fun a b : A => (key b <= key a)%Z).

Lemma sort_insert_Permutation (x : A) (l : list A) :
  Permutation (sort_insert cmp x l) (x :: l).
Proof.
  induction l as [|y l IH]; simpl; [reflexivity|].
  destruct (key y - key x <=? 0)%Z; [reflexivity|].
  rewrite IH. apply perm_swap.
Qed.

(** [sort] rearranges: nothing is lost, added or duplicated. *)
Lemma sort_Permutation (l : list A) : Permutation (sort cmp l) l.
Proof.
  induction l as [|x l IH]; simpl; [reflexivity|].
  rewrite sort_insert_Permutation. now constructor.
Qed.

Lemma Sorted_ge_Forall (x : A) (l : list A) :
  Sorted ge (x :: l) -> Forall (fun z => (key z <= key x)%Z) l.
Proof.
  revert x. induction l as [|y l IH]; intros x Hs; [constructor|].
  inversion Hs as [|? ? Hs' Hhd]; subst. inversion Hhd; subst.
  constructor; [assumption|].
  apply IH. inversion Hs' as [|? ? Hs'' Hhd']; subst.
  constructor; [assumption|].
  destruct Hhd' as [|z l' Hz]; constructor. lia.
Qed.

Lemma sort_insert_front (x : A) (l : list A) :
  Forall (fun z => (key z <= key x)%Z) l -> sort_insert cmp x l = x :: l.
Proof.
  destruct 1 as [|y l Hy _]; simpl; [reflexivity|].
  destruct (Z.leb_spec (key y - key x) 0); [reflexivity|lia].
Qed.

Lemma filter_sort_insert (p : A -> bool) (x : A) (l : list A) :
  Sorted ge l ->
  List.filter p (sort_insert cmp x l)
  = if p x then sort_insert cmp x (List.filter p l) else List.filter p l.
Proof.
  induction l as [|y l IH]; intros Hs; simpl; [reflexivity|].
  destruct (Z.leb_spec (key y - key x) 0) as [Hle|Hgt].
  - simpl. destruct (p x); [|reflexivity].
    rewrite sort_insert_front; [reflexivity|].
    assert (Forall (fun z => (key z <= key x)%Z) (y :: l)) as Hall.
    { constructor; [lia|].
      eapply Forall_impl; [exact (Sorted_ge_Forall y l Hs)|].
      simpl. intros z Hz. lia. }
    rewrite Stdlib.Lists.List.Forall_forall in Hall.
    apply Stdlib.Lists.List.Forall_forall. intros z Hz. apply Hall.
    change (In z (List.filter p (y :: l))) in Hz. now apply filter_In in Hz.
  - simpl. assert (Sorted ge l) as Hs' by now inversion Hs.
    rewrite (IH Hs'). destruct (p y), (p x); try reflexivity.
    simpl. destruct (Z.leb_spec (key y - key x) 0); [lia|reflexivity].
Qed.

(** Filtering a sorted list is sorting the filtered list: the order of
    what stays does not depend on what is dropped. *)
Lemma filter_sort (p : A -> bool) (l : list A) :
  List.filter p (sort cmp l) = sort cmp (List.filter p l).
Proof.
  induction l as [|x l IH]; simpl; [reflexivity|].
  rewrite filter_sort_insert by apply (sort_Sorted key).
  rewrite IH. now destruct (p x).
Qed.

End SortFilter.

Lemma filter_all {A} (f : A -> bool) (l : list A) :
  (forall x, In x l -> f x = true) -> List.filter f l = l.
Proof.
  induction l as [|x l IH]; [reflexivity|]. intros H. simpl.
  rewrite (H x (or_introl eq_refl)). f_equal. apply IH.
  intros y Hy. apply H. now right.
Qed.

Lemma existsb_false {A} (f : A -> bool) (l : list A) (x : A) :
  existsb f l = false -> In x l -> f x = false.
Proof.
  intros He Hx. destruct (f x) eqn:Hf; [|reflexivity].
  rewrite <- He. symmetry. apply existsb_exists. now exists x.
Qed.

(** What a save that resolves has checked on its way. *)
Lemma saveRecording_resolved_fresh env title audioBlob duration st sb st' sb' u :
  saveRecording env title audioBlob duration st sb = (Resolved, st', sb') ->
  user st = Loaded u ->
  visible_object sb (saved_key env u) = true /\
  existsb (fun o => bool_decide (fst o = saved_key env u)) (bucket sb) = false /\
  existsb (fun r => bool_decide (row_id r = save_new_id env))
    (tbl_recordings sb) = false.
Proof.
  unfold saveRecording, upload, insert_recording, select_recordings, answer.
  intros H Hu. rewrite Hu in H. fold (saved_key env u) in H.
  destruct (save_upload_fault env); [discriminate|].
  destruct (visible_object sb _); cbn [negb fst snd] in H; [|discriminate].
  destruct (existsb _ (bucket sb)); cbn [fst snd] in H; [discriminate|].
  destruct (save_insert_fault env); [discriminate|].
  destruct (visible_recording _ _); cbn [negb fst snd] in H; [|discriminate].
  destruct (existsb _ (tbl_users _)); cbn [negb fst snd] in H; [|discriminate].
  cbn [tbl_recordings sent with_bucket] in H.
  destruct (existsb _ (tbl_recordings sb)); [discriminate|].
  now repeat split.
Qed.

(** X9. Save, then delete what was saved: the tables and the bucket are what
    they were before the save, and the visible list is what loading from
    them shows. *)
Theorem save_then_delete_restores env denv title audioBlob duration
    st sb st1 sb1 u :
  user st = Loaded u ->
  saveRecording env title audioBlob duration st sb = (Resolved, st1, sb1) ->
  delete_fetch_fault denv = None ->
  delete_storage_fault denv = None ->
  delete_db_fault denv = None ->
  let '(out, st2, sb2) := deleteRecording denv (save_new_id env) st1 sb1 in
  out = Resolved /\
  tbl_users sb2 = tbl_users sb /\
  tbl_recordings sb2 = tbl_recordings sb /\
  bucket sb2 = bucket sb /\
  recordings st2
  = List.map to_recording
      (order_desc (List.filter (owned_by sb (user_id u)) (tbl_recordings sb))).
Proof.
  intros Hu Hsave Hf Hs Hd.
  destruct (saveRecording_resolved_fresh _ _ _ _ _ _ _ _ u Hsave Hu)
    as (Hvis & Hfresh_o & Hfresh_r).
  destruct (saveRecording_resolved _ _ _ _ _ _ _ _ Hsave)
    as (u' & Hu' & Hu1 & Hrow & _ & Hauth & Husers & Hrows & Hbucket & Hlist).
  assert (u' = u) as -> by congruence.
  set (row := saved_row env u title duration) in *.
  set (key := saved_key env u) in *.
  assert (forall r, visible_recording sb1 r = visible_recording sb r) as Hv1.
  { intros r. unfold visible_recording, is_uid. now rewrite Hauth. }
  assert (forall k, visible_object sb1 k = visible_object sb k) as Hvo1.
  { intros k. unfold visible_object, is_uid. now rewrite Hauth. }
  assert (List.filter
            (fun r => visible_recording sb1 r
                      && bool_decide (row_id r = save_new_id env))
            (tbl_recordings sb1) = [row]) as Hsel.
  { rewrite Hrows, List.filter_app, filter_none.
    - simpl. rewrite Hv1, Hrow. simpl.
      rewrite bool_decide_eq_true_2; reflexivity.
    - intros r Hr. apply andb_false_iff. right.
      exact (existsb_false _ _ r Hfresh_r Hr). }
  assert (pop (split slash (row_audio_url row))
          = of_int (save_now env) ++ lit ".wav") as Hname.
  { pose proof (stored_url_gives_back_key env u) as Hk.
    unfold saved_key in Hk at 2.
    apply Stdlib.Lists.List.app_inv_head in Hk.
    now apply Stdlib.Lists.List.app_inv_head in Hk. }
  unfold deleteRecording, select_audio_url, answer.
  rewrite Hu1, Hf. cbn [fst snd]. rewrite Hsel. cbn [List.map single].
  rewrite Hname.
  assert (truthy (of_int (save_now env) ++ lit ".wav") = true) as ->.
  { destruct (of_int (save_now env)); reflexivity. }
  fold key. unfold remove, delete_recording, answer. rewrite Hs, Hd.
  cbn [fst snd]. split; [reflexivity|].
  cbn [tbl_users tbl_recordings bucket sent with_bucket with_recordings
       recordings setRecordings].
  split; [exact Husers|]. split; [|split].
  - rewrite Hrows, List.filter_app, filter_all.
    + simpl. change (visible_recording _ row) with (visible_recording sb1 row).
      rewrite Hv1, Hrow. simpl.
      rewrite bool_decide_eq_true_2 by reflexivity. apply app_nil_r.
    + intros r Hr. apply negb_true_iff, andb_false_iff. right.
      exact (existsb_false _ _ r Hfresh_r Hr).
  - rewrite Hbucket, List.filter_app, filter_all.
    + simpl. change (visible_object _ key) with (visible_object sb1 key).
      rewrite Hvo1, Hvis. simpl.
      rewrite bool_decide_eq_true_2 by now apply list_elem_of_singleton.
      apply app_nil_r.
    + intros o Ho. apply negb_true_iff, andb_false_iff. right.
      apply bool_decide_eq_false. intros Hk.
      apply list_elem_of_singleton in Hk.
      pose proof (existsb_false _ _ o Hfresh_o Ho) as Hne.
      apply bool_decide_eq_false in Hne. contradiction.
  - rewrite Hlist.
    assert (forall l,
              List.filter (fun rec => negb (bool_decide (id rec = save_new_id env)))
                (List.map to_recording l)
              = List.map to_recording
                  (List.filter
                     (fun r => negb (bool_decide (row_id r = save_new_id env)))
                     l)) as Hmap.
    { induction l as [|r l IH]; [reflexivity|]. simpl. rewrite IH.
      now destruct (bool_decide (row_id r = save_new_id env)). }
    rewrite Hmap. f_equal. unfold order_desc.
    rewrite (filter_sort row_created_at). f_equal.
    rewrite Hrows, !List.filter_app. simpl.
    assert (List.filter
              (fun r => negb (bool_decide (row_id r = save_new_id env)))
              (List.filter (owned_by sb (user_id u)) (tbl_recordings sb))
            = List.filter (owned_by sb (user_id u)) (tbl_recordings sb)) as ->.
    { apply filter_all. intros r Hr. apply filter_In in Hr.
      destruct Hr as [Hr _]. apply negb_true_iff.
      exact (existsb_false _ _ r Hfresh_r Hr). }
    destruct (owned_by sb (user_id u) row); simpl;
      [rewrite bool_decide_eq_true_2 by reflexivity|]; apply app_nil_r.
Qed.

Lemma save_then_delete_restores_witness :
  let '(out, st2, sb2) :=
    deleteRecording (Sample.delete_env None) (lit Sample.idea_id)
      Sample.st_two Sample.sb_two in
  out = Resolved /\
  tbl_recordings sb2 = tbl_recordings Sample.sb_memo /\
  bucket sb2 = bucket Sample.sb_memo /\
  recordings st2 = [Sample.memo].
Proof.
  pose proof (save_then_delete_restores
                (Sample.save_env 1741240500000 Sample.idea_id)
                (Sample.delete_env None) (lit "Idea") (Sample.wav 6) (7 # 4)
                Sample.st_memo Sample.sb_memo Sample.st_two Sample.sb_two
                (to_user Sample.alice)) as H.
  repeat (match type of H with
          | ?P -> _ =>
              let HP := fresh in
              assert P as HP by (vm_compute; reflexivity);
              specialize (H HP); clear HP
          end).
  change (save_new_id (Sample.save_env 1741240500000 Sample.idea_id))
    with (lit Sample.idea_id) in H.
  destruct (deleteRecording (Sample.delete_env None) (lit Sample.idea_id)
              Sample.st_two Sample.sb_two) as [[out st2] sb2].
  destruct H as (H1 & _ & H2 & H3 & H4).
  split; [exact H1|]. split; [exact H2|]. split; [exact H3|].
  rewrite H4. vm_compute. reflexivity.
Defined.

(** *** Whose data is shown *)

Lemma is_uid_true (sb : Backend) (uid : jsstring) :
  is_uid sb uid = true -> auth_uid sb = Some uid.
Proof.
  unfold is_uid. destruct (auth_uid sb) as [a|]; [|discriminate].
  intros H. apply bool_decide_eq_true in H. now subst.
Qed.

(** X10. After a save that resolved, the visible list is the signed-in user's
    rows of the table, all of them and no row of anybody else. *)
Theorem saveRecording_lists_own_rows env title audioBlob duration
    st sb st' sb' u :
  user st = Loaded u ->
  saveRecording env title audioBlob duration st sb = (Resolved, st', sb') ->
  auth_uid sb' = Some (user_id u) /\
  Permutation (recordings st')
    (List.map to_recording
       (List.filter (fun r => bool_decide (row_user_id r = user_id u))
          (tbl_recordings sb'))).
Proof.
  intros Hu Hsave.
  destruct (saveRecording_resolved _ _ _ _ _ _ _ _ Hsave)
    as (u' & Hu' & _ & Hrow & _ & Hauth & _ & _ & _ & Hlist).
  assert (u' = u) as -> by congruence.
  apply is_uid_true in Hrow. cbn [row_user_id saved_row] in Hrow.
  split; [congruence|]. rewrite Hlist. apply Permutation_map.
  unfold order_desc. rewrite (sort_Permutation row_created_at).
  assert (forall r, owned_by sb (user_id u) r
                    = bool_decide (row_user_id r = user_id u)) as Hown.
  { intros r. unfold owned_by, visible_recording, is_uid. rewrite Hrow.
    destruct (bool_decide (row_user_id r = user_id u)) eqn:Hr.
    - apply bool_decide_eq_true in Hr. rewrite Hr.
      rewrite bool_decide_eq_true_2; reflexivity.
    - apply andb_false_r. }
  rewrite (List.filter_ext _ _ Hown). reflexivity.
Qed.

Lemma saveRecording_lists_own_rows_witness :
  Permutation (recordings Sample.st_two)
    (List.map to_recording (tbl_recordings Sample.sb_two)).
Proof.
  destruct (saveRecording_lists_own_rows
              (Sample.save_env 1741240500000 Sample.idea_id) (lit "Idea")
              (Sample.wav 6) (7 # 4) Sample.st_memo Sample.sb_memo
              Sample.st_two Sample.sb_two (to_user Sample.alice))
    as [_ H]; [vm_compute; reflexivity..|].
  exact H.
Defined.

Lemma loadUserData_create_shows lenv authUser st sb :
  let '(st', sb') := loadUserData_create lenv authUser st sb in
  tbl_recordings sb' = tbl_recordings sb /\ bucket sb' = bucket sb /\
  ((user st' = Null /\ recordings st' = [] /\
    auth_uid sb'
    = match load_signOut_fault lenv with
      | Some _ => auth_uid sb
      | None => None
      end) \/
   (exists row,
      user st' = Loaded (to_user row) /\ u_id row = au_id authUser /\
      In row (tbl_users sb') /\
      auth_uid sb = Some (au_id authUser) /\ auth_uid sb' = auth_uid sb)).
Proof.
  unfold loadUserData_create, loadUserData_catch, signOut, insert_user, answer.
  destruct (load_insert_fault lenv) as [e'|]; cbn [fst snd].
  { destruct (load_signOut_fault lenv); simpl; repeat split; now left. }
  destruct (visible_user _ _) eqn:Hvis; cbn [negb fst snd].
  2: { destruct (load_signOut_fault lenv); simpl; repeat split; now left. }
  destruct (existsb _ _); cbn [fst snd].
  { destruct (load_signOut_fault lenv); simpl; repeat split; now left. }
  simpl. repeat split. right. eexists. split; [reflexivity|].
  apply is_uid_true in Hvis. simpl in Hvis.
  repeat split; try assumption. apply in_or_app. right. now left.
Qed.

(** X11. [loadUserData] ends in one of two ways.  Either nobody is shown: the
    user is [null] and the list is empty, and the session is signed out
    when the sign-out of the [catch] block succeeded and is the one it
    was when that sign-out failed.  Or the profile shown is the one
    stored under the id of the signed-in identity, which is also the
    identity the service sees.  It never touches the recordings or the
    bucket. *)
Theorem loadUserData_shows_session_user lenv authUser st sb :
  let '(st', sb') := loadUserData lenv authUser st sb in
  tbl_recordings sb' = tbl_recordings sb /\ bucket sb' = bucket sb /\
  ((user st' = Null /\ recordings st' = [] /\
    auth_uid sb'
    = match load_signOut_fault lenv with
      | Some _ => auth_uid sb
      | None => None
      end) \/
   (exists row,
      user st' = Loaded (to_user row) /\ u_id row = au_id authUser /\
      In row (tbl_users sb') /\
      auth_uid sb = Some (au_id authUser) /\ auth_uid sb' = auth_uid sb)).
Proof.
  pose proof (loadUserData_create_shows lenv authUser st
                (sent (SelectUser (au_id authUser)) sb)) as Hcreate.
  unfold loadUserData, loadUserData_catch, signOut, select_user, answer.
  destruct (load_profile_fault lenv) as [e|]; cbn [fst snd].
  - destruct (bool_decide (code e = lit "PGRST116")); [exact Hcreate|].
    destruct (load_signOut_fault lenv); simpl; repeat split; now left.
  - destruct (List.filter _ (tbl_users sb)) as [|row [|row' rows]] eqn:Hsel;
      cbn [single].
    1,3: change (bool_decide (code no_rows = lit "PGRST116")) with true;
         exact Hcreate.
    assert (In row (tbl_users sb) /\ visible_user sb row = true
            /\ u_id row = au_id authUser) as (Hin & Hvis & Hid).
    { assert (In row (List.filter
                        (fun u => visible_user sb u
                                  && bool_decide (u_id u = au_id authUser))
                        (tbl_users sb))) as H by (rewrite Hsel; now left).
      apply filter_In in H. destruct H as [H1 H2].
      apply andb_prop in H2. destruct H2 as [H2 H3].
      apply bool_decide_eq_true in H3. now repeat split. }
    apply is_uid_true in Hvis. rewrite Hid in Hvis.
    unfold select_recordings, answer.
    destruct (load_recordings_fault lenv) as [e'|]; cbn [fst snd].
    { destruct (load_signOut_fault lenv); simpl; repeat split; now left. }
    simpl. repeat split. right. exists row. now repeat split.
Qed.

End GatewayErrors.

(** ** The dashboard: search, order, audio elements, durations *)

Section DashboardMore.

Import AuthContext Dashboard.

Lemma startsWith_spec (s p : jsstring) :
  startsWith s p = true <-> exists b, s = p ++ b.
Proof.
  revert s. induction p as [|c p IH]; intros s.
  - split; [intros _; now exists s|intros _; now destruct s].
  - destruct s as [|d s]; cbn [startsWith].
    + split; [discriminate|]. intros [b Hb]. discriminate.
    + rewrite andb_true_iff, IH, N.eqb_eq. split.
      * intros [-> [b ->]]. now exists b.
      * intros [b [= -> ->]]. split; [reflexivity|now exists b].
Qed.

(** [s.includes(p)]: [p] occurs somewhere in [s]. *)
Lemma includes_spec (s p : jsstring) :
  includes s p = true <-> exists a b, s = a ++ p ++ b.
Proof.
  induction s as [|c s IH].
  - cbn [includes]. rewrite orb_false_r, startsWith_spec. split.
    + intros [b Hb]. now exists [], b.
    + intros (a & b & H). destruct a; [now exists b|discriminate].
  - cbn [includes]. rewrite orb_true_iff, startsWith_spec, IH. split.
    + intros [[b Hb]|(a & b & ->)]; [now exists [], b|now exists (c :: a), b].
    + intros ([|d a] & b & H).
      * left. now exists b.
      * right. injection H as -> ->. now exists a, b.
Qed.

(** X12. What the dashboard lists: the recordings whose title, in lower case,
    contains the search term, in lower case; each of them once, none
    other. *)
Theorem sortedRecordings_lists_matches toLowerCase term (l : list Recording) :
  Permutation (sortedRecordings toLowerCase term l)
    (filteredRecordings toLowerCase term l) /\
  forall rec,
    In rec (sortedRecordings toLowerCase term l) <->
    In rec l /\
    exists a b, toLowerCase (title rec) = a ++ toLowerCase term ++ b.
Proof.
  assert (Permutation (sortedRecordings toLowerCase term l)
            (filteredRecordings toLowerCase term l)) as Hp.
  { unfold sortedRecordings.
    apply (sort_Permutation (fun r => getTime (date r))). }
  split; [exact Hp|]. intros rec.
  rewrite <- includes_spec.
  pose proof (filter_In
                (fun recording =>
                   includes (toLowerCase (title recording)) (toLowerCase term))
                rec l) as Hf.
  cbv beta in Hf. rewrite <- Hf. fold (filteredRecordings toLowerCase term l).
  split; apply Permutation_in; [|symmetry]; exact Hp.
Qed.

(** X13. With the search box empty, a list that the provider hands over
    newest first is shown as it is. *)
Theorem empty_search_shows_all toLowerCase (l : list Recording) :
  toLowerCase [] = [] ->
  newest_first l ->
  sortedRecordings toLowerCase [] l = l.
Proof.
  intros Hlow Hs. rewrite sortedRecordings_keeps_order by exact Hs.
  unfold filteredRecordings. apply filter_all. intros rec _.
  rewrite Hlow. apply includes_spec. now exists [], (toLowerCase (title rec)).
Qed.

Lemma empty_search_shows_all_witness :
  sortedRecordings (fun s => s) [] [Sample.idea; Sample.memo]
  = [Sample.idea; Sample.memo].
Proof.
  apply (empty_search_shows_all (fun s => s)); [reflexivity|].
  repeat constructor; vm_compute; discriminate.
Defined.

(** *** Audio elements *)

Lemma playRecording_elements (st : Dashboard.State) (id0 url : jsstring) :
  consistent st -> truthy id0 = true ->
  let st' := fst (playRecording id0 url st) in
  (length (elements st) = size (audioElements st) ->
   length (elements st') = size (audioElements st')) /\
  (forall i, is_Some (audioElements st' !! i) <->
             is_Some (audioElements st !! i) \/ id0 = i).
Proof.
  intros [Hwf Hcur] Hid. unfold playRecording.
  destruct (match playing_element st with
            | Some el => (update_element pause el st, [pause_call el])
            | None => (st, [])
            end) as [st1 calls1] eqn:Hst1.
  assert (length (elements st1) = length (elements st) /\
          audioElements st1 = audioElements st) as [Hlen Hmap].
  { destruct (playing_element st); injection Hst1 as <- _; simpl;
      [rewrite length_alter|]; now split. }
  destruct (bool_decide (currentlyPlaying st = Some id0)) eqn:Hsame.
  - apply bool_decide_eq_true in Hsame.
    destruct (Hcur _ Hsame) as [_ Hel]. cbn [fst setCurrentlyPlaying audioElements elements].
    rewrite Hlen, Hmap. split; [trivial|]. intros i. split; [now left|].
    intros [H| <-]; [exact H|exact Hel].
  - destruct (audioElements st !! id0) as [el|] eqn:Hlook.
    + cbn [fst setCurrentlyPlaying update_element audioElements elements].
      rewrite length_alter, Hlen, Hmap. split; [trivial|].
      intros i. split; [now left|]. intros [H| <-]; [exact H|].
      now rewrite Hlook.
    + cbn [fst setCurrentlyPlaying update_element audioElements elements].
      rewrite length_alter, length_app, Hlen, Hmap. split.
      * intros H. rewrite map_size_insert_None by exact Hlook.
        simpl. lia.
      * intros i. destruct (decide (id0 = i)) as [<-|Hne].
        -- rewrite lookup_insert_eq. split; [now right|now eexists].
        -- rewrite lookup_insert_ne by exact Hne. split; [now left|].
           intros [H|H]; [exact H|contradiction].
Qed.

Lemma step_elements (ev : Dashboard.Event) (st : Dashboard.State) :
  has_id ev -> consistent st ->
  let st' := Dashboard.step ev st in
  (length (elements st) = size (audioElements st) ->
   length (elements st') = size (audioElements st')) /\
  (forall i, is_Some (audioElements st' !! i) <->
             is_Some (audioElements st !! i) \/ clicked [ev] i).
Proof.
  intros Hid Hc. destruct ev as [rec|el|el].
  - destruct (playRecording_elements st (id rec) (audioUrl rec) Hc Hid)
      as [Hlen Hdom].
    split; [exact Hlen|]. intros i. cbn [Dashboard.step]. rewrite Hdom.
    split; (intros [H|H]; [now left|right]).
    + exists rec. split; [now left|exact H].
    + destruct H as (rec' & [[= <-]|[]] & H). exact H.
  - assert (forall i, clicked [playback_ends el] i -> False) as Hno.
    { intros i (rec & [[=]|[]] & _). }
    cbn [Dashboard.step]. destruct (elements st !! el) as [e|].
    2: { split; [trivial|]. intros i. split; [now left|].
         intros [H|H]; [exact H|now apply Hno in H]. }
    destruct (sounding e); cbn [elements audioElements].
    2: { split; [trivial|]. intros i. split; [now left|].
         intros [H|H]; [exact H|now apply Hno in H]. }
    rewrite length_alter. split; [trivial|]. intros i. split; [now left|].
    intros [H|H]; [exact H|now apply Hno in H].
  - assert (forall i, clicked [ended_task el] i -> False) as Hno.
    { intros i (rec & [[=]|[]] & _). }
    cbn [Dashboard.step]. destruct (existsb _ _);
      cbn [on_ended setCurrentlyPlaying elements audioElements].
    2: { split; [trivial|]. intros i. split; [now left|].
         intros [H|H]; [exact H|now apply Hno in H]. }
    rewrite length_alter. split; [trivial|]. intros i. split; [now left|].
    intros [H|H]; [exact H|now apply Hno in H].
Qed.

Lemma run_elements (evs : list Dashboard.Event) (st : Dashboard.State) :
  Forall has_id evs -> consistent st ->
  length (elements st) = size (audioElements st) ->
  let st' := Dashboard.run evs st in
  length (elements st') = size (audioElements st') /\
  (forall i, is_Some (audioElements st' !! i) <->
             is_Some (audioElements st !! i) \/ clicked evs i).
Proof.
  intros Hids. revert st.
  induction Hids as [|ev evs Hev Hevs IH]; intros st Hc Hlen.
  - split; [exact Hlen|]. intros i. split; [now left|].
    intros [H|(rec & [] & _)]. exact H.
  - destruct (step_elements ev st Hev Hc) as [Hlen1 Hdom1].
    destruct (IH (Dashboard.step ev st) (step_consistent ev st Hev Hc)
                (Hlen1 Hlen)) as [Hlen' Hdom'].
    split; [exact Hlen'|]. intros i.
    change (Dashboard.run (ev :: evs) st)
      with (Dashboard.run evs (Dashboard.step ev st)).
    rewrite Hdom', Hdom1. unfold clicked. split.
    + intros [[H|(rec & [->|[]] & H)]|(rec & Hin & H)].
      * now left.
      * right. exists rec. split; [now left|exact H].
      * right. exists rec. split; [now right|exact H].
    + intros [H|(rec & [Hin|Hin] & H)].
      * left. now left.
      * left. right. exists rec. split; [now left|exact H].
      * right. exists rec. split; [exact Hin|exact H].
Qed.

(** X14. However often and in whatever order items are played, paused and
    played again, the page holds exactly one audio element for every
    recording that was clicked, and none for any other. *)
Theorem one_audio_element_per_recording (evs : list Dashboard.Event) :
  Forall has_id evs ->
  let st := Dashboard.run evs Dashboard.initial in
  length (elements st) = size (audioElements st) /\
  (forall i, is_Some (audioElements st !! i) <-> clicked evs i) /\
  (forall i j el, audioElements st !! i = Some el ->
                  audioElements st !! j = Some el -> i = j) /\
  (forall i el, audioElements st !! i = Some el ->
                is_Some (elements st !! el)).
Proof.
  intros Hids st.
  destruct (run_elements evs _ Hids initial_consistent eq_refl)
    as [Hlen Hdom].
  pose proof (run_consistent evs _ Hids initial_consistent) as [[Hb Hi] _].
  fold st in Hlen, Hdom, Hb, Hi.
  split; [exact Hlen|]. split; [|split].
  - intros i. rewrite Hdom. split; [|now right].
    intros [H|H]; [|exact H]. simpl in H. rewrite lookup_empty in H.
    now destruct H.
  - exact Hi.
  - intros i el H. apply lookup_lt_is_Some_2. now apply (Hb i).
Qed.

Lemma one_audio_element_per_recording_witness :
  let st := Dashboard.run
              [click_play Sample.memo; click_play Sample.idea;
               click_play Sample.memo; click_play Sample.memo;
               playback_ends 0; ended_task 0; click_play Sample.memo]
              Dashboard.initial in
  length (elements st) = 2%nat.
Proof.
  intros st.
  destruct (one_audio_element_per_recording
              [click_play Sample.memo; click_play Sample.idea;
               click_play Sample.memo; click_play Sample.memo;
               playback_ends 0; ended_task 0; click_play Sample.memo])
    as [Hlen _].
  - repeat constructor.
  - fold st in Hlen. rewrite Hlen. vm_compute. reflexivity.
Defined.

(** X15. Clicking the item that is marked playing switches it off: its
    element is paused, which is the only call made; no item is marked
    afterwards; no element is created or started; and a click on it
    after that plays the same element again. *)
Theorem playRecording_toggles (evs : list Dashboard.Event) (A : Recording) :
  Forall has_id evs ->
  let st := Dashboard.run evs Dashboard.initial in
  currentlyPlaying st = Some (id A) ->
  exists ea,
    audioElements st !! id A = Some ea /\
    let st' := fst (playRecording (id A) (audioUrl A) st) in
    snd (playRecording (id A) (audioUrl A) st) = [pause_call ea] /\
    currentlyPlaying st' = None /\
    audioElements st' = audioElements st /\
    elements st' = alter pause ea (elements st) /\
    paused <$> elements st' !! ea = Some true /\
    (forall el e, elements st' !! el = Some e -> sounding e = true ->
                  exists e0, elements st !! el = Some e0 /\ sounding e0 = true) /\
    snd (playRecording (id A) (audioUrl A) st') = [play_call ea] /\
    length (elements (fst (playRecording (id A) (audioUrl A) st')))
    = length (elements st).
Proof.
  intros Hids st HA.
  pose proof (run_consistent evs _ Hids initial_consistent) as Hc.
  fold st in Hc. destruct (current_element st Hc _ HA) as (HtA & ea & Hea).
  pose proof (elements_bound st (consistent_wf st Hc) _ _ Hea) as Hlt.
  destruct (lookup_lt_is_Some_2 _ _ Hlt) as [e He].
  exists ea. split; [exact Hea|].
  assert (playRecording (id A) (audioUrl A) st
          = (setCurrentlyPlaying None (update_element pause ea st),
             [pause_call ea])) as Hoff.
  { unfold playRecording, playing_element. rewrite HA, HtA, Hea.
    now rewrite bool_decide_eq_true_2. }
  rewrite Hoff. cbn [fst snd].
  cbn [currentlyPlaying audioElements elements setCurrentlyPlaying
       update_element].
  split; [reflexivity|]. split; [reflexivity|]. split; [reflexivity|].
  split; [reflexivity|]. split; [|split; [|split]].
  - now rewrite list_lookup_alter_eq, He.
  - intros el e' Hel Hs. destruct (decide (el = ea)) as [->|Hne].
    + rewrite list_lookup_alter_eq, He in Hel. injection Hel as <-.
      discriminate Hs.
    + rewrite list_lookup_alter_ne in Hel by congruence. now exists e'.
  - unfold playRecording, playing_element.
    cbn [currentlyPlaying audioElements elements setCurrentlyPlaying
         update_element].
    rewrite Hea. rewrite bool_decide_eq_false_2 by discriminate. reflexivity.
  - unfold playRecording, playing_element.
    cbn [currentlyPlaying audioElements elements setCurrentlyPlaying
         update_element].
    rewrite Hea. rewrite bool_decide_eq_false_2 by discriminate.
    cbn [fst elements setCurrentlyPlaying update_element].
    now rewrite !length_alter.
Qed.

Lemma playRecording_toggles_witness :
  snd (playRecording (id Sample.memo) (audioUrl Sample.memo)
         (Dashboard.run [click_play Sample.memo] Dashboard.initial))
  = [pause_call 0].
Proof.
  destruct (playRecording_toggles [click_play Sample.memo] Sample.memo)
    as (ea & Hea & Hcalls & _).
  - repeat constructor.
  - reflexivity.
  - rewrite Hcalls. f_equal. f_equal. vm_compute in Hea. congruence.
Defined.

(** *** Durations *)

Lemma floor_div_60 (s : Q) : Qfloor (s / 60) = (Qfloor s / 60)%Z.
Proof.
  destruct s as [n d]. unfold Qfloor, Qdiv, Qmult, Qinv. simpl.
  rewrite Z.mul_1_r, Pos2Z.inj_mul. symmetry. apply Z.div_div; lia.
Qed.

Lemma floor_rem_60 (s : Q) :
  (0 <= s)%Q -> Qfloor (number_rem s 60) = (Qfloor s mod 60)%Z.
Proof.
  destruct s as [n d]. unfold Qle. simpl. rewrite Z.mul_1_r. intros Hn.
  unfold number_rem, Math_trunc, Qfloor, Qdiv, Qmult, Qinv, Qminus, Qplus,
    Qopp, inject_Z.
  cbn [Qnum Qden]. rewrite !Z.mul_1_r, !Pos.mul_1_r.
  change (Z.pos (d * 60)) with (Z.pos d * 60)%Z.
  rewrite Z.quot_div_nonneg by lia.
  rewrite <- Z.div_div by lia.
  set (t := (n / Z.pos d)%Z).
  replace (n  + - (60 * (t / 60)) * Z.pos d)%Z
    with (n + (- (60 * (t / 60))) * Z.pos d)%Z by ring.
  rewrite Z.div_add by lia. fold t. rewrite (Z.mod_eq t 60) by lia. lia.
Qed.

(** A number below 100, padded to two places. *)
Lemma padStart_two_digits (z : Z) :
  (0 <= z < 100)%Z ->
  padStart 2 48 (of_int z) = [digit (z / 10); digit (z mod 10)].
Proof.
  intros Hz. rewrite <- (Z2Nat.id z) by lia.
  assert (Z.to_nat z < 100)%nat as Hn by lia.
  remember (Z.to_nat z) as n eqn:Heqn. clear Heqn Hz z.
  do 100 (destruct n as [|n]; [vm_compute; reflexivity|]).
  lia.
Qed.

(** X16. Below 100 minutes [formatTime] writes MM:SS: two digits of minutes, a
    colon, two digits of seconds below 60, which together are the whole
    seconds of the duration. *)
Theorem formatTime_mm_ss (s : Q) :
  (0 <= s)%Q -> (s < 6000)%Q ->
  let t := Qfloor s in
  formatTime s
  = [digit (t / 600); digit (t / 60 mod 10); 58%N;
     digit (t mod 60 / 10); digit (t mod 10)].
Proof.
  intros H0 H1 t. unfold formatTime, Math_floor.
  rewrite floor_div_60, floor_rem_60 by exact H0. fold t.
  assert (0 <= t < 6000)%Z as Ht.
  { split.
    - change 0%Z with (Qfloor 0). now apply Qfloor_resp_le.
    - assert (inject_Z t < 6000)%Q as H.
      { eapply Qle_lt_trans; [apply Qfloor_le|exact H1]. }
      unfold Qlt in H. simpl in H. lia. }
  rewrite !padStart_two_digits.
  - rewrite Z.div_div by lia. simpl Z.mul.
    assert ((t mod 60) mod 10 = t mod 10)%Z as ->.
    { rewrite (Z.mod_eq t 60) by lia.
      replace (t - 60 * (t / 60))%Z with (t + (- 6 * (t / 60)) * 10)%Z by ring.
      apply Z.mod_add. lia. }
    reflexivity.
  - pose proof (Z.mod_pos_bound t 60). lia.
  - split; [apply Z.div_pos; lia|]. apply Z.div_lt_upper_bound; lia.
Qed.

Lemma formatTime_mm_ss_witness : formatTime (duration Sample.memo) = lit "00:02".
Proof.
  rewrite (formatTime_mm_ss (duration Sample.memo)).
  - vm_compute. reflexivity.
  - vm_compute. discriminate.
  - vm_compute. reflexivity.
Defined.

End DashboardMore.

(** ** The live waveform: one loop, on the current canvas *)

Section LiveWaveformMore.

Import WaveformVisualizer.

(** X17. However the props change and whatever is rendered in between, at
    most one [draw] is scheduled; a display frame therefore redraws the
    waveform at most once, and leaves as many callbacks scheduled as it
    ran. *)
Theorem at_most_one_redraw_loop (evs : list Event) (samples : list Byte.byte) :
  let st := fst (run evs WaveformVisualizer.initial) in
  (length (callbacks st) <= 1)%nat /\
  length (callbacks (fst (frame samples st))) = length (callbacks st) /\
  (snd (frame samples st) = [] \/
   exists h d canvas,
     callbacks st = [(h, d)] /\
     canvases st !! draw_canvas d = Some canvas /\
     snd (frame samples st)
     = draw_calls canvas (getByteTimeDomainData samples (draw_dataArray d))).
Proof.
  intros st.
  pose proof (run_inv evs _ initial_inv) as (_ & _ & H). fold st in H.
  unfold frame. destruct (cleanup st).
  - destruct H as (h & d & Hcb & _ & _). rewrite Hcb.
    cbn [length List.fold_left fst snd draw callbacks canvases app].
    split; [lia|]. split; [reflexivity|].
    destruct (canvases st !! draw_canvas d) as [canvas|] eqn:Hc;
      [right|now left].
    now exists h, d, canvas.
  - rewrite H. simpl. split; [lia|]. split; [reflexivity|now left].
Qed.

Lemma point_inside (v h : Q) :
  (0 <= v -> v <= 2 -> 0 <= h -> 0 <= v * (h / 2) /\ v * (h / 2) <= h)%Q.
Proof.
  intros Hv0 Hv2 Hh.
  assert (0 <= v * h)%Q by (apply Qmult_le_0_compat; assumption).
  assert (0 <= (2 - v) * h)%Q by (apply Qmult_le_0_compat; lra).
  assert (v * (h / 2) == (v * h) * (1 # 2))%Q as -> by field.
  split; lra.
Qed.

Lemma draw_loop_inside canvas sliceWidth (dataArray : list Byte.byte) :
  (0 <= inject_Z (height canvas))%Q -> (0 <= sliceWidth)%Q ->
  forall i x0,
    (0 <= x0)%Q ->
    (x0 + inject_Z (Z.of_nat (length dataArray)) * sliceWidth
     <= inject_Z (width canvas))%Q ->
    Forall (inside_canvas canvas) (draw_loop canvas sliceWidth i x0 dataArray).
Proof.
  intros Hh Hs.
  induction dataArray as [|d rest IH]; intros i x0 Hx0 Hend; [constructor|].
  cbn [draw_loop]. cbn [length] in Hend.
  rewrite Nat2Z.inj_succ, <- Z.add_1_r, inject_Z_plus in Hend.
  change (inject_Z 1) with 1%Q in Hend.
  assert (0 <= inject_Z (Z.of_nat (length rest)) * sliceWidth)%Q as Hrest.
  { apply Qmult_le_0_compat; [|exact Hs].
    change 0%Q with (inject_Z 0). rewrite <- Zle_Qle. lia. }
  constructor.
  - assert (inside_canvas canvas
              (moveTo x0 (sample d / 128 * (inject_Z (height canvas) / 2)))) as H.
    { destruct (sample_range d) as [Hv0 Hv2]. cbn [inside_canvas].
      split; [split; [exact Hx0|lra]|].
      now apply point_inside. }
    destruct (i =? 0)%nat; exact H.
  - apply IH; lra.
Qed.

(** X18. The waveform stays on the canvas: every point that [draw] moves or
    draws a line to lies within the canvas's width and height. *)
Theorem draw_stays_inside_canvas (canvas : Canvas) (dataArray : list Byte.byte) :
  (0 <= width canvas)%Z -> (0 <= height canvas)%Z ->
  Forall (inside_canvas canvas) (draw_calls canvas dataArray).
Proof.
  intros Hw Hh.
  assert (0 <= inject_Z (width canvas))%Q as Hw'
    by (change 0%Q with (inject_Z 0); now rewrite <- Zle_Qle).
  assert (0 <= inject_Z (height canvas))%Q as Hh'
    by (change 0%Q with (inject_Z 0); now rewrite <- Zle_Qle).
  unfold draw_calls. repeat (apply Forall_cons; split; [exact I|]).
  apply Forall_app. split.
  - destruct dataArray as [|d0 rest] eqn:Hd; [constructor|]. rewrite <- Hd.
    assert (0 < inject_Z (Z.of_nat (length dataArray)))%Q as Hn.
    { change 0%Q with (inject_Z 0). rewrite <- Zlt_Qlt. subst. simpl. lia. }
    apply draw_loop_inside; [exact Hh'| |apply Qle_refl|].
    + apply Qle_shift_div_l; [exact Hn|]. lra.
    + assert (inject_Z (Z.of_nat (length dataArray))
              * (inject_Z (width canvas) / inject_Z (Z.of_nat (length dataArray)))
              == inject_Z (width canvas))%Q as -> by (field; lra).
      lra.
  - apply Forall_cons. split; [|apply Forall_cons; split; [exact I|constructor]].
    cbn [inside_canvas]. split; [lra|].
    assert (inject_Z (height canvas) / 2 == inject_Z (height canvas) * (1 # 2))%Q
      as -> by field.
    lra.
Qed.

Lemma draw_stays_inside_canvas_witness :
  Forall (inside_canvas Sample.canvas1) (draw_calls Sample.canvas1 Sample.samples).
Proof.
  apply draw_stays_inside_canvas; vm_compute; discriminate.
Defined.

Lemma initial_canvas : live_canvas WaveformVisualizer.initial.
Proof. split; [|simpl]; discriminate. Qed.

Lemma render_canvas (p : Props) samples (st : WaveformVisualizer.State) :
  live_inv st -> live_canvas st -> live_canvas (fst (render p samples st)).
Proof.
  intros Hinv [Href Hloop].
  assert (forall c, canvasRef (commit_canvas p st) = Some c ->
                    is_Some (canvases (commit_canvas p st) !! c)) as Href1.
  { unfold commit_canvas. destruct (isRecording p); [|discriminate].
    destruct (canvasRef st) as [c0|] eqn:Hc; [now rewrite Hc|].
    cbn [canvasRef canvases]. intros c [= <-].
    rewrite list_lookup_middle; [now eexists|reflexivity]. }
  destruct (commit_canvas_fields p st) as (Hdeps & Hcl & Hanim & Hcb & Hnext).
  unfold render. destruct (bool_decide _) eqn:Hsame; cbn [fst].
  - apply bool_decide_eq_true in Hsame. split; [exact Href1|].
    rewrite Hcl. intros Hc. destruct (Hloop Hc) as (p0 & h & d & Hd & Hrec & Hcbs & Hcan).
    assert (p0 = p) as -> by congruence.
    exists p, h, d. rewrite Hdeps, Hcb. repeat split; try assumption.
    unfold commit_canvas. now rewrite Hrec, Hcan.
  - pose proof (owed_cleanup_clears _ (commit_canvas_inv p st Hinv)) as Hclear.
    set (st1 := if cleanup (commit_canvas p st)
                then live_cleanup (commit_canvas p st)
                else commit_canvas p st) in *.
    assert (canvasRef st1 = canvasRef (commit_canvas p st) /\
            canvases st1 = canvases (commit_canvas p st)) as [Hr1 Hc1].
    { unfold st1. destruct (cleanup (commit_canvas p st)); [|now split].
      unfold live_cleanup.
      destruct (animationRef (commit_canvas p st)) as [h|]; [|now split].
      destruct (h =? 0)%N; now split. }
    unfold live_effect.
    destruct (isRecording p) eqn:Hrec; [destruct (analyser p)|];
      [destruct (canvasRef st1) as [c|] eqn:Hc| |];
      simpl.
    + split.
      * intros c' Hc'. simpl in Hc'. rewrite Hc1. apply Href1. congruence.
      * intros _. eexists p, _, _. rewrite Hclear.
        split; [reflexivity|]. split; [exact Hrec|].
        split; reflexivity.
    + split; [|discriminate]. intros c' Hc'. simpl in Hc'. congruence.
    + split; [|discriminate]. intros c' Hc'. simpl in Hc'. rewrite Hc1. apply Href1. congruence.
    + split; [|discriminate]. intros c' Hc'. simpl in Hc'. rewrite Hc1. apply Href1. congruence.
Qed.

Lemma frame_canvas samples (st : WaveformVisualizer.State) :
  live_inv st -> live_canvas st -> live_canvas (fst (frame samples st)).
Proof.
  intros (_ & _ & H) [Href Hloop]. unfold frame.
  destruct (cleanup st) eqn:Hcl.
  - destruct (Hloop eq_refl) as (p & h & d & Hd & Hrec & Hcbs & Hcan).
    rewrite Hcbs.
    cbn [List.fold_left fst snd draw canvasRef canvases cleanup deps callbacks app draw_canvas].
    split; [exact Href|]. intros _.
    eexists p, _, _. repeat split; try eassumption.
  - rewrite H. cbn [List.fold_left fst].
    split; [exact Href|]. simpl. congruence.
Qed.

Lemma handleResize_canvas w h (st : WaveformVisualizer.State) :
  live_canvas st -> live_canvas (handleResize w h st).
Proof.
  intros Hlc. unfold handleResize.
  destruct (canvasRef st) as [c|] eqn:Hc; [|exact Hlc].
  destruct Hlc as [Href Hloop].
  split; cbn [canvasRef canvases cleanup deps callbacks].
  - intros c' [= <-]. apply lookup_lt_is_Some.
    rewrite length_insert. apply lookup_lt_is_Some. now apply Href.
  - intros Hcl. destruct (Hloop Hcl) as (p & h0 & d & Hd & Hrec & Hcbs & Hcan).
    exists p, h0, d. repeat split; try assumption. congruence.
Qed.

Lemma run_canvas (evs : list Event) (st : WaveformVisualizer.State) :
  live_inv st -> live_canvas st -> live_canvas (fst (run evs st)).
Proof.
  revert st. induction evs as [|ev evs IH]; intros st Hinv Hcan; [exact Hcan|].
  rewrite run_fst. apply IH; [now apply step_inv|].
  destruct ev as [p samples|samples|w h]; cbn [step fst].
  - now apply render_canvas.
  - now apply frame_canvas.
  - now apply handleResize_canvas.
Qed.

(** [getByteTimeDomainData] keeps the length of the array it fills. *)
Lemma getByteTimeDomainData_length (samples dataArray : list Byte.byte) :
  length (getByteTimeDomainData samples dataArray) = length dataArray.
Proof.
  unfold getByteTimeDomainData.
  rewrite length_app, length_firstn, length_skipn. lia.
Qed.

(** C9. Live mode.  Every [draw], on the canvas it captured and with the
    buffer of N samples it has just filled, makes these canvas calls:
    clearing and styling, one [beginPath], then N path calls, then the
    closing [lineTo] and one [stroke]; the call for sample [i] carries
    x = i * (width / N) and y = v * (height / 2) where v = sample / 128
    lies in [0, 2]; it is the [moveTo] for i = 0 and a [lineTo] for every
    other i, so the N points are one polyline.  And whatever the
    component went through, while the live loop runs a display frame
    makes exactly the calls of that one [draw], on a canvas that
    exists. *)
Theorem draw_plots_samples_as_polyline :
  (forall (st : WaveformVisualizer.State) (d : Draw) (samples : list Byte.byte)
          (canvas : Canvas),
      canvases st !! draw_canvas d = Some canvas ->
      let dataArray := getByteTimeDomainData samples (draw_dataArray d) in
      let N := length dataArray in
      let w := inject_Z (width canvas) in
      let h := inject_Z (height canvas) in
      exists path,
        snd (draw samples d st)
        = [ clearRect 0 0 w h; set_lineWidth 2;
            set_strokeStyle (lit "rgb(102, 217, 232)"); set_shadowBlur 10;
            set_shadowColor (lit "rgb(102, 217, 232)"); beginPath ]
          ++ path ++ [ lineTo w (h / 2)%Q; stroke ] /\
        length path = N /\ N = length (draw_dataArray d) /\
        forall i b,
          dataArray !! i = Some b ->
          let v := (sample b / 128)%Q in
          (0 <= v /\ v <= 2)%Q /\
          exists x,
            path !! i
            = Some ((if (i =? 0)%nat then moveTo else lineTo) x
                      (v * (h / 2))%Q) /\
            (x == inject_Z (Z.of_nat i) * (w / inject_Z (Z.of_nat N)))%Q) /\
  (forall (evs : list Event) (samples : list Byte.byte),
      let st := fst (run evs WaveformVisualizer.initial) in
      cleanup st = true ->
      exists hd d canvas,
        callbacks st = [(hd, d)] /\
        canvases st !! draw_canvas d = Some canvas /\
        snd (frame samples st) = snd (draw samples d st)).
Proof.
  split.
  - intros st d samples canvas Hcanvas dataArray N w h.
    destruct (draw_calls_polyline canvas dataArray) as (path & Hcalls & Hlen & Hpts).
    exists path. cbn [draw snd]. rewrite Hcanvas.
    split; [exact Hcalls|]. split; [exact Hlen|].
    split; [apply getByteTimeDomainData_length|exact Hpts].
  - intros evs samples st Hcl.
    pose proof (run_canvas evs _ initial_inv initial_canvas) as [Href Hloop].
    fold st in Href, Hloop.
    destruct (Hloop Hcl) as (p & hd & d & _ & _ & Hcbs & Hcan).
    destruct (Href _ Hcan) as [canvas Hcanvas].
    exists hd, d, canvas. split; [exact Hcbs|]. split; [exact Hcanvas|].
    unfold frame. rewrite Hcbs. reflexivity.
Qed.

Lemma draw_plots_samples_as_polyline_witness :
  let st := fst (run [ Render Sample.while_recording Sample.samples ]
                   WaveformVisualizer.initial) in
  exists path x,
    snd (frame Sample.samples st)
    = [ clearRect 0 0 300 150; set_lineWidth 2;
        set_strokeStyle (lit "rgb(102, 217, 232)"); set_shadowBlur 10;
        set_shadowColor (lit "rgb(102, 217, 232)"); beginPath ]
      ++ path ++ [ lineTo 300 (150 / 2)%Q; stroke ] /\
    length path = 4%nat /\
    path !! 1%nat = Some (lineTo x (sample Byte.xff / 128 * (150 / 2))%Q) /\
    (x == 75)%Q /\ (sample Byte.xff / 128 == 255 # 128)%Q.
Proof.
  intros st.
  destruct draw_plots_samples_as_polyline as [Hdraw Hlive].
  destruct (Hlive [ Render Sample.while_recording Sample.samples ]
              Sample.samples) as (hd & d & canvas & Hcbs & Hcanvas & Hframe);
    [reflexivity|].
  fold st in Hcbs, Hcanvas, Hframe.
  destruct (Hdraw st d Sample.samples canvas Hcanvas)
    as (path & Hcalls & Hlen & _ & Hpts).
  vm_compute in Hcbs. injection Hcbs as _ <-.
  vm_compute in Hcanvas. injection Hcanvas as <-.
  destruct (Hpts 1%nat Byte.xff) as (_ & x & Hx & Hxe); [reflexivity|].
  exists path, x. split; [rewrite Hframe; exact Hcalls|].
  split; [exact Hlen|]. split; [exact Hx|].
  split; [rewrite Hxe|]; reflexivity.
Defined.

(** X19. A resize takes effect on the next frame: while the waveform is
    live, the frame that follows a window resize clears and plots with
    the canvas's new width and height, without a new render. *)
Theorem resize_shows_on_next_frame (evs : list Event) (w h : Z)
    (samples : list Byte.byte) :
  let st := fst (run evs WaveformVisualizer.initial) in
  cleanup st = true ->
  exists hd d,
    callbacks st = [(hd, d)] /\
    snd (frame samples (handleResize w h st))
    = draw_calls {| width := w; height := h |}
        (getByteTimeDomainData samples (draw_dataArray d)).
Proof.
  intros st Hcl.
  pose proof (run_canvas evs _ initial_inv initial_canvas) as [Href Hloop].
  fold st in Href, Hloop.
  destruct (Hloop Hcl) as (p & hd & d & _ & _ & Hcbs & Hcan).
  exists hd, d. split; [exact Hcbs|].
  destruct (Href _ Hcan) as [canvas Hcanvas].
  unfold frame, handleResize. rewrite Hcan.
  cbn [callbacks canvases]. rewrite Hcbs.
  cbn [List.fold_left fst snd draw canvases app].
  rewrite list_lookup_insert_eq; [reflexivity|].
  apply lookup_lt_is_Some. now exists canvas.
Qed.

Lemma resize_shows_on_next_frame_witness :
  let st := fst (run [ Render Sample.while_recording Sample.samples;
                       Frame Sample.samples ] WaveformVisualizer.initial) in
  snd (frame Sample.samples (handleResize 600 192 st))
  = draw_calls {| width := 600; height := 192 |} Sample.samples.
Proof.
  intros st.
  destruct (resize_shows_on_next_frame
              [ Render Sample.while_recording Sample.samples;
                Frame Sample.samples ] 600 192 Sample.samples)
    as (hd & d & Hcbs & Hcalls); [reflexivity|].
  fold st in Hcbs, Hcalls. rewrite Hcalls. f_equal.
  vm_compute in Hcbs. injection Hcbs as _ <-. reflexivity.
Defined.

End LiveWaveformMore.

(** ** The capture session: what it holds on to *)

Section CaptureResources.

Import App.

Lemma clear_timer_revoked (rf : Refs) (b : Browser) :
  revoked (clear_timer rf b) = revoked b.
Proof.
  unfold clear_timer. destruct (timerRef rf) as [h|]; [|reflexivity].
  now destruct (h =? 0)%N.
Qed.

(** [commit] keeps the cells, the refs, the streams, the recorders and
    the object URLs. *)
Lemma commit_fields (st : App.State) :
  hooks (commit st) = hooks st /\ refs (commit st) = refs st /\
  streams (browser (commit st)) = streams (browser st) /\
  recorders (browser (commit st)) = recorders (browser st) /\
  objectUrls (browser (commit st)) = objectUrls (browser st).
Proof.
  unfold commit. destruct (bool_decide _); [repeat split|]. simpl.
  destruct (effect_cleanup_fields (effect_audioUrl st) (refs st) (browser st))
    as (_ & Hs & Hr & _ & Hu & _).
  repeat split; assumption.
Qed.

Lemma initial_microphone : microphone_inv App.initial.
Proof. split; [reflexivity|]. intros i m H. simpl in H. discriminate H. Qed.

Lemma handle_microphone (ev : Event) (st : App.State) :
  microphone_inv st -> microphone_inv (handle ev st).
Proof.
  intros [Hlen Hrec].
  assert (microphone_inv st) as Hinv by now split.
  destruct ev as [ |g|r data|r data|h now| | |v]; cbn [handle].
  - (* click_record *)
    destruct (showRecorder (hooks st)); [|exact Hinv].
    unfold record_onClick, stopRecording.
    destruct (isRecording (hooks st)); [|exact Hinv].
    destruct (mediaRecorderRef (refs st)) as [r|]; [|exact Hinv].
    unfold microphone_inv. cbn [browser].
    destruct (clear_timer_fields (refs st) (MediaRecorder_stop r (browser st)))
      as (_ & -> & -> & _).
    cbn [MediaRecorder_stop streams recorders].
    split; [now rewrite length_alter|]. intros i m.
    destruct (decide (i = r)) as [->|Hne].
    + rewrite list_lookup_alter_eq.
      destruct (recorders (browser st) !! r) as [m0|] eqn:Hm0; [|discriminate].
      destruct (Hrec _ _ Hm0) as [Hs Hl]. cbn [fmap option_fmap option_map].
      intros [= <-]. rewrite Hl. unfold unfinished in *.
      destruct (state m0) eqn:Hst; cbn [stream state]; rewrite ?Hst; now split.
    + rewrite list_lookup_alter_ne by congruence. apply Hrec.
  - (* getUserMedia_settled *)
    destruct (awaiting (browser st)); [exact Hinv|].
    destruct g as [startTime|]; [|exact Hinv].
    unfold microphone_inv. cbn [startRecording_resume browser streams recorders with_awaiting].
    split; [rewrite !length_app; simpl; lia|]. intros i m Hm.
    destruct (lt_dec i (length (recorders (browser st)))) as [Hlt|Hge].
    + rewrite lookup_app_l in Hm by exact Hlt.
      rewrite lookup_app_l by lia. now apply Hrec.
    + assert (i = length (recorders (browser st))) as ->.
      { apply lookup_lt_Some in Hm. rewrite length_app in Hm. simpl in Hm. lia. }
      rewrite list_lookup_middle in Hm by reflexivity. injection Hm as <-.
      cbn [stream]. split; [exact Hlen|].
      rewrite list_lookup_middle by (symmetry; exact Hlen). reflexivity.
  - (* recorder_dataavailable *)
    destruct (recorders (browser st) !! r) as [[s []]|]; try exact Hinv.
    unfold ondataavailable. now destruct (0 <? Blob_size data)%nat.
  - (* recorder_stop_task *)
    destruct (recorders (browser st) !! r) as [[s []]|] eqn:Hr; try exact Hinv.
    destruct (Hrec _ _ Hr) as [Hs _]. cbn [stream] in Hs. subst s.
    assert (browser (ondataavailable data st) = browser st) as Hb.
    { unfold ondataavailable. now destruct (0 <? Blob_size data)%nat. }
    unfold microphone_inv.
    cbn [with_browser browser onstop streams recorders]. rewrite Hb.
    split; [now rewrite !length_insert|]. intros i m.
    destruct (decide (i = r)) as [->|Hne].
    + rewrite list_lookup_insert_eq by (now apply lookup_lt_Some in Hr).
      intros [= <-]. cbn [stream]. split; [reflexivity|].
      rewrite list_lookup_insert_eq; [reflexivity|].
      rewrite Hlen. now apply lookup_lt_Some in Hr.
    + rewrite !list_lookup_insert_ne by congruence. apply Hrec.
  - (* interval_fired *)
    destruct (List.find _ _) as [[? startTime]|]; exact Hinv.
  - destruct (showSaveModal (hooks st)); [|exact Hinv].
    destruct (audioBlob (hooks st)); exact Hinv.
  - destruct (showSaveModal (hooks st)); [|exact Hinv].
    destruct (audioBlob (hooks st)); exact Hinv.
  - exact Hinv.
Qed.

Lemma step_microphone (ev : Event) (st : App.State) :
  microphone_inv st -> microphone_inv (step ev st).
Proof.
  intros Hinv. apply (handle_microphone ev) in Hinv. unfold step, microphone_inv.
  destruct (commit_fields (handle ev st)) as (_ & _ & -> & -> & _).
  exact Hinv.
Qed.

(** X20. The microphone is held exactly as long as it is needed: whatever
    happens on the recorder screen, the tracks of the stream of a session
    are live until the stop task of its recorder has run, and stopped
    from then on. *)
Theorem microphone_live_until_stop_task (evs : list Event) :
  let st := App.run evs App.initial in
  length (streams (browser st)) = length (recorders (browser st)) /\
  forall i m,
    recorders (browser st) !! i = Some m ->
    stream m = i /\
    streams (browser st) !! i
    = Some match state m with stopped => false | _ => true end.
Proof.
  intros st.
  assert (forall st0, microphone_inv st0 -> microphone_inv (App.run evs st0))
    as Hrun.
  { induction evs as [|ev evs IH]; intros st0 H0; [exact H0|].
    apply IH. now apply step_microphone. }
  exact (Hrun _ initial_microphone).
Qed.

Lemma lit_inj (s t : string) : lit s = lit t -> s = t.
Proof.
  unfold lit. intros H.
  rewrite <- (string_of_list_ascii_of_string s),
          <- (string_of_list_ascii_of_string t).
  f_equal. revert H.
  generalize (list_ascii_of_string s) (list_ascii_of_string t).
  induction l as [|a l IH]; intros [|b l']; simpl; try discriminate;
    [reflexivity|].
  intros [= Hab Hl]. f_equal; [|now apply IH].
  now rewrite <- (ascii_N_embedding a), <- (ascii_N_embedding b), Hab.
Qed.

Lemma to_int_not_nil (z : Z) :
  Z.to_int z <> Decimal.Pos Decimal.Nil /\ Z.to_int z <> Decimal.Neg Decimal.Nil.
Proof.
  split; intros H; pose proof (DecimalZ.of_to z) as Hz; rewrite H in Hz;
    simpl in Hz; subst z; discriminate H.
Qed.

(** Different integers have different digits. *)
Lemma of_int_inj (a b : Z) : of_int a = of_int b -> a = b.
Proof.
  intros H. apply lit_inj in H. apply DecimalZ.to_int_inj.
  destruct (to_int_not_nil a) as [Ha1 Ha2], (to_int_not_nil b) as [Hb1 Hb2].
  pose proof (NilZero.isi _ Ha1 Ha2) as Ia.
  pose proof (NilZero.isi _ Hb1 Hb2) as Ib.
  rewrite H in Ia. congruence.
Qed.

Lemma initial_object_urls : object_urls_inv App.initial.
Proof.
  split; [reflexivity|]. split; [|reflexivity].
  intros i url blob H. simpl in H. discriminate H.
Qed.

(** The URL that is held is one of those made, so it is not the next. *)
Lemma held_url_made (st : App.State) (url : jsstring) :
  object_urls_inv st -> audioUrl (hooks st) = Some url ->
  truthy url = true /\ url <> createObjectURL (browser st).
Proof.
  intros (_ & Hnum & Hurls) Hheld.
  assert (In url (List.map fst (objectUrls (browser st)))) as Hin.
  { rewrite Hurls. unfold held_url. rewrite Hheld.
    apply in_or_app. right. now left. }
  apply in_map_iff in Hin. destruct Hin as ([u blob] & Hu & Hin).
  cbn [fst] in Hu. subst u.
  apply list_elem_of_In, list_elem_of_lookup_1 in Hin. destruct Hin as [i Hi].
  pose proof (lookup_lt_Some _ _ _ Hi) as Hlt.
  rewrite (Hnum _ _ _ Hi). split; [reflexivity|].
  unfold createObjectURL. intros Heq.
  apply Stdlib.Lists.List.app_inv_head, of_int_inj in Heq. lia.
Qed.

(** [commit] after a handler that left the browser's URLs alone. *)
Lemma commit_object_urls (st st' : App.State) :
  object_urls_inv st ->
  effect_audioUrl st' = effect_audioUrl st ->
  objectUrls (browser st') = objectUrls (browser st) ->
  revoked (browser st') = revoked (browser st) ->
  audioUrl (hooks st') = audioUrl (hooks st) \/ audioUrl (hooks st') = None ->
  object_urls_inv (commit st').
Proof.
  intros Hinv Heff' Hobj Hrev Hurl.
  pose proof Hinv as (Heff & Hnum & Hurls). unfold commit.
  destruct (bool_decide _) eqn:Hsame.
  - apply bool_decide_eq_true in Hsame.
    assert (audioUrl (hooks st') = audioUrl (hooks st)) as Hu by congruence.
    split; [exact Hsame|]. split; [now rewrite Hobj|].
    unfold held_url. now rewrite Hobj, Hrev, Hu.
  - apply bool_decide_eq_false in Hsame.
    destruct Hurl as [Hu|Hu]; [congruence|].
    destruct (effect_cleanup_fields (effect_audioUrl st') (refs st') (browser st'))
      as (_ & _ & _ & _ & Hkeep & _).
    split; [reflexivity|]. cbn [hooks browser].
    split; [now rewrite Hkeep, Hobj|].
    unfold held_url. cbn [hooks]. rewrite Hu, app_nil_r.
    rewrite Hkeep, Hobj, Hurls. unfold held_url, effect_cleanup.
    rewrite Heff', Heff.
    destruct (audioUrl (hooks st)) as [url|] eqn:Hold; [|congruence].
    destruct (held_url_made st url Hinv Hold) as [-> _].
    cbn [revokeObjectURL revoked].
    now rewrite clear_timer_revoked, Hrev.
Qed.

Lemma step_object_urls (ev : Event) (st : App.State) :
  object_urls_inv st -> object_urls_inv (step ev st).
Proof.
  intros Hinv. unfold step.
  assert (object_urls_inv (commit st)) as Hsame
    by (apply (commit_object_urls st st Hinv); auto).
  destruct ev as [ |g|r data|r data|h now| | |v]; cbn [handle].
  - (* click_record *)
    destruct (showRecorder (hooks st)); [|exact Hsame].
    unfold record_onClick, stopRecording.
    destruct (isRecording (hooks st)).
    + destruct (mediaRecorderRef (refs st)) as [r|]; [|exact Hsame].
      apply (commit_object_urls st); cbn [effect_audioUrl browser hooks audioUrl];
        auto.
      * now destruct (clear_timer_fields (refs st)
                        (MediaRecorder_stop r (browser st))) as (_ & _ & _ & _ & ->).
      * now rewrite clear_timer_revoked.
    + apply (commit_object_urls st); auto.
  - (* getUserMedia_settled *)
    destruct (awaiting (browser st)); [exact Hsame|].
    destruct g as [startTime|]; apply (commit_object_urls st); auto.
  - (* recorder_dataavailable *)
    destruct (recorders (browser st) !! r) as [[s []]|]; try exact Hsame.
    unfold ondataavailable.
    destruct (0 <? Blob_size data)%nat; [|exact Hsame].
    apply (commit_object_urls st); auto.
  - (* recorder_stop_task *)
    destruct (recorders (browser st) !! r) as [[s []]|]; try exact Hsame.
    assert (browser (ondataavailable data st) = browser st /\
            hooks (ondataavailable data st) = hooks st /\
            effect_audioUrl (ondataavailable data st) = effect_audioUrl st)
      as (Hb & Hh & He).
    { unfold ondataavailable. now destruct (0 <? Blob_size data)%nat. }
    pose proof Hinv as (Heff & Hnum & Hurls).
    assert (forall i url blob,
               (objectUrls (browser st)
                ++ [(createObjectURL (browser st),
                     new_Blob (audioChunksRef (refs (ondataavailable data st)))
                       (lit "audio/wav"))]) !! i = Some (url, blob) ->
               url = lit "blob:" ++ of_int (Z.of_nat i)) as Hnum'.
    { intros i url blob Hi.
      destruct (lt_dec i (length (objectUrls (browser st)))) as [Hlt|Hge].
      - rewrite lookup_app_l in Hi by exact Hlt. now apply (Hnum _ _ blob).
      - assert (i = length (objectUrls (browser st))) as ->.
        { apply lookup_lt_Some in Hi. rewrite length_app in Hi. simpl in Hi. lia. }
        rewrite list_lookup_middle in Hi by reflexivity. now injection Hi as <- _. }
    unfold commit.
    cbn [with_browser onstop hooks refs browser effect_audioUrl audioUrl].
    rewrite Hb, Hh, He.
    destruct (bool_decide _) eqn:Hdep.
    + apply bool_decide_eq_true in Hdep. rewrite Heff in Hdep.
      now destruct (held_url_made st _ Hinv Hdep) as [_ Hne].
    + split; [reflexivity|]. cbn [hooks audioUrl browser].
      match goal with
      | |- context [effect_cleanup ?u ?rf ?b] =>
          destruct (effect_cleanup_fields u rf b) as (_ & _ & _ & _ & -> & _)
      end.
      cbn [objectUrls]. split; [exact Hnum'|].
      unfold held_url. cbn [hooks audioUrl].
      rewrite map_app, Hurls. cbn [List.map fst].
      unfold effect_cleanup, held_url. rewrite Heff.
      destruct (audioUrl (hooks st)) as [url|] eqn:Hold.
      * destruct (held_url_made st url Hinv Hold) as [-> _].
        cbn [revokeObjectURL revoked].
        now rewrite clear_timer_revoked.
      * now rewrite clear_timer_revoked, app_nil_r.
  - (* interval_fired *)
    destruct (List.find _ _) as [[? startTime]|]; [|exact Hsame].
    apply (commit_object_urls st); auto.
  - destruct (showSaveModal (hooks st)); [|exact Hsame].
    destruct (audioBlob (hooks st)); [|exact Hsame].
    apply (commit_object_urls st); auto.
  - destruct (showSaveModal (hooks st)); [|exact Hsame].
    destruct (audioBlob (hooks st)); [|exact Hsame].
    apply (commit_object_urls st); auto.
  - apply (commit_object_urls st); auto.
Qed.

Lemma numbered_NoDup (l : list (jsstring * Blob)) (k : nat) :
  (forall i url blob,
      l !! i = Some (url, blob) ->
      url = lit "blob:" ++ of_int (Z.of_nat (k + i))) ->
  NoDup (List.map fst l).
Proof.
  revert k. induction l as [|[u b] l IH]; intros k Hnum; [constructor|].
  cbn [List.map fst]. constructor.
  - intros Hin. apply list_elem_of_In, in_map_iff in Hin.
    destruct Hin as ([u' b'] & Hu & Hin).
    cbn [fst] in Hu. subst u'.
    apply list_elem_of_In, list_elem_of_lookup_1 in Hin. destruct Hin as [i Hi].
    pose proof (Hnum 0%nat u b eq_refl) as H0.
    pose proof (Hnum (S i) u b' Hi) as H1. rewrite H0 in H1.
    apply Stdlib.Lists.List.app_inv_head, of_int_inj in H1. lia.
  - apply (IH (S k)). intros i url blob Hi.
    replace (S k + i)%nat with (k + S i)%nat by lia.
    now apply (Hnum (S i) url blob).
Qed.

(** X21. No object URL is left behind: whatever happens on the recorder
    screen, every object URL the app has created is revoked, in the order
    of creation, except the one of the artifact it currently holds; and
    no two of them are the same. *)
Theorem object_urls_are_revoked (evs : list Event) :
  let st := App.run evs App.initial in
  List.map fst (objectUrls (browser st)) = revoked (browser st) ++ held_url st /\
  NoDup (List.map fst (objectUrls (browser st))).
Proof.
  intros st.
  assert (forall st0, object_urls_inv st0 -> object_urls_inv (App.run evs st0))
    as Hrun.
  { induction evs as [|ev evs IH]; intros st0 H0; [exact H0|].
    apply IH. now apply step_object_urls. }
  destruct (Hrun _ initial_object_urls) as (_ & Hnum & Hurls).
  fold st in Hnum, Hurls.
  split; [exact Hurls|]. now apply (numbered_NoDup _ 0).
Qed.




End CaptureResources.

(** ** Signing in *)

Section SignIn.

Import Supabase AuthContext RegExp LoginForm.


Lemma matches_seq_inv (r1 r2 : RegExp) (s : jsstring) :
  matches (Seq r1 r2) s ->
  exists s1 s2, s = s1 ++ s2 /\ matches r1 s1 /\ matches r2 s2.
Proof. intros H. inversion H; subst. now eexists _, _. Qed.

Lemma matches_alt_inv (r1 r2 : RegExp) (s : jsstring) :
  matches (Alt r1 r2) s -> matches r1 s \/ matches r2 s.
Proof. intros H. inversion H; subst; [now left|now right]. Qed.

Lemma nullable_spec (r : RegExp) : nullable r = true <-> matches r [].
Proof.
  induction r as [| |p|r1 IH1 r2 IH2|r1 IH1 r2 IH2|r IH]; simpl.
  - split; [discriminate|]. intros H. inversion H.
  - split; [constructor|reflexivity].
  - split; [discriminate|]. intros H. inversion H.
  - rewrite orb_true_iff, IH1, IH2. split.
    + intros [H|H]; [now apply matches_alt_l|now apply matches_alt_r].
    + apply matches_alt_inv.
  - rewrite andb_true_iff, IH1, IH2. split.
    + intros [H1 H2]. now apply (matches_seq r1 r2 [] []).
    + intros H. apply matches_seq_inv in H. destruct H as (s1 & s2 & Hs & H1 & H2).
      symmetry in Hs. apply app_eq_nil in Hs. destruct Hs as [-> ->]. now split.
  - split; [constructor|reflexivity].
Qed.

(** A non-empty match of [r*] starts with a non-empty match of [r]. *)
Lemma matches_star_cons_inv (r : RegExp) (c : N) (s : jsstring) :
  matches (Star r) (c :: s) ->
  exists s1 s2, s = s1 ++ s2 /\ matches r (c :: s1) /\ matches (Star r) s2.
Proof.
  intros H. remember (Star r) as r' eqn:Hr. remember (c :: s) as s' eqn:Hs.
  revert s Hs. induction H as [| | | | | |r0 s1 s2 H1 _ H2 IH2]; intros t Hs;
    try discriminate.
  injection Hr as ->. destruct s1 as [|c' s1].
  - now apply IH2.
  - injection Hs as -> <-. now exists s1, s2.
Qed.

Lemma deriv_spec (r : RegExp) (c : N) (s : jsstring) :
  matches (deriv c r) s <-> matches r (c :: s).
Proof.
  revert s.
  induction r as [| |p|r1 IH1 r2 IH2|r1 IH1 r2 IH2|r IH]; intros s; simpl.
  - split; intros H; inversion H.
  - split; intros H; inversion H.
  - destruct (p c) eqn:Hp; split; intros H; inversion H; subst.
    + now constructor.
    + constructor.
    + congruence.
  - split; intros H; apply matches_alt_inv in H; destruct H as [H|H].
    + apply matches_alt_l. now apply IH1.
    + apply matches_alt_r. now apply IH2.
    + apply matches_alt_l. now apply IH1.
    + apply matches_alt_r. now apply IH2.
  - split.
    + intros H. apply matches_alt_inv in H. destruct H as [H'|H'].
      * apply matches_seq_inv in H'. destruct H' as (s1 & s2 & -> & H1 & H2).
        apply IH1 in H1. now apply (matches_seq r1 r2 (c :: s1) s2).
      * destruct (nullable r1) eqn:Hn; [|inversion H'].
        apply nullable_spec in Hn. apply IH2 in H'.
        now apply (matches_seq r1 r2 [] (c :: s)).
    + intros H. apply matches_seq_inv in H. destruct H as (s1 & s2 & Hs & H1 & H2).
      destruct s1 as [|c' s1].
      * simpl in Hs. subst s2. apply matches_alt_r.
        apply nullable_spec in H1. rewrite H1. now apply IH2.
      * injection Hs as <- ->. apply matches_alt_l.
        apply matches_seq; [now apply IH1|exact H2].
  - split.
    + intros H. apply matches_seq_inv in H. destruct H as (s1 & s2 & -> & H1 & H2).
      apply IH in H1. now apply (matches_star_cons r (c :: s1) s2).
    + intros H. apply matches_star_cons_inv in H.
      destruct H as (s1 & s2 & -> & H1 & H2).
      apply matches_seq; [now apply IH|exact H2].
Qed.

(** The matcher decides the pattern's language. *)
Lemma test_spec (r : RegExp) (s : jsstring) : test r s = true <-> matches r s.
Proof.
  unfold test. revert r. induction s as [|c s IH]; intros r; simpl.
  - apply nullable_spec.
  - rewrite IH. apply deriv_spec.
Qed.

Lemma matches_star_class (p : N -> bool) (s : jsstring) :
  matches (Star (Chars p)) s <-> Forall (fun c => p c = true) s.
Proof.
  split.
  - intros H. remember (Star (Chars p)) as r eqn:Hr.
    induction H as [| | | | | |r0 s1 s2 H1 _ H2 IH2]; try discriminate.
    + constructor.
    + injection Hr as ->. inversion H1; subst. constructor; [assumption|].
      now apply IH2.
  - induction 1 as [|c s Hc _ IH]; [constructor|].
    apply (matches_star_cons _ [c] s); [now constructor|exact IH].
Qed.

Lemma matches_plus_class (p : N -> bool) (s : jsstring) :
  matches (Plus (Chars p)) s <-> s <> [] /\ Forall (fun c => p c = true) s.
Proof.
  unfold Plus. split.
  - intros H. apply matches_seq_inv in H. destruct H as (s1 & s2 & -> & H1 & H2).
    inversion H1; subst. apply matches_star_class in H2.
    split; [discriminate|]. now constructor.
  - intros [Hne Hall]. destruct Hall as [|c s Hc Hall]; [contradiction|].
    apply (matches_seq _ _ [c] s); [now constructor|].
    now apply matches_star_class.
Qed.

Lemma matches_chr (c0 : N) (s : jsstring) : matches (chr c0) s <-> s = [c0].
Proof.
  unfold chr. split.
  - intros H. inversion H as [|? c Hc| | | | |]; subst.
    apply N.eqb_eq in Hc. now subst.
  - intros ->. constructor. apply N.eqb_refl.
Qed.

Lemma address_part_spec (s : jsstring) :
  matches (Plus (Chars not_space_or_at)) s <-> address_part s.
Proof.
  rewrite matches_plus_class. unfold address_part.
  assert (forall c, not_space_or_at c = true
                    <-> is_white_space c = false /\ c <> at_sign) as Hc.
  { intros c. unfold not_space_or_at.
    rewrite andb_true_iff, !negb_true_iff, N.eqb_neq. reflexivity. }
  split; intros [Hne Hall]; (split; [exact Hne|]);
    (eapply Forall_impl; [exact Hall|]); intros c; apply Hc.
Qed.


(** The pattern for addresses accepts exactly the strings that are
    something, an at sign, something, a dot, something, where no part is
    empty or has white space or an at sign. *)
Lemma emailRegex_accepts (s : jsstring) :
  test emailRegex s = true <-> address s.
Proof.
  rewrite test_spec. unfold emailRegex, address. split.
  - intros H.
    apply matches_seq_inv in H. destruct H as (a & s1 & -> & Ha & H1).
    apply matches_seq_inv in H1. destruct H1 as (x & s2 & -> & Hx & H2).
    apply matches_seq_inv in H2. destruct H2 as (b & s3 & -> & Hb & H3).
    apply matches_seq_inv in H3. destruct H3 as (y & c & -> & Hy & Hc).
    apply matches_chr in Hx, Hy. subst x y.
    exists a, b, c. rewrite address_part_spec in Ha, Hb, Hc.
    split; [reflexivity|]. split; [exact Ha|]. split; [exact Hb|exact Hc].
  - intros (a & b & c & -> & Ha & Hb & Hc).
    rewrite <- address_part_spec in Ha, Hb, Hc.
    repeat (apply matches_seq; try assumption); now apply matches_chr.
Qed.

Lemma truthy_ne (s : jsstring) : truthy s = true <-> s <> [].
Proof. destruct s; simpl; split; congruence. Qed.

Lemma address_ne (s : jsstring) : address s -> s <> [].
Proof.
  intros (a & b & c & -> & [Ha _] & _). destruct a; [contradiction|discriminate].
Qed.

Lemma validateForm_true (st : LoginForm.State) :
  fst (validateForm st) = true <-> well_filled st.
Proof.
  unfold validateForm, well_filled.
  destruct (truthy (trim (email st))) eqn:Hmail; cbn [negb].
  2: { cbn [fst]. split; [discriminate|]. intros [Ha _].
       apply address_ne, truthy_ne in Ha. congruence. }
  destruct (test emailRegex (trim (email st))) eqn:Hre; cbn [negb].
  2: { cbn [fst]. split; [discriminate|]. intros [Ha _].
       apply emailRegex_accepts in Ha. congruence. }
  apply emailRegex_accepts in Hre.
  destruct (truthy (password st)) eqn:Hpw; cbn [negb].
  2: { cbn [fst]. split; [discriminate|]. intros (_ & Hlen & _).
       destruct (password st); [simpl in Hlen; lia|discriminate]. }
  destruct (Nat.ltb_spec (length (password st)) 6) as [Hshort|Hlong].
  { cbn [fst]. split; [discriminate|]. intros (_ & Hlen & _). lia. }
  destruct (isLogin st); cbn [negb andb].
  { cbn [fst]. split; [|reflexivity]. intros _.
    split; [exact Hre|]. split; [exact Hlong|discriminate]. }
  destruct (truthy (trim (username st))) eqn:Hname; cbn [negb fst].
  - split; [|reflexivity]. intros _.
    split; [exact Hre|]. split; [exact Hlong|]. intros _.
    now apply truthy_ne.
  - split; [discriminate|]. intros (_ & _ & Hu).
    apply truthy_ne in Hu; [congruence|reflexivity].
Qed.

(** With what [validateForm] ends: [true] and no state change, or
    [false] and a message to show. *)
Lemma validateForm_result (st : LoginForm.State) :
  validateForm st = (true, st) \/
  exists msg, validateForm st = (false, setError (Some msg) st) /\
              truthy msg = true.
Proof.
  unfold validateForm.
  repeat (match goal with
          | |- context [if ?b then _ else _] => destruct b
          end; [right; eexists; split; reflexivity|]).
  now left.
Qed.

(** X23. [validateForm] passes a form exactly when, white space around it
    aside, the e-mail is something, an at sign, something, a dot,
    something, with no white space or second at sign inside; the password
    has six code units or more; and, when registering, the user name is
    not blank.  A form that passes is left as it is; one that does not
    gets a message to show. *)
Theorem validateForm_accepts (st : LoginForm.State) :
  (fst (validateForm st) = true <-> well_filled st) /\
  (fst (validateForm st) = true -> snd (validateForm st) = st) /\
  (fst (validateForm st) = false ->
   exists msg, snd (validateForm st) = setError (Some msg) st /\
               truthy msg = true).
Proof.
  split; [apply validateForm_true|].
  destruct (validateForm_result st) as [->|(msg & -> & Hmsg)]; cbn [fst snd].
  - split; [reflexivity|discriminate].
  - split; [discriminate|]. intros _. now exists msg.
Qed.

Lemma validateForm_accepts_witness :
  let st := {| isLogin := false; username := lit " alice ";
               email := lit " alice@example.org "; password := lit "secret";
               error := None; isLoading := false |} in
  well_filled st.
Proof.
  intros st. apply (validateForm_accepts st). vm_compute. reflexivity.
Defined.

(** X24. The identity provider is asked only when the database is reachable
    and the form passes validation, and then once: to sign in with the
    trimmed e-mail and the password, or, when registering, to sign up
    with the trimmed e-mail, the password and the trimmed user name.
    What it is sent is therefore an address, a password of six code units
    or more, and a user name that is not empty. *)
Theorem handleSubmit_asks_only_when_valid (dbConnected : bool)
    (answer : AuthAnswer) (st : LoginForm.State) :
  let r := handleSubmit dbConnected answer st in
  (calls r <> [] <-> dbConnected = true /\ well_filled st) /\
  (calls r <> [] ->
   calls r
   = [if isLogin st
      then SignInWithPassword (trim (email st)) (password st)
      else SignUp (trim (email st)) (password st) (trim (username st))]) /\
  (forall e p,
      In (SignInWithPassword e p) (calls r) ->
      address e /\ (6 <= length p)%nat) /\
  (forall e p u,
      In (SignUp e p u) (calls r) ->
      address e /\ (6 <= length p)%nat /\ u <> []).
Proof.
  intros r.
  assert (well_filled (setError None st) <-> well_filled st) as Hsame
    by reflexivity.
  assert (calls r = [] /\ ~ (dbConnected = true /\ well_filled st) \/
          dbConnected = true /\ well_filled st /\
          calls r
          = [if isLogin st
             then SignInWithPassword (trim (email st)) (password st)
             else SignUp (trim (email st)) (password st) (trim (username st))])
    as Hcases.
  { unfold r, handleSubmit. destruct dbConnected; cbn [negb].
    2: { left. split; [reflexivity|]. intros [[=] _]. }
    pose proof (validateForm_true (setError None st)) as Hv.
    destruct (validateForm (setError None st)) as [valid st1].
    cbn [fst] in Hv. destruct valid; cbn [negb].
    - right. split; [reflexivity|]. split; [now apply Hsame, Hv|].
      unfold login, register.
      destruct (isLogin st);
        (destruct (auth_error answer); [reflexivity|]);
        destruct (auth_user answer); reflexivity.
    - left. split; [reflexivity|]. intros [_ Hw].
      apply Hsame, Hv in Hw. discriminate. }
  destruct Hcases as [[Hnone Hnot]|(Hdb & Hw & Hcall)].
  - rewrite Hnone. split; [split; [congruence|intros H; contradiction]|].
    split; [congruence|]. split; intros *; intros [].
  - rewrite Hcall. split; [split; [now intros _|discriminate]|].
    split; [reflexivity|].
    destruct Hw as (Ha & Hp & Hu).
    split.
    + intros e p [Hin|[]]. destruct (isLogin st); [|discriminate].
      injection Hin as <- <-. now split.
    + intros e p u [Hin|[]]. destruct (isLogin st) eqn:Hl; [discriminate|].
      injection Hin as <- <- <-. split; [exact Ha|]. split; [exact Hp|].
      now apply Hu.
Qed.

(** X25. A submit ends in one of two ways: [onSuccess] was called, no error is
    shown and the provider had accepted; or [onSuccess] was not called
    and a message that is not empty is shown.  Either way the form is no
    longer loading once the provider was asked, and what the user typed
    stays in the fields. *)
Theorem handleSubmit_succeeds_or_shows_message (dbConnected : bool)
    (answer : AuthAnswer) (st : LoginForm.State) :
  let r := handleSubmit dbConnected answer st in
  (onSuccess_called r = true /\ error (form r) = None /\
   auth_error answer = None /\ auth_user answer = true /\ calls r <> []
   \/
   onSuccess_called r = false /\
   exists msg, error (form r) = Some msg /\ truthy msg = true) /\
  (calls r <> [] -> isLoading (form r) = false) /\
  email (form r) = email st /\ password (form r) = password st /\
  username (form r) = username st /\ isLogin (form r) = isLogin st.
Proof.
  intros r. unfold r, handleSubmit. destruct dbConnected; cbn [negb].
  2: { cbn. split; [right; split; [reflexivity|]; now eexists|].
       split; [congruence|]. now repeat split. }
  destruct (validateForm_result (setError None st)) as [->|(msg & -> & Hmsg)];
    cbn [negb].
  2: { cbn. split; [right; split; [reflexivity|]; now eexists|].
       split; [congruence|]. now repeat split. }
  assert (forall e, truthy (getErrorMessage e) = true) as Hm
    by apply getErrorMessage_truthy.
  unfold login, register.
  destruct (isLogin st) eqn:Hl;
    (destruct (auth_error answer) as [e|];
     [|destruct (auth_user answer)]); cbn;
    (split; [|split; [reflexivity|now repeat split]]);
    try (right; split; [reflexivity|]; eexists; split; [reflexivity|]; apply Hm);
    left; repeat split; discriminate.
Qed.

End SignIn.
